(** * brewinfo: metadata acquisition and dependency indexing

    A shallow embedding of [brewinfo.py] (class [BrewAnalyzer]) and
    [brewinfo_optimized.py] (class [OptimizedBrewAnalyzer]), and the
    properties of package resolution and of the reverse-dependency index.

    Conventions of the embedding.
    - Python dictionaries and sets are finite maps and finite sets
      ([gmap], [gset]); equality of maps is Python's [==] on dicts, which
      does not look at insertion order.  The module [Ordered] embeds the
      state of the two analyzers once more with the insertion order of
      the dicts and an arbitrary order of the sets.
    - The outside world (the [brew] executable and the HTTP API) is a record
      of oracles, [World].  Every external call is appended to a call log
      that is threaded through the computation together with the exceptions
      the code lets escape ([Run]).
    - [json.loads] is a parameter.  Decoded documents have the shape of
      brew's JSON interface: an array of objects whose fields [name],
      [token], [desc], [homepage] are strings and whose fields
      [build_dependencies], [dependencies] are arrays of strings, each of
      them possibly absent.  These are the types the dataclass
      [PackageInfo] declares for what is read out of such an object.  The
      module [Raw] embeds the resolution of brewinfo.py once more for any
      decoded document, and for output that is no text.
    - Strings are byte strings; [str.strip] is modelled for the ASCII
      white space characters. *)

From Stdlib Require Import ZArith Ascii String List Lia.
From stdpp Require Import base option list gmap strings fin_maps fin_sets.

Set Warnings "-clear-no-such-hyp".

Open Scope string_scope.
Open Scope list_scope.
Open Scope stdpp_scope.

(** ** Data model *)

(** [@dataclass class PackageInfo] (the same in both files). *)
Record PackageInfo := mkPackageInfo {
  name : string;
  description : string;
  url : string;
  build_dependencies : list string;
  runtime_dependencies : list string;
  is_cask : bool
}.

(** One object of a decoded JSON array, restricted to the keys the code
    reads.  [None] is an absent key. *)
Record pkg_json := mkPkgJson {
  j_name : option string;
  j_token : option string;
  j_desc : option string;
  j_homepage : option string;
  j_build_dependencies : option (list string);
  j_dependencies : option (list string)
}.

(** [pkg_data.get(key, dflt)] *)
Definition get {A} (field : option A) (dflt : A) : A := default dflt field.

(** ** Python strings *)

(** [str.isspace] on one ASCII character: TAB, LF, VT, FF, CR, the four
    separators 0x1c-0x1f and the blank. *)
Definition py_isspace (a : ascii) : bool :=
  let n := nat_of_ascii a in
  (((9 <=? n) && (n <=? 13)) || ((28 <=? n) && (n <=? 32)))%nat.

Fixpoint lstrip (s : string) : string :=
  match s with
  | EmptyString => EmptyString
  | String a s' => if py_isspace a then lstrip s' else s
  end.

Definition rstrip (s : string) : string := String.rev (lstrip (String.rev s)).

(** [s.strip()] *)
Definition strip (s : string) : string := rstrip (lstrip s).

Definition newline : ascii := ascii_of_nat 10.

(** [s.split("\n")] *)
Fixpoint split_newline (s : string) : list string :=
  match s with
  | EmptyString => [EmptyString]
  | String a s' =>
      if Ascii.eqb a newline then EmptyString :: split_newline s'
      else match split_newline s' with
           | [] => [String a EmptyString]
           | x :: xs => String a x :: xs
           end
  end.

(** Truth value of a string: [if s] *)
Definition nonempty (s : string) : bool :=
  match s with EmptyString => false | _ => true end.

(** ** The outside world and the effects of a run *)

(** What [subprocess.run(["brew"] + args, check=True)] can do. *)
Inductive cmd_result :=
  | Completed (stdout : string)
  | CalledProcessError
  | FileNotFoundError.

(** [brew_found]: the executable [brew] exists, otherwise starting it
    raises [FileNotFoundError] whatever the arguments.
    [brew_stdout args]: the standard output on exit status 0, [None] on a
    non-zero exit status.
    [http_json url]: the decoded body of [requests.get(url)], [None] when
    [get], [raise_for_status] or [json] raises a [RequestException]. *)
Record World := mkWorld {
  brew_found : bool;
  brew_stdout : list string → option string;
  http_json : string → option (list pkg_json)
}.

Definition subprocess_run (w : World) (args : list string) : cmd_result :=
  if brew_found w then
    match brew_stdout w args with
    | Some out => Completed out
    | None => CalledProcessError
    end
  else FileNotFoundError.

(** Exceptions that leave the analyzer. *)
Inductive exn :=
  | SystemExit (code : Z)
  | KeyError
  | ValueError
  | TypeError
  | AttributeError
  | UnicodeDecodeError.

(** External calls, as they are logged. *)
Inductive call :=
  | Brew (args : list string)
  | HttpGet (url : string).

Inductive outcome (A : Type) :=
  | Returns (a : A)
  | Raises (e : exn).
Arguments Returns {A} a.
Arguments Raises {A} e.

(** A computation takes the log of the calls made so far and gives its
    outcome and the extended log. *)
Definition Run (A : Type) : Type := list call → outcome A * list call.

Definition ret {A} (a : A) : Run A := λ log, (Returns a, log).

Definition bind {A B} (m : Run A) (k : A → Run B) : Run B :=
  λ log, match m log with
         | (Returns a, log') => k a log'
         | (Raises e, log') => (Raises e, log')
         end.

Definition raise {A} (e : exn) : Run A := λ log, (Raises e, log).

Definition emit (c : call) : Run unit := λ log, (Returns tt, log ++ [c]).

Notation "'do' x <- m ; k" := (bind m (λ x, k))
  (at level 10, x pattern, m at level 100, k at level 200).

(** [for x in l: s = body(s, x)] *)
Fixpoint for_each {A S} (body : S → A → Run S) (s : S) (l : list A) : Run S :=
  match l with
  | [] => ret s
  | x :: l' => do s' <- body s x; for_each body s' l'
  end.

(** ** Code shared by the two analyzers *)

(** [run_brew_command]: the stripped output; a failing command gives the
    empty string, a missing executable ends the process. *)
Definition run_brew_command (w : World) (args : list string) : Run string :=
  do _ <- emit (Brew args);
  match subprocess_run w args with
  | Completed out => ret (strip out)
  | CalledProcessError => ret ""
  | FileNotFoundError => raise (SystemExit 1)
  end.

(** [get_installed_packages] *)
Definition get_installed_packages (w : World) : Run (list (string * bool)) :=
  do packages_output <- run_brew_command w ["list"; "--formula"];
  let packages :=
    if nonempty packages_output then split_newline packages_output else [] in
  do casks_output <- run_brew_command w ["list"; "--cask"];
  let casks :=
    if nonempty casks_output then split_newline casks_output else [] in
  ret (map (λ pkg, (pkg, false)) (filter (λ pkg, nonempty pkg = true) packages)
       ++ map (λ cask, (cask, true)) (filter (λ cask, nonempty cask = true) casks)).

(** [reverse_dependencies[dep]] of a [defaultdict(set)], read without
    creating the entry. *)
Definition rev_lookup (rd : gmap string (gset string)) (dep : string) : gset string :=
  default ∅ (rd !! dep).

(** [reverse_dependencies[dep].add(pkg_name)] *)
Definition rev_add (pkg_name : string) (rd : gmap string (gset string)) (dep : string)
  : gmap string (gset string) :=
  <[dep := rev_lookup rd dep ∪ {[pkg_name]}]> rd.

(** The body of the loop of [build_reverse_dependencies] for one item. *)
Definition add_package (pkg_name : string) (pkg_info : PackageInfo)
    (rd : gmap string (gset string)) : gmap string (gset string) :=
  foldl (rev_add pkg_name)
        (foldl (rev_add pkg_name) rd (build_dependencies pkg_info))
        (runtime_dependencies pkg_info).

(** [build_reverse_dependencies], on the two attributes it touches. *)
Definition build_reverse_dependencies
    (packages : gmap string PackageInfo) (reverse_dependencies : gmap string (gset string))
  : gmap string (gset string) :=
  map_fold add_package reverse_dependencies packages.

Definition Present : string := "✅".
Definition Missing : string := "❌".

(** [check_dependency_status], on the attribute it reads. *)
Definition check_dependency_status (installed_packages : gset string) (dep_name : string)
  : string :=
  if decide (dep_name ∈ installed_packages) then Present else Missing.

(** [{pkg[key]: pkg for pkg in info_data}]: a later object replaces an
    earlier one with the same key; [None] is the [KeyError] of an object
    without the key. *)
Fixpoint index_by (key : pkg_json → option string) (info_data : list pkg_json)
    (acc : gmap string pkg_json) : option (gmap string pkg_json) :=
  match info_data with
  | [] => Some acc
  | pkg :: rest =>
      match key pkg with
      | Some k => index_by key rest (<[k := pkg]> acc)
      | None => None
      end
  end.

Definition no_description : string := "No description available".

(** The record both analyzers build for a formula from its JSON object. *)
Definition formula_info (package_name : string) (pkg_data : pkg_json) : PackageInfo :=
  {| name := package_name;
     description := get (j_desc pkg_data) no_description;
     url := get (j_homepage pkg_data) "";
     build_dependencies := get (j_build_dependencies pkg_data) [];
     runtime_dependencies := get (j_dependencies pkg_data) [];
     is_cask := false |}.

(** The record both analyzers build for a cask from its JSON object. *)
Definition cask_info (package_name : string) (pkg_data : pkg_json) : PackageInfo :=
  {| name := package_name;
     description := get (j_desc pkg_data) no_description;
     url := get (j_homepage pkg_data) "";
     build_dependencies := [];
     runtime_dependencies := [];
     is_cask := true |}.

(** ** brewinfo.py *)

Module BrewAnalyzer.

Record state := mk {
  packages : gmap string PackageInfo;
  reverse_dependencies : gmap string (gset string);
  installed_packages : gset string
}.

(** [__init__] *)
Definition init : state := mk ∅ ∅ ∅.

Definition set_packages (self : state) (v : gmap string PackageInfo) : state :=
  mk v (reverse_dependencies self) (installed_packages self).
Definition set_reverse_dependencies (self : state) (v : gmap string (gset string)) : state :=
  mk (packages self) v (installed_packages self).
Definition set_installed_packages (self : state) (v : gset string) : state :=
  mk (packages self) (reverse_dependencies self) v.

Section Methods.
Variable json_loads : string → option (list pkg_json).
Variable w : World.

Definition parse_brew_info (package_name : string) (is_cask : bool)
  : Run (option PackageInfo) :=
  let info_args :=
    ["info"; "--json"] ++ (if is_cask then ["--cask"] else []) ++ [package_name] in
  do info_output <- run_brew_command w info_args;
  if negb (nonempty info_output) then ret None
  else
    match json_loads info_output with
    | None => ret None
    | Some [] => ret None
    | Some (pkg_data :: _) =>
        if is_cask then ret (Some (cask_info package_name pkg_data))
        else ret (Some (formula_info package_name pkg_data))
    end.

(** The body of the loop over [installed_list]. *)
Definition analyze_one (self : state) (pkg : string * bool) : Run state :=
  let '(package_name, is_cask) := pkg in
  do pkg_info <- parse_brew_info package_name is_cask;
  match pkg_info with
  | Some info => ret (set_packages self (<[package_name := info]> (packages self)))
  | None => ret self
  end.

Definition analyze_packages (self : state) : Run state :=
  do installed_list <- get_installed_packages w;
  match installed_list with
  | [] => ret self
  | _ =>
      let self := set_installed_packages self (list_to_set (installed_list.*1)) in
      do self <- for_each analyze_one self installed_list;
      ret (set_reverse_dependencies self
             (build_reverse_dependencies (packages self) (reverse_dependencies self)))
  end.
End Methods.

End BrewAnalyzer.

(** ** brewinfo_optimized.py *)

(** The quotient rounded up. *)
Definition ceil_div (n b : nat) : nat := (n + b - 1) / b.

(** [range(0, stop, step)] for a positive [step]: 0, step, 2*step, ...
    below [stop], which are [ceil_div stop step] numbers. *)
Definition range0 (stop step : nat) : list nat :=
  map (λ k, k * step) (seq 0 (ceil_div stop step)).

(** [l[i : i + n]] *)
Definition slice {A} (l : list A) (i n : nat) : list A := take n (drop i l).

Module OptimizedBrewAnalyzer.

Record state := mk {
  packages : gmap string PackageInfo;
  reverse_dependencies : gmap string (gset string);
  installed_packages : gset string;
  use_api : bool;
  batch_size : Z;
  _api_cache : option (gmap string pkg_json * gmap string pkg_json)
}.

(** [__init__(use_api, batch_size)] *)
Definition init (use_api : bool) (batch_size : Z) : state :=
  mk ∅ ∅ ∅ use_api batch_size None.

Definition set_packages (self : state) (v : gmap string PackageInfo) : state :=
  mk v (reverse_dependencies self) (installed_packages self)
     (use_api self) (batch_size self) (_api_cache self).
Definition set_reverse_dependencies (self : state) (v : gmap string (gset string)) : state :=
  mk (packages self) v (installed_packages self)
     (use_api self) (batch_size self) (_api_cache self).
Definition set_installed_packages (self : state) (v : gset string) : state :=
  mk (packages self) (reverse_dependencies self) v
     (use_api self) (batch_size self) (_api_cache self).
Definition set_use_api (self : state) (v : bool) : state :=
  mk (packages self) (reverse_dependencies self) (installed_packages self)
     v (batch_size self) (_api_cache self).
Definition set_api_cache (self : state)
    (v : option (gmap string pkg_json * gmap string pkg_json)) : state :=
  mk (packages self) (reverse_dependencies self) (installed_packages self)
     (use_api self) (batch_size self) v.

Definition formula_url : string := "https://formulae.brew.sh/api/formula.json".
Definition cask_url : string := "https://formulae.brew.sh/api/cask.json".

(** [if pkg_info: self.packages[package_name] = pkg_info] *)
Definition store (self : state) (package_name : string) (pkg_info : option PackageInfo)
  : state :=
  match pkg_info with
  | Some info => set_packages self (<[package_name := info]> (packages self))
  | None => self
  end.

Section Methods.
Variable json_loads : string → option (list pkg_json).
Variable w : World.

(** [fetch_api_data]: the two manifests, both empty after a
    [RequestException]; an object without its key raises [KeyError],
    which is not caught. *)
Definition fetch_api_data (self : state)
  : Run (state * (gmap string pkg_json * gmap string pkg_json)) :=
  match _api_cache self with
  | Some cached => ret (self, cached)
  | None =>
      do _ <- emit (HttpGet formula_url);
      match http_json w formula_url with
      | None => ret (self, (∅, ∅))
      | Some formula_list =>
          match index_by j_name formula_list ∅ with
          | None => raise KeyError
          | Some formulas =>
              do _ <- emit (HttpGet cask_url);
              match http_json w cask_url with
              | None => ret (self, (∅, ∅))
              | Some cask_list =>
                  match index_by j_token cask_list ∅ with
                  | None => raise KeyError
                  | Some casks =>
                      ret (set_api_cache self (Some (formulas, casks)),
                           (formulas, casks))
                  end
              end
          end
      end
  end.

Definition parse_api_data (package_name : string) (is_cask : bool)
    (formulas casks : gmap string pkg_json) : option PackageInfo :=
  if is_cask then
    match casks !! package_name with
    | None => None
    | Some pkg_data => Some (cask_info package_name pkg_data)
    end
  else
    match formulas !! package_name with
    | None => None
    | Some pkg_data => Some (formula_info package_name pkg_data)
    end.

(** One of the two queries of [parse_brew_info_batch]: the results for
    [names], all of one kind. *)
Definition query_batch (flags : list string) (key : pkg_json → option string)
    (info : string → pkg_json → PackageInfo) (names : list string)
  : Run (list (option PackageInfo)) :=
  match names with
  | [] => ret []
  | _ =>
      do info_output <- run_brew_command w (["info"; "--json"] ++ flags ++ names);
      if nonempty info_output then
        match json_loads info_output with
        | None => ret (replicate (length names) None)
        | Some info_data =>
            match index_by key info_data ∅ with
            | None => ret (replicate (length names) None)
            | Some data =>
                ret (map (λ package_name,
                            match data !! package_name with
                            | Some pkg_data => Some (info package_name pkg_data)
                            | None => None
                            end) names)
            end
        end
      else ret (replicate (length names) None)
  end.

Definition parse_brew_info_batch (packages : list (string * bool))
  : Run (list (option PackageInfo)) :=
  match packages with
  | [] => ret []
  | _ =>
      let formulas := (filter (λ pkg, snd pkg = false) packages).*1 in
      let casks := (filter (λ pkg, snd pkg = true) packages).*1 in
      do formula_results <- query_batch [] j_name formula_info formulas;
      do cask_results <- query_batch ["--cask"] j_token cask_info casks;
      ret (formula_results ++ cask_results)
  end.

(** The branch [if self.use_api]. *)
Definition analyze_api (installed_list : list (string * bool)) (self : state)
  : Run state :=
  do (self, (formulas, casks)) <- fetch_api_data self;
  if bool_decide (formulas ≠ ∅) || bool_decide (casks ≠ ∅) then
    ret (foldl (λ self '(package_name, is_cask),
                  store self package_name
                    (parse_api_data package_name is_cask formulas casks))
               self installed_list)
  else ret (set_use_api self false).

(** The body of the loop over the batches. *)
Definition analyze_batch (installed_list : list (string * bool)) (b : nat)
    (self : state) (i : nat) : Run state :=
  let batch := slice installed_list i b in
  do batch_results <- parse_brew_info_batch batch;
  ret (foldl (λ self '((package_name, _), pkg_info), store self package_name pkg_info)
             self (zip batch batch_results)).

(** The branch [if not self.use_api]; [range] refuses a zero step and
    is empty for a negative one. *)
Definition analyze_cli (installed_list : list (string * bool)) (self : state)
  : Run state :=
  match batch_size self with
  | Z0 => raise ValueError
  | Zneg _ => ret self
  | Zpos p =>
      for_each (analyze_batch installed_list (Pos.to_nat p)) self
               (range0 (length installed_list) (Pos.to_nat p))
  end.

Definition analyze_packages (self : state) : Run state :=
  do installed_list <- get_installed_packages w;
  match installed_list with
  | [] => ret self
  | _ =>
      let self := set_installed_packages self (list_to_set (installed_list.*1)) in
      do self <- (if use_api self then analyze_api installed_list self else ret self);
      do self <- (if negb (use_api self) then analyze_cli installed_list self
                  else ret self);
      ret (set_reverse_dependencies self
             (build_reverse_dependencies (packages self) (reverse_dependencies self)))
  end.
End Methods.

End OptimizedBrewAnalyzer.

(** ** Vocabulary of the statements *)

(** [m] has outcome [o] and makes exactly the calls [calls], whatever was
    logged before. *)
Definition runs {A} (m : Run A) (o : outcome A) (calls : list call) : Prop :=
  ∀ log, m log = (o, log ++ calls).

(** [Q] holds of whatever [m] returns. *)
Definition post {A} (m : Run A) (Q : A → Prop) : Prop :=
  ∀ log a log', m log = (Returns a, log') → Q a.

(** What [run_brew_command] returns when [brew] can be started. *)
Definition brew_output (w : World) (args : list string) : string :=
  match brew_stdout w args with
  | Some out => strip out
  | None => ""
  end.

Definition listed (w : World) (flag : string) : list string :=
  let out := brew_output w ["list"; flag] in
  filter (λ pkg, nonempty pkg = true) (if nonempty out then split_newline out else []).

(** The installed list of a world: formulas, then casks. *)
Definition enumerate (fs cs : list string) : list (string * bool) :=
  map (λ pkg, (pkg, false)) fs ++ map (λ cask, (cask, true)) cs.

Definition installed_list (w : World) : list (string * bool) :=
  enumerate (listed w "--formula") (listed w "--cask").

(** The arguments of a metadata query of one kind. *)
Definition info_args (is_cask : bool) (names : list string) : list string :=
  ["info"; "--json"] ++ (if is_cask then ["--cask"] else []) ++ names.

(** The names of one kind in a list of identities. *)
Definition names_of (is_cask : bool) (l : list (string * bool)) : list string :=
  (filter (λ pkg, snd pkg = is_cask) l).*1.

(** Every formula precedes every cask. *)
Definition formulas_first (l : list (string * bool)) : Prop :=
  l = enumerate (names_of false l) (names_of true l).

(** [self.packages[n] = info] for the entries that carry a record, in
    order. *)
Definition put (m : gmap string PackageInfo) (entry : string * option PackageInfo)
  : gmap string PackageInfo :=
  match entry.2 with
  | Some info => <[entry.1 := info]> m
  | None => m
  end.

(** A result belongs to the identity it is paired with. *)
Definition own (pkg : string * bool) (r : option PackageInfo) : Prop :=
  match r with
  | None => True
  | Some info => name info = pkg.1 ∧ is_cask info = pkg.2
  end.

(** The batches of a list: [l[0:b]], [l[b:2b]], ... *)
Definition batches {A} (b : nat) (l : list A) : list (list A) :=
  map (λ i, slice l i b) (range0 (length l) b).

(** What distinguishes the query of a kind: the flag, the key that names
    an object, the record built from it. *)
Definition kind_flags (is_cask : bool) : list string :=
  if is_cask then ["--cask"] else [].
Definition kind_key (is_cask : bool) : pkg_json → option string :=
  if is_cask then j_token else j_name.
Definition kind_info (is_cask : bool) : string → pkg_json → PackageInfo :=
  if is_cask then cask_info else formula_info.

Section Results.
Variable json_loads : string → option (list pkg_json).
Variable w : World.

(** What [parse_brew_info] returns when [brew] can be started. *)
Definition single_result (package_name : string) (is_cask : bool) : option PackageInfo :=
  let out := brew_output w (info_args is_cask [package_name]) in
  if nonempty out then
    match json_loads out with
    | Some (pkg_data :: _) => Some (kind_info is_cask package_name pkg_data)
    | _ => None
    end
  else None.

(** The response to the query of a batch is empty or cannot be decoded. *)
Definition response_failed (is_cask : bool) (names : list string) : Prop :=
  brew_output w (info_args is_cask names) = "" ∨
  json_loads (brew_output w (info_args is_cask names)) = None.


(** The index of the response to the query of a batch, if there is one. *)
Definition batch_data (is_cask : bool) (names : list string)
  : option (gmap string pkg_json) :=
  let out := brew_output w (info_args is_cask names) in
  if nonempty out then
    match json_loads out with
    | Some info_data => index_by (kind_key is_cask) info_data ∅
    | None => None
    end
  else None.

(** The result for one name of a batch. *)
Definition batch_result (is_cask : bool) (names : list string) (package_name : string)
  : option PackageInfo :=
  match batch_data is_cask names with
  | Some data => kind_info is_cask package_name <$> data !! package_name
  | None => None
  end.

(** What [parse_brew_info_batch] returns when [brew] can be started. *)
Definition batch_results (batch : list (string * bool)) : list (option PackageInfo) :=
  map (batch_result false (names_of false batch)) (names_of false batch)
  ++ map (batch_result true (names_of true batch)) (names_of true batch).
End Results.

(** The queries a batch gives rise to: one per kind present. *)
Definition query_of (is_cask : bool) (batch : list (string * bool))
  : list (bool * list string) :=
  match names_of is_cask batch with
  | [] => []
  | names => [(is_cask, names)]
  end.

Definition batch_queries (batch : list (string * bool)) : list (bool * list string) :=
  query_of false batch ++ query_of true batch.

Definition issued_queries (b : nat) (l : list (string * bool)) : list (bool * list string) :=
  concat (map batch_queries (batches b l)).

Definition query_call (q : bool * list string) : call := Brew (info_args q.1 q.2).

(** The names asked for in the queries of one kind, in order. *)
Definition asked (is_cask : bool) (qs : list (bool * list string)) : list string :=
  concat (filter (λ q, q.1 = is_cask) qs).*2.

Section Outcomes.
Variable json_loads : string → option (list pkg_json).
Variable w : World.

(** The catalog entry [analyze_packages] of brewinfo.py makes for an
    identity. *)
Definition single_entry (pkg : string * bool) : string * option PackageInfo :=
  (pkg.1, single_result json_loads w pkg.1 pkg.2).

(** The state [analyze_packages] of brewinfo.py returns. *)
Definition analyzed (self : BrewAnalyzer.state) : BrewAnalyzer.state :=
  match installed_list w with
  | [] => self
  | l =>
      let catalog := foldl put (BrewAnalyzer.packages self) (single_entry <$> l) in
      BrewAnalyzer.mk catalog
        (build_reverse_dependencies catalog (BrewAnalyzer.reverse_dependencies self))
        (list_to_set (l.*1))
  end.

(** The names of a batch paired with its results, as [zip] pairs them. *)
Definition batch_entries (batch : list (string * bool))
  : list (string * option PackageInfo) :=
  zip (batch.*1) (batch_results json_loads w batch).

(** The entries a batch run puts into the catalog, in order. *)
Definition cli_entries (b : nat) (l : list (string * bool))
  : list (string * option PackageInfo) :=
  concat (batch_entries <$> batches b l).

(** The entry of an identity of a batch: the result of its name in the
    query of its kind. *)
Definition entry_of (batch : list (string * bool)) (pkg : string * bool)
  : string * option PackageInfo :=
  (pkg.1, batch_result json_loads w pkg.2 (names_of pkg.2 batch) pkg.1).

End Outcomes.

(** The outcome of [m] and the calls it makes do not depend on the log. *)
Definition traced {A} (m : Run A) : Prop := ∃ o calls, runs m o calls.

(** A cask record carries no dependencies. *)
Definition cask_bare (info : PackageInfo) : Prop :=
  is_cask info = true → build_dependencies info = [] ∧ runtime_dependencies info = [].

(** A result is a record of the requested name and kind, bare if a cask. *)
Definition sound (pkg : string * bool) (r : option PackageInfo) : Prop :=
  own pkg r ∧ ∀ info, r = Some info → cask_bare info.

(** Every record of a catalog is stored under its own name and is bare if
    it is a cask. *)
Definition catalog_ok (m : gmap string PackageInfo) : Prop :=
  ∀ n info, m !! n = Some info → name info = n ∧ cask_bare info.

(** One more query than batches: a batch holds identities of both kinds
    when the formulas do not fill their last batch and there are casks. *)
Definition straddles (b nf nc : nat) : nat :=
  if ((0 <? nf mod b) && (0 <? nc))%nat then 1 else 0.

(** ** Example worlds *)

(** A world that answers every query with the objects of [batch], each
    under its name as [name] and as [token]. *)
Definition echo_world : World := mkWorld true (λ _, Some "x") (λ _, None).

Definition echo_object (pkg : string * bool) : pkg_json :=
  mkPkgJson (Some pkg.1) (Some pkg.1) None None None None.

Definition echo_loads (batch : list (string * bool)) (_ : string)
  : option (list pkg_json) :=
  Some (echo_object <$> batch).

Definition pkg_object (n : string) (deps : list string) : pkg_json :=
  mkPkgJson (Some n) (Some n) (Some "d") (Some "h") (Some []) (Some deps).

(** A decoder for the documents of the examples. *)
Definition example_loads (s : string) : option (list pkg_json) :=
  if String.eqb s "A" then Some [pkg_object "a" ["b"]]
  else if String.eqb s "C" then Some [pkg_object "c" []]
  else if String.eqb s "X" then Some [pkg_object "x" ["y"]]
  else if String.eqb s "T" then Some [pkg_object "x" ["z"]]
  else None.

(** Formulas [a] and [b], cask [c]; the query for [b] fails; no network. *)
Definition example_world : World :=
  mkWorld true
    (λ args, match args with
             | ["list"; "--formula"] => Some (String.append "a" (String newline "b"))
             | ["list"; "--cask"] => Some "c"
             | ["info"; "--json"; "a"] => Some "A"
             | ["info"; "--json"; "--cask"; "c"] => Some "C"
             | _ => None
             end)
    (λ _, None).

(** The name [x] is installed as a formula and as a cask; both resolve. *)
Definition twin_world : World :=
  mkWorld true
    (λ args, match args with
             | ["list"; "--formula"] => Some "x"
             | ["list"; "--cask"] => Some "x"
             | ["info"; "--json"; "x"] => Some "X"
             | ["info"; "--json"; "--cask"; "x"] => Some "T"
             | _ => None
             end)
    (λ _, None).

(** ** Formatting and statistics *)

(** [sep.join(l)] *)
Fixpoint join (sep : string) (l : list string) : string :=
  match l with
  | [] => ""
  | [x] => x
  | x :: rest => String.append x (String.append sep (join sep rest))
  end.

(** [format_dependencies] (the same in both files), on the attribute it
    reads. *)
Definition format_dependencies (installed_packages : gset string)
    (dependencies : list string) : string :=
  match dependencies with
  | [] => ""
  | _ =>
      join ", "
        (map (λ dep, String.append (check_dependency_status installed_packages dep)
                       (String.append " " dep))
             dependencies)
  end.

(** The numbers [print_summary] prints (the same in both files). *)
Record summary := mkSummary {
  total_packages : nat;
  formula_count : Z;
  cask_count : nat;
  total_build_deps : nat;
  total_runtime_deps : nat
}.

(** [sum(f(pkg) for pkg in self.packages.values())] *)
Definition sum_values (f : PackageInfo → nat) (packages : gmap string PackageInfo) : nat :=
  map_fold (λ _ pkg acc, f pkg + acc) 0 packages.

Definition print_summary (packages : gmap string PackageInfo) : summary :=
  let total_packages := size packages in
  let cask_count := sum_values (λ pkg, if is_cask pkg then 1 else 0) packages in
  {| total_packages := total_packages;
     formula_count := Z.of_nat total_packages - Z.of_nat cask_count;
     cask_count := cask_count;
     total_build_deps := sum_values (λ pkg, length (build_dependencies pkg)) packages;
     total_runtime_deps := sum_values (λ pkg, length (runtime_dependencies pkg)) packages |}.

(** ** More vocabulary *)

(** The characters of a string. *)
Fixpoint chars (s : string) : list ascii :=
  match s with
  | EmptyString => []
  | String a s' => a :: chars s'
  end.

(** The last object of a response that carries the key [n]. *)
Definition last_keyed (key : pkg_json → option string) (n : string)
    (info_data : list pkg_json) : option pkg_json :=
  last (filter (λ o, key o = Some n) info_data).

(** Every record of the catalog is stored under its own name and belongs
    to an identity of the list. *)
Definition catalog_from (l : list (string * bool)) (m : gmap string PackageInfo) : Prop :=
  ∀ n info, m !! n = Some info → name info = n ∧ (n, is_cask info) ∈ l.

(** No entry of an index is empty. *)
Definition no_empty_entry (rd : gmap string (gset string)) : Prop :=
  ∀ D S, rd !! D = Some S → S ≠ ∅.

(** What the loops of [analyze_packages] keep of an analyzer that started
    fresh: the catalog comes from the list, the index is still empty, the
    installed names are those of the list. *)
Definition resolving (l : list (string * bool)) (packages : gmap string PackageInfo)
    (reverse_dependencies : gmap string (gset string)) (installed_packages : gset string)
  : Prop :=
  catalog_from l packages ∧ reverse_dependencies = ∅ ∧
  installed_packages = list_to_set l.*1.

Definition resolving_basic (l : list (string * bool)) (s : BrewAnalyzer.state) : Prop :=
  resolving l (BrewAnalyzer.packages s) (BrewAnalyzer.reverse_dependencies s)
    (BrewAnalyzer.installed_packages s).

Definition resolving_optimized (l : list (string * bool))
    (s : OptimizedBrewAnalyzer.state) : Prop :=
  resolving l (OptimizedBrewAnalyzer.packages s)
    (OptimizedBrewAnalyzer.reverse_dependencies s)
    (OptimizedBrewAnalyzer.installed_packages s).

(** What [analyze_packages] returns on an analyzer that started fresh. *)
Definition resolved (l : list (string * bool)) (packages : gmap string PackageInfo)
    (reverse_dependencies : gmap string (gset string)) (installed_packages : gset string)
  : Prop :=
  catalog_from l packages ∧
  reverse_dependencies = build_reverse_dependencies packages ∅ ∧
  (packages = ∅ ∨ installed_packages = list_to_set l.*1).

Definition resolved_basic (l : list (string * bool)) (s : BrewAnalyzer.state) : Prop :=
  resolved l (BrewAnalyzer.packages s) (BrewAnalyzer.reverse_dependencies s)
    (BrewAnalyzer.installed_packages s).

Definition resolved_optimized (l : list (string * bool))
    (s : OptimizedBrewAnalyzer.state) : Prop :=
  resolved l (OptimizedBrewAnalyzer.packages s)
    (OptimizedBrewAnalyzer.reverse_dependencies s)
    (OptimizedBrewAnalyzer.installed_packages s).

(** A world that answers the metadata queries about its installed
    packages from one table: the query for [names] of a kind, taken from
    the installed names of that kind, prints something that decodes to the
    objects the table has for these names, in order; and every object of
    the table is keyed by its name. *)
Definition coherent (json_loads : string → option (list pkg_json)) (w : World)
    (db : bool → string → option pkg_json) : Prop :=
  (∀ k n o, db k n = Some o → kind_key k o = Some n) ∧
  (∀ k names, names ≠ [] → names `sublist_of` names_of k (installed_list w) →
     nonempty (brew_output w (info_args k names)) = true ∧
     json_loads (brew_output w (info_args k names)) = Some (omap (db k) names)).

(** A table and a world coherent with it, for the examples: formulas [a]
    and [b], cask [c]; [b] is not in the table. *)
Definition table (k : bool) (n : string) : option pkg_json :=
  if k then (if String.eqb n "c" then Some (pkg_object "c" ["z"]) else None)
  else if String.eqb n "a" then Some (pkg_object "a" ["b"])
  else None.

Definition table_loads (s : string) : option (list pkg_json) :=
  if String.eqb s "A" then Some [pkg_object "a" ["b"]]
  else if String.eqb s "C" then Some [pkg_object "c" ["z"]]
  else if String.eqb s "N" then Some []
  else None.

Definition table_world : World :=
  mkWorld true
    (λ args, match args with
             | ["list"; "--formula"] => Some (String.append "a" (String newline "b"))
             | ["list"; "--cask"] => Some "c"
             | ["info"; "--json"; "a"] => Some "A"
             | ["info"; "--json"; "b"] => Some "N"
             | ["info"; "--json"; "a"; "b"] => Some "A"
             | ["info"; "--json"; "--cask"; "c"] => Some "C"
             | _ => None
             end)
    (λ _, None).

(** A world whose API answers: one formula [a] and one cask [c] in the
    manifests, [a], [b] and [c] installed, no metadata from [brew]. *)
Definition api_world : World :=
  mkWorld true
    (λ args, match args with
             | ["list"; "--formula"] => Some (String.append "a" (String newline "b"))
             | ["list"; "--cask"] => Some "c"
             | _ => None
             end)
    (λ url, if String.eqb url OptimizedBrewAnalyzer.formula_url
            then Some [pkg_object "a" ["b"]]
            else Some [pkg_object "c" ["z"]]).

(** A world in which nothing is installed: both listings fail. *)
Definition bare_world : World := mkWorld true (λ _, None) (λ _, Some [pkg_object "a" []]).

(** A world whose formula manifest holds an object without a name. *)
Definition broken_api_world : World :=
  mkWorld true
    (λ args, match args with
             | ["list"; "--formula"] => Some "a"
             | _ => None
             end)
    (λ _, Some [mkPkgJson None None None None None None]).

(** The number of (dependency, dependent) pairs an index holds. *)
Definition index_size (rd : gmap string (gset string)) : nat :=
  map_fold (λ _ S acc, size S + acc) 0 rd.

(** The record the last entry of the name [n] carries, if any entry of
    that name carries one. *)
Definition last_write (n : string) (entries : list (string * option PackageInfo))
  : option PackageInfo :=
  last (omap (λ e, if decide (e.1 = n) then e.2 else None) entries).

(** The state a batch run of the optimized analyzer returns. *)
Definition analyzed_cli (json_loads : string → option (list pkg_json)) (w : World)
    (b : nat) (self : OptimizedBrewAnalyzer.state) : OptimizedBrewAnalyzer.state :=
  match installed_list w with
  | [] => self
  | l =>
      let catalog :=
        foldl put (OptimizedBrewAnalyzer.packages self) (cli_entries json_loads w b l) in
      OptimizedBrewAnalyzer.mk catalog
        (build_reverse_dependencies catalog
           (OptimizedBrewAnalyzer.reverse_dependencies self))
        (list_to_set (l.*1))
        (OptimizedBrewAnalyzer.use_api self)
        (OptimizedBrewAnalyzer.batch_size self)
        (OptimizedBrewAnalyzer._api_cache self)
  end.

(** A world whose API answers with two empty manifests. *)
Definition empty_api_world : World :=
  mkWorld true (brew_stdout example_world) (λ _, Some []).

(** A result carries the name of the identity it is paired with. *)
Definition named (pkg : string * bool) (r : option PackageInfo) : Prop :=
  ∀ info, r = Some info → name info = pkg.1.

(** The names of a request list are those of its formulas followed by
    those of its casks. *)
Definition names_by_kind (l : list (string * bool)) : Prop :=
  l.*1 = names_of false l ++ names_of true l.

(** The name [x] is installed as a formula and as a cask; the metadata
    query for the formula fails, the one for the cask answers. *)
Definition half_twin_world : World :=
  mkWorld true
    (λ args, match args with
             | ["list"; "--formula"] => Some "x"
             | ["list"; "--cask"] => Some "x"
             | ["info"; "--json"; "--cask"; "x"] => Some "T"
             | _ => None
             end)
    (λ _, None).



(** ** brewinfo.py on any decoded document *)

(** The embedding above reads decoded responses at the types of brew's
    JSON interface.  [json.loads] returns whatever the text denotes, and
    [subprocess.run] fails on output that is not text.  The module [Raw]
    embeds the resolution of brewinfo.py again without these two
    restrictions: a decoded document is any JSON value, and a command can
    print what the locale's encoding cannot decode. *)
Module Raw.

(** A decoded JSON document.  Of a number the code only ever tests
    whether it is zero; an object lists its members in document order. *)
#[warnings="-register-all"] Inductive json :=
  | JNull
  | JBool (b : bool)
  | JNumber (nonzero : bool)
  | JString (s : string)
  | JArray (items : list json)
  | JObject (members : list (string * json)).

(** Truth value of a decoded document: [if info_data]. *)
Definition truthy (v : json) : bool :=
  match v with
  | JNull => false
  | JBool b => b
  | JNumber nonzero => nonzero
  | JString s => nonempty s
  | JArray items => match items with [] => false | _ => true end
  | JObject members => match members with [] => false | _ => true end
  end.

(** [d.get(key)] on the dict of an object: of two members with the same
    key [json.loads] keeps the later one. *)
Fixpoint dict_get (members : list (string * json)) (key : string) : option json :=
  match members with
  | [] => None
  | (k, v) :: rest =>
      match dict_get rest key with
      | Some v' => Some v'
      | None => if String.eqb k key then Some v else None
      end
  end.

(** What [info_data[0]] does. *)
Inductive item :=
  | Item (v : json)
  | LookupError        (* [IndexError] of an empty sequence, [KeyError] of a dict *)
  | NotSubscriptable.  (* [TypeError] of a number, a boolean or [None] *)

Definition getitem0 (info_data : json) : item :=
  match info_data with
  | JArray (x :: _) => Item x
  | JArray [] => LookupError
  | JString (String a _) => Item (JString (String a EmptyString))
  | JString EmptyString => LookupError
  | JObject _ => LookupError
  | JNull | JBool _ | JNumber _ => NotSubscriptable
  end.

(** [PackageInfo]: the dataclass checks no type, so a field holds
    whatever the object held under the key. *)
Record PackageInfo := mkPackageInfo {
  name : string;
  description : json;
  url : json;
  build_dependencies : json;
  runtime_dependencies : json;
  is_cask : bool
}.

(** What a [brew] process does once it has started. *)
Inductive completed :=
  | Output (stdout : string)   (* exit status 0 *)
  | Failed                     (* another exit status *)
  | Undecodable.               (* output that is not text in the locale's encoding *)

Record World := mkWorld {
  brew_found : bool;
  brew_run : list string → completed
}.

(** [run_brew_command]: [subprocess.run(..., text=True, check=True)]
    decodes the output before it looks at the exit status, and
    [UnicodeDecodeError] is none of the two exceptions caught. *)
Definition run_brew_command (w : World) (args : list string) : Run string :=
  do _ <- emit (Brew args);
  if brew_found w then
    match brew_run w args with
    | Output out => ret (strip out)
    | Failed => ret ""
    | Undecodable => raise UnicodeDecodeError
    end
  else raise (SystemExit 1).

Definition get_installed_packages (w : World) : Run (list (string * bool)) :=
  do packages_output <- run_brew_command w ["list"; "--formula"];
  let packages :=
    if nonempty packages_output then split_newline packages_output else [] in
  do casks_output <- run_brew_command w ["list"; "--cask"];
  let casks :=
    if nonempty casks_output then split_newline casks_output else [] in
  ret (map (λ pkg, (pkg, false)) (filter (λ pkg, nonempty pkg = true) packages)
       ++ map (λ cask, (cask, true)) (filter (λ cask, nonempty cask = true) casks)).

Record state (index : Type) := mk {
  packages : gmap string PackageInfo;
  reverse_dependencies : index;
  installed_packages : gset string
}.
Arguments mk {index} _ _ _.
Arguments packages {index} _.
Arguments reverse_dependencies {index} _.
Arguments installed_packages {index} _.

Section Methods.
(** [json.loads]: [None] is [JSONDecodeError]. *)
Variable json_loads : string → option json.
Variable w : World.
(** The reverse index and [build_reverse_dependencies], which runs after
    the loop of [analyze_packages]: what it does with fields that are no
    lists of strings is left open. *)
Variable index : Type.
Variable build_reverse_dependencies : state index → Run (state index).

Definition parse_brew_info (package_name : string) (is_cask : bool)
  : Run (option PackageInfo) :=
  let info_args :=
    ["info"; "--json"] ++ (if is_cask then ["--cask"] else []) ++ [package_name] in
  do info_output <- run_brew_command w info_args;
  if negb (nonempty info_output) then ret None
  else
    match json_loads info_output with
    | None => ret None
    | Some info_data =>
        if negb (truthy info_data) then ret None
        else
          match getitem0 info_data with
          | LookupError => ret None
          | NotSubscriptable => raise TypeError
          | Item (JObject pkg_data) =>
              let description :=
                default (JString no_description) (dict_get pkg_data "desc") in
              let url := default (JString "") (dict_get pkg_data "homepage") in
              if is_cask then
                ret (Some (mkPackageInfo package_name description url
                             (JArray []) (JArray []) true))
              else
                ret (Some (mkPackageInfo package_name description url
                             (default (JArray []) (dict_get pkg_data "build_dependencies"))
                             (default (JArray []) (dict_get pkg_data "dependencies"))
                             false))
          | Item _ => raise AttributeError
          end
    end.

Definition analyze_one (self : state index) (pkg : string * bool) : Run (state index) :=
  let '(package_name, is_cask) := pkg in
  do pkg_info <- parse_brew_info package_name is_cask;
  match pkg_info with
  | Some info =>
      ret (mk (<[package_name := info]> (packages self)) (reverse_dependencies self)
              (installed_packages self))
  | None => ret self
  end.

Definition analyze_packages (self : state index) : Run (state index) :=
  do installed_list <- get_installed_packages w;
  match installed_list with
  | [] => ret self
  | _ =>
      let self :=
        mk (packages self) (reverse_dependencies self)
           (list_to_set (installed_list.*1)) in
      do self <- for_each analyze_one self installed_list;
      build_reverse_dependencies self
  end.
End Methods.

(** The exception a decoded response makes [parse_brew_info] raise. *)
Definition uncaught (info_data : json) : option exn :=
  match info_data with
  | JBool true | JNumber true => Some TypeError
  | JString (String _ _) => Some AttributeError
  | JArray (JObject _ :: _) => None
  | JArray (_ :: _) => Some AttributeError
  | _ => None
  end.

(** The text [run_brew_command] returns for a command, if it returns. *)
Definition brew_output (w : World) (args : list string) : option string :=
  match brew_run w args with
  | Output out => Some (strip out)
  | Failed => Some ""
  | Undecodable => None
  end.

(** The metadata query for an identity ends the run: its output cannot
    be decoded, or it is JSON of a shape on which the code raises. *)
Definition query_fatal (json_loads : string → option json) (w : World)
    (package_name : string) (is_cask : bool) (e : exn) : Prop :=
  match brew_output w (info_args is_cask [package_name]) with
  | None => e = UnicodeDecodeError
  | Some out =>
      out ≠ "" ∧ ∃ info_data, json_loads out = Some info_data ∧
                              uncaught info_data = Some e
  end.

Definition listed (w : World) (flag : string) : option (list string) :=
  match brew_output w ["list"; flag] with
  | Some out =>
      Some (filter (λ pkg, nonempty pkg = true)
              (if nonempty out then split_newline out else []))
  | None => None
  end.

(** The installed list, when both listings can be decoded. *)
Definition installed_list (w : World) : option (list (string * bool)) :=
  match listed w "--formula", listed w "--cask" with
  | Some fs, Some cs => Some (enumerate fs cs)
  | _, _ => None
  end.

(** Formula [a] is installed and its metadata query does [response]. *)
Definition failing_world (response : completed) : World :=
  mkWorld true
    (λ args, match args with
             | ["list"; "--formula"] => Output "a"
             | ["info"; "--json"; "a"] => response
             | _ => Failed
             end).

(** A decoder for the documents [5] and [[5]]. *)
Definition failing_loads (s : string) : option json :=
  if String.eqb s "5" then Some (JNumber true)
  else if String.eqb s "[5]" then Some (JArray [JNumber true])
  else None.

End Raw.

(** [f] applied to what a computation returns. *)
Definition outcome_map {A B} (f : A → B) (o : outcome A) : outcome B :=
  match o with
  | Returns a => Returns (f a)
  | Raises e => Raises e
  end.

(** A typed world and a typed decoder as raw ones. *)
Definition of_world (w : World) : Raw.World :=
  Raw.mkWorld (brew_found w)
    (λ args, match brew_stdout w args with Some out => Raw.Output out | None => Raw.Failed end).

Definition member {A} (key : string) (inj : A → Raw.json) (field : option A)
  : list (string * Raw.json) :=
  match field with Some x => [(key, inj x)] | None => [] end.

Definition of_object (o : pkg_json) : Raw.json :=
  Raw.JObject (member "name" Raw.JString (j_name o) ++ member "token" Raw.JString (j_token o)
           ++ member "desc" Raw.JString (j_desc o) ++ member "homepage" Raw.JString (j_homepage o)
           ++ member "build_dependencies" (λ l, Raw.JArray (Raw.JString <$> l))
                (j_build_dependencies o)
           ++ member "dependencies" (λ l, Raw.JArray (Raw.JString <$> l)) (j_dependencies o)).

Definition of_loads (json_loads : string → option (list pkg_json)) (s : string)
  : option Raw.json :=
  (λ l, Raw.JArray (of_object <$> l)) <$> json_loads s.

Definition of_info (info : PackageInfo) : Raw.PackageInfo :=
  Raw.mkPackageInfo (name info) (Raw.JString (description info))
    (Raw.JString (url info))
    (Raw.JArray (Raw.JString <$> build_dependencies info))
    (Raw.JArray (Raw.JString <$> runtime_dependencies info)) (is_cask info).


(** ** The two analyzers with the order of their containers *)

(** A Python [dict] keeps its items in insertion order, and the order in
    which a [set] holds its elements depends on their hashes, which differ
    from one process to the next.  The module [Ordered] embeds the state
    of the two analyzers again with that order: a dict is the list of its
    items, and a set is a list whose order after an addition is given by
    a parameter [layout]. *)
Module Ordered.

Definition dict (V : Type) : Type := list (string * V).

(** [d[key] = v]: the value of an existing key is replaced in place, a
    new key is appended. *)
Fixpoint setitem {V} (d : dict V) (key : string) (v : V) : dict V :=
  match d with
  | [] => [(key, v)]
  | (k, v') :: d' =>
      if String.eqb k key then (k, v) :: d' else (k, v') :: setitem d' key v
  end.

(** [d.get(key)] *)
Fixpoint getitem {V} (d : dict V) (key : string) : option V :=
  match d with
  | [] => None
  | (k, v) :: d' => if String.eqb k key then Some v else getitem d' key
  end.

(** [s.add(x)]: nothing changes when [x] is a member; otherwise the
    elements are laid out anew. *)
Definition set_add (layout : list string → string → list string) (s : list string)
    (x : string) : list string :=
  if bool_decide (x ∈ s) then s else layout s x.

Section Index.
Variable layout : list string → string → list string.

(** [reverse_dependencies[dep].add(pkg_name)]: the [defaultdict] appends
    an entry with the empty set when [dep] is a new key. *)
Definition rev_add (pkg_name : string) (rd : dict (list string)) (dep : string)
  : dict (list string) :=
  setitem rd dep (set_add layout (default [] (getitem rd dep)) pkg_name).

Definition add_package (pkg_name : string) (pkg_info : PackageInfo)
    (rd : dict (list string)) : dict (list string) :=
  foldl (rev_add pkg_name)
        (foldl (rev_add pkg_name) rd (build_dependencies pkg_info))
        (runtime_dependencies pkg_info).

(** [build_reverse_dependencies]: [self.packages.items()] is gone
    through in insertion order. *)
Definition build_reverse_dependencies (packages : dict PackageInfo)
    (reverse_dependencies : dict (list string)) : dict (list string) :=
  foldl (λ rd '(pkg_name, pkg_info), add_package pkg_name pkg_info rd)
        reverse_dependencies packages.

(** [{pkg[0] for pkg in installed_list}] *)
Definition set_of (names : list string) : list string :=
  foldl (set_add layout) [] names.
End Index.

(** brewinfo.py *)
Module Basic.

Record state := mk {
  packages : dict PackageInfo;
  reverse_dependencies : dict (list string);
  installed_packages : list string
}.

Definition init : state := mk [] [] [].

Section Methods.
Variable layout : list string → string → list string.
Variable json_loads : string → option (list pkg_json).
Variable w : World.

Definition analyze_one (self : state) (pkg : string * bool) : Run state :=
  let '(package_name, is_cask) := pkg in
  do pkg_info <- BrewAnalyzer.parse_brew_info json_loads w package_name is_cask;
  match pkg_info with
  | Some info =>
      ret (mk (setitem (packages self) package_name info) (reverse_dependencies self)
              (installed_packages self))
  | None => ret self
  end.

Definition analyze_packages (self : state) : Run state :=
  do installed_list <- get_installed_packages w;
  match installed_list with
  | [] => ret self
  | _ =>
      let self :=
        mk (packages self) (reverse_dependencies self)
           (set_of layout (installed_list.*1)) in
      do self <- for_each analyze_one self installed_list;
      ret (mk (packages self)
              (build_reverse_dependencies layout (packages self)
                 (reverse_dependencies self))
              (installed_packages self))
  end.
End Methods.

End Basic.

(** brewinfo_optimized.py.  The manifests and the index of a batch
    response are only ever looked up by key, so they stay finite maps. *)
Module Optimized.

Record state := mk {
  packages : dict PackageInfo;
  reverse_dependencies : dict (list string);
  installed_packages : list string;
  use_api : bool;
  batch_size : Z;
  _api_cache : option (gmap string pkg_json * gmap string pkg_json)
}.

Definition init (use_api : bool) (batch_size : Z) : state :=
  mk [] [] [] use_api batch_size None.

Definition store (self : state) (package_name : string) (pkg_info : option PackageInfo)
  : state :=
  match pkg_info with
  | Some info =>
      mk (setitem (packages self) package_name info) (reverse_dependencies self)
         (installed_packages self) (use_api self) (batch_size self) (_api_cache self)
  | None => self
  end.

Section Methods.
Variable layout : list string → string → list string.
Variable json_loads : string → option (list pkg_json).
Variable w : World.

Definition fetch_api_data (self : state)
  : Run (state * (gmap string pkg_json * gmap string pkg_json)) :=
  match _api_cache self with
  | Some cached => ret (self, cached)
  | None =>
      do _ <- emit (HttpGet OptimizedBrewAnalyzer.formula_url);
      match http_json w OptimizedBrewAnalyzer.formula_url with
      | None => ret (self, (∅, ∅))
      | Some formula_list =>
          match index_by j_name formula_list ∅ with
          | None => raise KeyError
          | Some formulas =>
              do _ <- emit (HttpGet OptimizedBrewAnalyzer.cask_url);
              match http_json w OptimizedBrewAnalyzer.cask_url with
              | None => ret (self, (∅, ∅))
              | Some cask_list =>
                  match index_by j_token cask_list ∅ with
                  | None => raise KeyError
                  | Some casks =>
                      ret (mk (packages self) (reverse_dependencies self)
                              (installed_packages self) (use_api self) (batch_size self)
                              (Some (formulas, casks)),
                           (formulas, casks))
                  end
              end
          end
      end
  end.

Definition analyze_api (installed_list : list (string * bool)) (self : state)
  : Run state :=
  do (self, (formulas, casks)) <- fetch_api_data self;
  if bool_decide (formulas ≠ ∅) || bool_decide (casks ≠ ∅) then
    ret (foldl (λ self '(package_name, is_cask),
                  store self package_name
                    (OptimizedBrewAnalyzer.parse_api_data package_name is_cask
                       formulas casks))
               self installed_list)
  else ret (mk (packages self) (reverse_dependencies self) (installed_packages self)
               false (batch_size self) (_api_cache self)).

Definition analyze_batch (installed_list : list (string * bool)) (b : nat)
    (self : state) (i : nat) : Run state :=
  let batch := slice installed_list i b in
  do batch_results <- OptimizedBrewAnalyzer.parse_brew_info_batch json_loads w batch;
  ret (foldl (λ self '((package_name, _), pkg_info), store self package_name pkg_info)
             self (zip batch batch_results)).

Definition analyze_cli (installed_list : list (string * bool)) (self : state)
  : Run state :=
  match batch_size self with
  | Z0 => raise ValueError
  | Zneg _ => ret self
  | Zpos p =>
      for_each (analyze_batch installed_list (Pos.to_nat p)) self
               (range0 (length installed_list) (Pos.to_nat p))
  end.

Definition analyze_packages (self : state) : Run state :=
  do installed_list <- get_installed_packages w;
  match installed_list with
  | [] => ret self
  | _ =>
      let self :=
        mk (packages self) (reverse_dependencies self)
           (set_of layout (installed_list.*1))
           (use_api self) (batch_size self) (_api_cache self) in
      do self <- (if use_api self then analyze_api installed_list self else ret self);
      do self <- (if negb (use_api self) then analyze_cli installed_list self
                  else ret self);
      ret (mk (packages self)
              (build_reverse_dependencies layout (packages self)
                 (reverse_dependencies self))
              (installed_packages self) (use_api self) (batch_size self)
              (_api_cache self))
  end.
End Methods.

End Optimized.

(** A layout only arranges: after the addition the set holds the new
    element and the old ones. *)
Definition arranges (layout : list string → string → list string) : Prop :=
  ∀ s x, layout s x ≡ₚ x :: s.

(** Two layouts for the examples. *)
Definition in_front (s : list string) (x : string) : list string := x :: s.
Definition at_the_end (s : list string) (x : string) : list string := s ++ [x].

End Ordered.

(** What Python's [==] compares: a dict as a finite map, a set as a
    finite set. *)
Definition view_index (rd : Ordered.dict (list string)) : gmap string (gset string) :=
  list_to_set <$> (list_to_map rd : gmap string (list string)).

Definition view_basic (s : Ordered.Basic.state) : BrewAnalyzer.state :=
  BrewAnalyzer.mk (list_to_map (Ordered.Basic.packages s))
    (view_index (Ordered.Basic.reverse_dependencies s))
    (list_to_set (Ordered.Basic.installed_packages s)).

Definition view_optimized (s : Ordered.Optimized.state) : OptimizedBrewAnalyzer.state :=
  OptimizedBrewAnalyzer.mk (list_to_map (Ordered.Optimized.packages s))
    (view_index (Ordered.Optimized.reverse_dependencies s))
    (list_to_set (Ordered.Optimized.installed_packages s))
    (Ordered.Optimized.use_api s) (Ordered.Optimized.batch_size s)
    (Ordered.Optimized._api_cache s).

(** [mo], on the ordered state, and [m], on maps and sets, end the same
    way and make the same calls; what they return is related by [R]. *)
Definition simulates {A B} (R : A → B → Prop) (mo : Run A) (m : Run B) : Prop :=
  ∀ log,
    match mo log, m log with
    | (Returns a, log1), (Returns b, log2) => R a b ∧ log1 = log2
    | (Raises e1, log1), (Raises e2, log2) => e1 = e2 ∧ log1 = log2
    | _, _ => False
    end.

(** The ordered state and the state it shows to [==]; the keys of the
    catalog are distinct. *)
Definition shows_basic (so : Ordered.Basic.state) (s : BrewAnalyzer.state) : Prop :=
  NoDup (Ordered.Basic.packages so).*1 ∧ view_basic so = s.

Definition shows_optimized (so : Ordered.Optimized.state)
    (s : OptimizedBrewAnalyzer.state) : Prop :=
  NoDup (Ordered.Optimized.packages so).*1 ∧ view_optimized so = s.

(** Two outcomes are the same exception, or values related by [R]. *)
Definition related {A B} (R : A → B → Prop) (o1 : outcome A) (o2 : outcome B) : Prop :=
  match o1, o2 with
  | Returns a, Returns b => R a b
  | Raises e1, Raises e2 => e1 = e2
  | _, _ => False
  end.

(** Two ordered states hold the same catalog, items in the same order,
    and the keys of their indexes are the same, in the same order: they
    can differ only in the order within their sets. *)
Definition same_order_basic (s1 s2 : Ordered.Basic.state) : Prop :=
  Ordered.Basic.packages s1 = Ordered.Basic.packages s2 ∧
  (Ordered.Basic.reverse_dependencies s1).*1 = (Ordered.Basic.reverse_dependencies s2).*1.

Definition same_order_optimized (s1 s2 : Ordered.Optimized.state) : Prop :=
  Ordered.Optimized.packages s1 = Ordered.Optimized.packages s2 ∧
  (Ordered.Optimized.reverse_dependencies s1).*1
  = (Ordered.Optimized.reverse_dependencies s2).*1 ∧
  Ordered.Optimized.use_api s1 = Ordered.Optimized.use_api s2 ∧
  Ordered.Optimized.batch_size s1 = Ordered.Optimized.batch_size s2 ∧
  Ordered.Optimized._api_cache s1 = Ordered.Optimized._api_cache s2.

(** * Lemmas *)

(** ** The reverse index *)

Lemma rev_lookup_rev_add pkg_name rd dep D (P : string) :
  P ∈ rev_lookup (rev_add pkg_name rd dep) D ↔
  P ∈ rev_lookup rd D ∨ (P = pkg_name ∧ D = dep).
Proof.
  unfold rev_add, rev_lookup. destruct (decide (dep = D)) as [->|Hne].
  - rewrite lookup_insert_eq. simpl. set_solver.
  - rewrite lookup_insert_ne by done. naive_solver.
Qed.

Lemma rev_lookup_foldl_rev_add pkg_name deps : ∀ rd D (P : string),
  P ∈ rev_lookup (foldl (rev_add pkg_name) rd deps) D ↔
  P ∈ rev_lookup rd D ∨ (P = pkg_name ∧ D ∈ deps).
Proof.
  induction deps as [|dep deps IH]; intros rd D P; simpl.
  - set_solver.
  - rewrite IH, rev_lookup_rev_add. set_solver.
Qed.

Lemma rev_lookup_add_package pkg_name pkg_info rd D (P : string) :
  P ∈ rev_lookup (add_package pkg_name pkg_info rd) D ↔
  P ∈ rev_lookup rd D ∨
  (P = pkg_name ∧ (D ∈ build_dependencies pkg_info ∨ D ∈ runtime_dependencies pkg_info)).
Proof. unfold add_package. rewrite !rev_lookup_foldl_rev_add. naive_solver. Qed.

Lemma rev_lookup_build_reverse_dependencies (packages : gmap string PackageInfo)
    (D P : string) :
  P ∈ rev_lookup (build_reverse_dependencies packages ∅) D ↔
  ∃ pkg_info, packages !! P = Some pkg_info ∧
    (D ∈ build_dependencies pkg_info ∨ D ∈ runtime_dependencies pkg_info).
Proof.
  unfold build_reverse_dependencies. revert D P.
  apply (map_fold_weak_ind
    (λ rd (m : gmap string PackageInfo), ∀ D P : string, P ∈ rev_lookup rd D ↔
       ∃ pkg_info, m !! P = Some pkg_info ∧
         (D ∈ build_dependencies pkg_info ∨ D ∈ runtime_dependencies pkg_info))).
  - intros D P. unfold rev_lookup. rewrite lookup_empty. simpl. split.
    + set_solver.
    + intros (i & Hi & _). by rewrite lookup_empty in Hi.
  - intros k info m rd Hk IH D P. rewrite rev_lookup_add_package, IH. split.
    + intros [(i & Hi & HD)|[-> HD]].
      * exists i. split; [|done]. rewrite lookup_insert_ne; [done|]. intros ->. congruence.
      * exists info. by rewrite lookup_insert_eq.
    + intros (i & Hi & HD). destruct (decide (k = P)) as [->|Hne].
      * rewrite lookup_insert_eq in Hi. right. naive_solver.
      * rewrite lookup_insert_ne in Hi by done. left. eauto.
Qed.

(** C1. After [build_reverse_dependencies] has run on a catalog, from the
    empty index a fresh analyzer has, the reverse index is the transpose of
    the dependency relation: for a record stored under the name [P] and a
    name [D], [D] is a build or a runtime dependency of the record exactly
    when [P] is in [reverse_dependencies[D]]; and every member of an entry
    of the index comes from such a record. *)
Theorem reverse_index_is_transpose (packages : gmap string PackageInfo) :
  let reverse_index := build_reverse_dependencies packages ∅ in
  (∀ P pkg_info D,
     packages !! P = Some pkg_info →
     (D ∈ build_dependencies pkg_info ∨ D ∈ runtime_dependencies pkg_info)
     ↔ P ∈ rev_lookup reverse_index D) ∧
  (∀ D P,
     P ∈ rev_lookup reverse_index D →
     ∃ pkg_info, packages !! P = Some pkg_info ∧
       (D ∈ build_dependencies pkg_info ∨ D ∈ runtime_dependencies pkg_info)).
Proof.
  simpl. split.
  - intros P pkg_info D HP. rewrite rev_lookup_build_reverse_dependencies. split.
    + intros HD. by exists pkg_info.
    + intros (pkg_info' & HP' & HD). congruence.
  - intros D P. by rewrite rev_lookup_build_reverse_dependencies.
Qed.


(** ** Computations and their logs *)

Section RunLemmas.
Context {A B : Type}.

Lemma runs_ret (a : A) : runs (ret a) (Returns a) [].
Proof. intros log. unfold ret. by rewrite app_nil_r. Qed.

Lemma runs_raise (e : exn) : runs (raise (A:=A) e) (Raises e) [].
Proof. intros log. unfold raise. by rewrite app_nil_r. Qed.

Lemma runs_emit (c : call) : runs (emit c) (Returns tt) [c].
Proof. by intros log. Qed.

Lemma runs_bind (m : Run A) (k : A → Run B) a o c1 c2 :
  runs m (Returns a) c1 → runs (k a) o c2 → runs (bind m k) o (c1 ++ c2).
Proof. intros Hm Hk log. unfold bind. by rewrite Hm, Hk, app_assoc. Qed.

Lemma runs_bind_eq (m : Run A) (k : A → Run B) a o c1 c2 c :
  runs m (Returns a) c1 → runs (k a) o c2 → c = c1 ++ c2 → runs (bind m k) o c.
Proof. intros Hm Hk ->. by eapply runs_bind. Qed.

Lemma runs_eq (m : Run A) o o' c c' :
  runs m o c → o = o' → c = c' → runs m o' c'.
Proof. by intros Hm <- <-. Qed.

Lemma runs_bind_raises (m : Run A) (k : A → Run B) e c :
  runs m (Raises e) c → runs (bind m k) (Raises e) c.
Proof. intros Hm log. unfold bind. by rewrite Hm. Qed.

Lemma bind_Returns (m : Run A) (k : A → Run B) a c log :
  runs m (Returns a) c → bind m k log = k a (log ++ c).
Proof. intros Hm. unfold bind. by rewrite Hm. Qed.

Lemma bind_Raises (m : Run A) (k : A → Run B) e c log :
  runs m (Raises e) c → bind m k log = (Raises e, log ++ c).
Proof. intros Hm. unfold bind. by rewrite Hm. Qed.

Lemma runs_det (m : Run A) o1 o2 c1 c2 :
  runs m o1 c1 → runs m o2 c2 → o1 = o2 ∧ c1 = c2.
Proof.
  intros H1 H2. specialize (H1 []). specialize (H2 []). rewrite H1 in H2.
  simpl in H2. by inversion H2.
Qed.

Lemma post_ret (a : A) (Q : A → Prop) : Q a → post (ret a) Q.
Proof. intros HQ log a' log' [= <- _]. done. Qed.

Lemma post_raise (e : exn) (Q : A → Prop) : post (raise e) Q.
Proof. by intros log a' log' [=]. Qed.

Lemma post_bind (m : Run A) (k : A → Run B) (Q : B → Prop) :
  post m (λ a, post (k a) Q) → post (bind m k) Q.
Proof.
  intros Hm log b log'. unfold bind. destruct (m log) as [[a|e] log1] eqn:E; [|done].
  intros Hk. exact (Hm _ _ _ E _ _ _ Hk).
Qed.

Lemma post_mono (m : Run A) (Q Q' : A → Prop) :
  post m Q → (∀ a, Q a → Q' a) → post m Q'.
Proof. intros Hm HQ log a log' E. eauto. Qed.

Lemma runs_post (m : Run A) a c (Q : A → Prop) :
  runs m (Returns a) c → Q a → post m Q.
Proof. intros Hm HQ log a' log'. rewrite Hm. by intros [= <- _]. Qed.
End RunLemmas.

Lemma post_for_each {A S} (body : S → A → Run S) (I : S → Prop) (l : list A) :
  (∀ s x, x ∈ l → I s → post (body s x) I) → ∀ s, I s → post (for_each body s l) I.
Proof.
  induction l as [|x l IH]; intros Hbody s Hs; simpl.
  - by apply post_ret.
  - apply post_bind. eapply post_mono.
    + apply Hbody; [left|done].
    + intros s' Hs'. apply IH; [|done]. intros s'' y Hy. apply Hbody. by right.
Qed.

(** A loop whose body always returns: the final state is the left fold of
    the bodies' results, the calls are theirs in order. *)
Lemma runs_for_each {A S} (body : S → A → Run S) (step : S → A → S)
    (calls : A → list call) (l : list A) :
  (∀ s x, x ∈ l → runs (body s x) (Returns (step s x)) (calls x)) →
  ∀ s, runs (for_each body s l) (Returns (foldl step s l)) (concat (map calls l)).
Proof.
  induction l as [|x l IH]; intros Hbody s; simpl.
  - apply runs_ret.
  - eapply runs_bind.
    + apply Hbody. left.
    + apply IH. intros s' y Hy. apply Hbody. by right.
Qed.

Section Brew.
Variable w : World.

Lemma run_brew_command_found args :
  brew_found w = true →
  runs (run_brew_command w args) (Returns (brew_output w args)) [Brew args].
Proof.
  intros Hf log. unfold run_brew_command, bind, emit, subprocess_run, brew_output.
  rewrite Hf. by destruct (brew_stdout w args).
Qed.

Lemma run_brew_command_missing args :
  brew_found w = false →
  runs (run_brew_command w args) (Raises (SystemExit 1)) [Brew args].
Proof.
  intros Hf log. unfold run_brew_command, bind, emit, subprocess_run.
  by rewrite Hf.
Qed.

Lemma get_installed_packages_found :
  brew_found w = true →
  runs (get_installed_packages w) (Returns (installed_list w))
       [Brew ["list"; "--formula"]; Brew ["list"; "--cask"]].
Proof.
  intros Hf. unfold get_installed_packages.
  eapply (runs_bind _ _ _ _ [_] [_]); [by apply run_brew_command_found|].
  eapply (runs_bind _ _ _ _ [_] []); [by apply run_brew_command_found|].
  apply runs_ret.
Qed.

Lemma get_installed_packages_missing :
  brew_found w = false →
  runs (get_installed_packages w) (Raises (SystemExit 1)) [Brew ["list"; "--formula"]].
Proof.
  intros Hf. unfold get_installed_packages.
  apply runs_bind_raises. by apply run_brew_command_missing.
Qed.
End Brew.

Lemma nonempty_false s : nonempty s = false ↔ s = "".
Proof. destruct s; simpl; split; congruence. Qed.

(** *** Catalogs as folds of [put] *)

Lemma foldl_put_lookup_notin entries : ∀ (m : gmap string PackageInfo) n,
  n ∉ entries.*1 → foldl put m entries !! n = m !! n.
Proof.
  induction entries as [|[n' r] entries IH]; intros m n Hn; simpl; [done|].
  rewrite fmap_cons, not_elem_of_cons in Hn. destruct Hn as [Hne Hn]. simpl in Hne.
  rewrite IH by done. unfold put. simpl. destruct r; [|done].
  by rewrite lookup_insert_ne.
Qed.

Lemma foldl_put_lookup_NoDup entries : ∀ (m : gmap string PackageInfo) n r,
  NoDup entries.*1 → (n, r) ∈ entries → m !! n = None →
  foldl put m entries !! n = r.
Proof.
  induction entries as [|[n' r'] entries IH]; intros m n r Hnd Hin Hm; simpl.
  - by apply elem_of_nil in Hin.
  - rewrite fmap_cons, NoDup_cons in Hnd. destruct Hnd as [Hn' Hnd]. simpl in Hn'.
    apply elem_of_cons in Hin as [[= -> ->]|Hin].
    + rewrite foldl_put_lookup_notin by done. unfold put. simpl.
      destruct r'; [by rewrite lookup_insert_eq|done].
    + apply IH; [done..|]. unfold put. simpl. destruct r'; [|done].
      rewrite lookup_insert_ne; [done|]. intros ->. apply Hn'.
      apply list_elem_of_fmap. by exists (n, r).
Qed.

(** Every entry of a fold of [put] comes from the start or from an entry
    that carries a record. *)
Lemma foldl_put_lookup_Some entries : ∀ (m : gmap string PackageInfo) n info,
  foldl put m entries !! n = Some info →
  m !! n = Some info ∨ (n, Some info) ∈ entries.
Proof.
  induction entries as [|[n' r'] entries IH]; intros m n info H; simpl in *; [by left|].
  apply IH in H as [H|H]; [|right; by right].
  unfold put in H. simpl in H. destruct r' as [info'|]; [|by left].
  destruct (decide (n' = n)) as [->|Hne].
  - rewrite lookup_insert_eq in H. injection H as ->. right. left.
  - rewrite lookup_insert_ne in H by done. by left.
Qed.

(** The last entry of a name decides, when it carries a record. *)
Lemma foldl_put_lookup_last entries1 entries2 (m : gmap string PackageInfo) n info :
  (∀ r, (n, r) ∈ entries2 → r = Some info) →
  foldl put m (entries1 ++ (n, Some info) :: entries2) !! n = Some info.
Proof.
  intros Hlater. rewrite foldl_app. simpl. unfold put at 2. simpl.
  generalize (foldl put m entries1). intros m'.
  assert (∀ m0 : gmap string PackageInfo, m0 !! n = Some info →
            foldl put m0 entries2 !! n = Some info) as Hkeep.
  { clear m'. induction entries2 as [|[n' r'] entries2 IH]; intros m0 H0; simpl; [done|].
    apply IH.
    - intros r Hr. apply Hlater. by right.
    - unfold put. simpl. destruct r' as [info'|]; [|done].
      destruct (decide (n' = n)) as [->|Hne].
      + rewrite lookup_insert_eq. apply (Hlater (Some info')). left.
      + by rewrite lookup_insert_ne. }
  apply Hkeep. by rewrite lookup_insert_eq.
Qed.

(** *** brewinfo.py *)

Section Single.
Variable json_loads : string → option (list pkg_json).
Variable w : World.
Hypothesis Hfound : brew_found w = true.

Import BrewAnalyzer.

Lemma parse_brew_info_found package_name is_cask :
  runs (parse_brew_info json_loads w package_name is_cask)
       (Returns (single_result json_loads w package_name is_cask))
       [Brew (info_args is_cask [package_name])].
Proof.
  unfold parse_brew_info, single_result.
  eapply (runs_bind _ _ _ _ [_] []); [by apply run_brew_command_found|].
  change (["info"; "--json"] ++ (if is_cask then ["--cask"] else []) ++ [package_name])
    with (info_args is_cask [package_name]).
  destruct (nonempty _); simpl; [|apply runs_ret].
  destruct (json_loads _) as [[|pkg_data ?]|]; try apply runs_ret.
  destruct is_cask; apply runs_ret.
Qed.


Lemma analyze_one_found self pkg :
  runs (analyze_one json_loads w self pkg)
       (Returns (set_packages self (put (packages self) (single_entry json_loads w pkg))))
       [Brew (info_args pkg.2 [pkg.1])].
Proof.
  destruct pkg as [package_name is_cask]. unfold analyze_one.
  eapply (runs_bind _ _ _ _ [_] []); [apply parse_brew_info_found|].
  unfold put, single_entry. simpl. destruct (single_result _ _ _ _); [apply runs_ret|].
  destruct self; apply runs_ret.
Qed.

Lemma foldl_set_packages l : ∀ self,
  foldl (λ self pkg, set_packages self (put (packages self) (single_entry json_loads w pkg))) self l
  = set_packages self (foldl put (packages self) (single_entry json_loads w <$> l)).
Proof.
  induction l as [|pkg l IH]; intros self; simpl.
  - by destruct self.
  - by rewrite IH.
Qed.


Lemma analyze_packages_found self :
  runs (analyze_packages json_loads w self) (Returns (analyzed json_loads w self))
       ([Brew ["list"; "--formula"]; Brew ["list"; "--cask"]]
        ++ match installed_list w with
           | [] => []
           | l => map (λ pkg, Brew (info_args pkg.2 [pkg.1])) l
           end).
Proof.
  unfold analyze_packages, analyzed.
  eapply runs_bind; [by apply get_installed_packages_found|].
  destruct (installed_list w) as [|pkg l] eqn:El; [apply runs_ret|].
  eapply runs_bind_eq.
  - apply runs_for_each. intros s x _. apply analyze_one_found.
  - rewrite foldl_set_packages. apply runs_ret.
  - rewrite app_nil_r. generalize (pkg :: l). intros l'.
    induction l' as [|x l' IH]; simpl; [done|]. by rewrite IH.
Qed.
End Single.

Lemma foldl_put_is_Some entries : ∀ (m : gmap string PackageInfo) n,
  is_Some (foldl put m entries !! n) ↔
  is_Some (m !! n) ∨ ∃ info, (n, Some info) ∈ entries.
Proof.
  induction entries as [|[n' r'] entries IH]; intros m n; simpl.
  - split; [by left|]. intros [H|[info H]]; [done|]. by apply elem_of_nil in H.
  - rewrite IH. unfold put. simpl. split.
    + intros [H|[info H]]; [|right; exists info; by right].
      destruct r' as [info'|]; [|by left].
      destruct (decide (n' = n)) as [->|Hne].
      * right. exists info'. left.
      * rewrite lookup_insert_ne in H by done. by left.
    + intros [H|[info H]].
      * left. destruct r' as [info'|]; [|done].
        destruct (decide (n' = n)) as [->|Hne].
        -- rewrite lookup_insert_eq. by eexists.
        -- by rewrite lookup_insert_ne.
      * apply elem_of_cons in H as [Heq|H].
        -- simplify_eq. left. rewrite lookup_insert_eq. by eexists.
        -- right. by exists info.
Qed.

Section SingleFatal.
Variable json_loads : string → option (list pkg_json).
Variable w : World.
Import BrewAnalyzer.

(** On output that is text and documents of the shape of brew's JSON
    interface: a run of [analyze_packages] of brewinfo.py on a fresh
    analyzer ends in an exception exactly when [brew] cannot be started,
    and the exception is then [SystemExit 1].  Otherwise the run returns,
    and a name is without a catalog entry exactly when every query made
    for an identity of that name gave no record. *)
Lemma declared_responses_leave_gaps (log : list call) :
  match (analyze_packages json_loads w init log).1 with
  | Raises e =>
      e = SystemExit 1 ∧
      subprocess_run w ["list"; "--formula"] = FileNotFoundError ∧
      (get_installed_packages w log).1 = Raises (SystemExit 1)
  | Returns self =>
      subprocess_run w ["list"; "--formula"] ≠ FileNotFoundError ∧
      (get_installed_packages w log).1 = Returns (installed_list w) ∧
      ∀ package_name,
        packages self !! package_name = None ↔
        ∀ is_cask, (package_name, is_cask) ∈ installed_list w →
          (parse_brew_info json_loads w package_name is_cask log).1 = Returns None
  end.
Proof.
  destruct (brew_found w) eqn:Hf.
  - rewrite (analyze_packages_found json_loads w Hf init log),
      (get_installed_packages_found w Hf log). simpl.
    split; [|split; [done|]].
    { unfold subprocess_run. rewrite Hf. by destruct (brew_stdout _ _). }
    intros n.
    assert (packages (analyzed json_loads w init)
            = foldl put ∅ (single_entry json_loads w <$> installed_list w)) as ->.
    { unfold analyzed. by destruct (installed_list w). }
    rewrite eq_None_not_Some, foldl_put_is_Some, lookup_empty. split.
    + intros Hnone k Hin.
      rewrite (parse_brew_info_found json_loads w Hf n k log). simpl.
      destruct (single_result json_loads w n k) as [info|] eqn:E; [|done].
      exfalso. apply Hnone. right. exists info.
      apply list_elem_of_fmap. exists (n, k). unfold single_entry. simpl.
      by rewrite E.
    + intros Hall [[? [=]]|[info Hin]].
      apply list_elem_of_fmap in Hin as ([n' k] & [= -> E] & Hin). simpl in E.
      specialize (Hall k Hin).
      rewrite (parse_brew_info_found json_loads w Hf n' k log) in Hall.
      simpl in Hall. congruence.
  - unfold analyze_packages.
    rewrite (runs_bind_raises _ _ _ _ (get_installed_packages_missing w Hf) log),
      (get_installed_packages_missing w Hf log). simpl.
    unfold subprocess_run. by rewrite Hf.
Qed.
End SingleFatal.

(** *** brewinfo_optimized.py: the batch queries *)

Section Batch.
Variable json_loads : string → option (list pkg_json).
Variable w : World.
Hypothesis Hfound : brew_found w = true.

Import OptimizedBrewAnalyzer.

Lemma replicate_as_map {A B} (l : list A) (y : B) :
  replicate (length l) y = map (λ _, y) l.
Proof. induction l; simpl; [done|]. by f_equal. Qed.

Lemma query_batch_found is_cask names :
  runs (query_batch json_loads w (kind_flags is_cask) (kind_key is_cask)
          (kind_info is_cask) names)
       (Returns (map (batch_result json_loads w is_cask names) names))
       (query_call <$> match names with [] => [] | _ => [(is_cask, names)] end).
Proof.
  destruct names as [|n names]; [apply runs_ret|].
  unfold query_batch. set (ns := n :: names).
  eapply (runs_bind_eq _ _ _ _ [_] []); [by apply run_brew_command_found| |done].
  change (["info"; "--json"] ++ kind_flags is_cask ++ ns) with (info_args is_cask ns).
  unfold batch_result, batch_data.
  destruct (nonempty _); [|rewrite replicate_as_map; apply runs_ret].
  destruct (json_loads _) as [info_data|];
    [|rewrite replicate_as_map; apply runs_ret].
  destruct (index_by _ _ _) as [data|];
    [|rewrite replicate_as_map; apply runs_ret].
  apply runs_ret.
Qed.

Lemma parse_brew_info_batch_found batch :
  runs (parse_brew_info_batch json_loads w batch)
       (Returns (batch_results json_loads w batch))
       (query_call <$> batch_queries batch).
Proof.
  destruct batch as [|pkg batch]; [apply runs_ret|].
  unfold parse_brew_info_batch. set (l := pkg :: batch).
  eapply runs_bind_eq; [apply (query_batch_found false)|..].
  - eapply runs_bind_eq; [apply (query_batch_found true)|apply runs_ret|reflexivity].
  - unfold batch_queries, query_of. rewrite app_nil_r, fmap_app.
    unfold names_of. f_equal.
    + by destruct ((filter (λ pkg0 : string * bool, pkg0.2 = false) l).*1).
    + by destruct ((filter (λ pkg0 : string * bool, pkg0.2 = true) l).*1).
Qed.


Lemma foldl_store (entries : list (string * bool * option PackageInfo)) : ∀ self,
  foldl (λ self '((package_name, _), pkg_info), store self package_name pkg_info)
        self entries
  = set_packages self
      (foldl put (packages self) ((λ e, (e.1.1, e.2)) <$> entries)).
Proof.
  induction entries as [|[[n k] r] entries IH]; intros self; simpl.
  - by destruct self.
  - rewrite IH. unfold store, put. simpl. by destruct r.
Qed.

Lemma zip_fst_entries {A B C} (l : list (A * B)) (rs : list C) :
  (λ e : A * B * C, (e.1.1, e.2)) <$> zip l rs = zip (l.*1) rs.
Proof.
  revert rs. induction l as [|[a b] l IH]; intros [|r rs]; simpl; [done..|].
  by rewrite IH.
Qed.

Lemma analyze_batch_found l b self i :
  runs (analyze_batch json_loads w l b self i)
       (Returns (set_packages self
                   (foldl put (packages self) (batch_entries json_loads w (slice l i b)))))
       (query_call <$> batch_queries (slice l i b)).
Proof.
  unfold analyze_batch.
  eapply runs_bind_eq; [apply parse_brew_info_batch_found| |by rewrite app_nil_r].
  rewrite foldl_store, zip_fst_entries. apply runs_ret.
Qed.

Lemma foldl_batches (bs : list (list (string * bool))) : ∀ self,
  foldl (λ self batch,
           set_packages self (foldl put (packages self) (batch_entries json_loads w batch)))
        self bs
  = set_packages self (foldl put (packages self) (concat (batch_entries json_loads w <$> bs))).
Proof.
  induction bs as [|batch bs IH]; intros self; simpl.
  - by destruct self.
  - rewrite IH. simpl. by rewrite foldl_app.
Qed.


Lemma analyze_cli_found l self p :
  batch_size self = Zpos p →
  runs (analyze_cli json_loads w l self)
       (Returns (set_packages self
                   (foldl put (packages self) (cli_entries json_loads w (Pos.to_nat p) l))))
       (query_call <$> issued_queries (Pos.to_nat p) l).
Proof.
  intros Hb. unfold analyze_cli. rewrite Hb.
  eapply runs_eq.
  - apply (runs_for_each _
      (λ self i, set_packages self
         (foldl put (packages self) (batch_entries json_loads w (slice l i (Pos.to_nat p)))))
      (λ i, query_call <$> batch_queries (slice l i (Pos.to_nat p)))).
    intros s i _. apply analyze_batch_found.
  - f_equal. unfold cli_entries, batches. rewrite <- foldl_batches.
    by rewrite foldl_fmap.
  - unfold issued_queries, batches.
    generalize (range0 (length l) (Pos.to_nat p)). intros idx.
    induction idx as [|i idx IH]; simpl; [done|]. by rewrite fmap_app, IH.
Qed.
End Batch.

(** *** Batches *)

Lemma ceil_div_0 b : ceil_div 0 b = 0.
Proof.
  unfold ceil_div. destruct b as [|b]; [done|].
  apply Nat.div_small. lia.
Qed.

Lemma ceil_div_step n b : 0 < b → 0 < n → ceil_div n b = S (ceil_div (n - b) b).
Proof.
  intros Hb Hn. unfold ceil_div. destruct (le_lt_dec b n) as [Hle|Hlt].
  - replace (n + b - 1) with ((n - b + b - 1) + 1 * b) by lia.
    rewrite Nat.div_add by lia. lia.
  - replace (n - b) with 0 by lia. simpl.
    rewrite (Nat.div_small (b - 1)) by lia.
    assert (n + b - 1 = (n - 1) + 1 * b) as -> by lia.
    rewrite Nat.div_add by lia. rewrite Nat.div_small by lia. done.
Qed.

Section Batches.
Context {A : Type}.
Implicit Types l : list A.

Lemma batches_nil b : batches b ([] : list A) = [].
Proof. unfold batches, range0. simpl. by rewrite ceil_div_0. Qed.

Lemma batches_cons b l :
  0 < b → l ≠ [] → batches b l = take b l :: batches b (drop b l).
Proof.
  intros Hb Hl. unfold batches, range0.
  assert (0 < length l) by (destruct l; simpl; [done|lia]).
  rewrite ceil_div_step by done.
  rewrite length_drop. simpl. f_equal.
  rewrite <- seq_shift, !map_map. apply map_ext. intros k.
  unfold slice. rewrite drop_drop. by f_equal.
Qed.

Lemma batches_ind b (Hb : 0 < b) (P : list A → Prop) :
  P [] → (∀ l, l ≠ [] → P (drop b l) → P l) → ∀ l, P l.
Proof.
  intros Hnil Hcons l.
  remember (length l) as n eqn:Hn. revert l Hn.
  induction (lt_wf n) as [n _ IH]. intros l ->.
  destruct l as [|x l']; [done|]. apply Hcons; [done|].
  apply (IH (length (drop b (x :: l')))); [|done].
  rewrite length_drop. simpl. lia.
Qed.

Lemma concat_batches b l : 0 < b → concat (batches b l) = l.
Proof.
  intros Hb. induction l as [|l Hl IH] using (batches_ind b Hb).
  - by rewrite batches_nil.
  - rewrite batches_cons by done. simpl. by rewrite IH, take_drop.
Qed.

Lemma elem_of_batches_nonempty b l batch :
  0 < b → batch ∈ batches b l → batch ≠ [].
Proof.
  intros Hb. induction l as [|l Hl IH] using (batches_ind b Hb).
  - rewrite batches_nil. by intros ?%elem_of_nil.
  - rewrite batches_cons by done. intros [->|Hin]%elem_of_cons; [|by apply IH].
    destruct l; [done|]. destruct b; [lia|done].
Qed.
End Batches.

(** *** The installed list: formulas, then casks *)

Lemma names_of_enumerate is_cask fs cs :
  names_of is_cask (enumerate fs cs) = if is_cask then cs else fs.
Proof.
  unfold names_of, enumerate. rewrite filter_app, fmap_app.
  assert (∀ (k k' : bool) (ns : list string),
    (filter (λ pkg : string * bool, pkg.2 = k) (map (λ n, (n, k')) ns)).*1
    = if decide (k' = k) then ns else []) as Hk.
  { intros k k' ns. induction ns as [|n ns IH]; simpl; [by case_decide|].
    rewrite filter_cons. simpl. repeat case_decide; simpl; try congruence; by f_equal. }
  rewrite !Hk. destruct is_cask; simpl; by rewrite ?app_nil_r.
Qed.

Lemma formulas_first_enumerate fs cs : formulas_first (enumerate fs cs).
Proof. unfold formulas_first. by rewrite !names_of_enumerate. Qed.

Lemma take_enumerate b fs cs :
  take b (enumerate fs cs) = enumerate (take b fs) (take (b - length fs) cs).
Proof.
  unfold enumerate. rewrite take_app, length_map.
  by rewrite <- !fmap_take.
Qed.

Lemma drop_enumerate b fs cs :
  drop b (enumerate fs cs) = enumerate (drop b fs) (drop (b - length fs) cs).
Proof.
  unfold enumerate. rewrite drop_app, length_map.
  by rewrite <- !fmap_drop.
Qed.

Lemma batches_enumerate b fs cs batch :
  0 < b → batch ∈ batches b (enumerate fs cs) → formulas_first batch.
Proof.
  intros Hb. remember (enumerate fs cs) as l eqn:El. revert fs cs El.
  induction l as [|l Hl IH] using (batches_ind b Hb); intros fs cs El.
  - rewrite batches_nil. by intros ?%elem_of_nil.
  - subst l. rewrite batches_cons by done. intros [->|Hin]%elem_of_cons.
    + rewrite take_enumerate. apply formulas_first_enumerate.
    + eapply IH; [|done]. apply drop_enumerate.
Qed.


Lemma sound_kind_info n k o : sound (n, k) (Some (kind_info k n o)).
Proof.
  split; [by destruct k|]. intros info [= <-]. by destruct k.
Qed.

Lemma sound_None pkg : sound pkg None.
Proof. by split. Qed.

Lemma post_run_brew_command w args (Q : string → Prop) :
  (∀ out, Q out) → post (run_brew_command w args) Q.
Proof. intros HQ log a log' _. apply HQ. Qed.

Section Posts.
Variable json_loads : string → option (list pkg_json).
Variable w : World.

Lemma post_get_installed_packages :
  post (get_installed_packages w) (λ l, ∃ fs cs, l = enumerate fs cs).
Proof.
  unfold get_installed_packages.
  apply post_bind, post_run_brew_command. intros out1.
  apply post_bind, post_run_brew_command. intros out2.
  apply post_ret. by eexists _, _.
Qed.

Lemma post_parse_brew_info n k :
  post (BrewAnalyzer.parse_brew_info json_loads w n k) (sound (n, k)).
Proof.
  unfold BrewAnalyzer.parse_brew_info.
  apply post_bind, post_run_brew_command. intros out.
  destruct (negb _); [apply post_ret, sound_None|].
  destruct (json_loads out) as [[|pkg_data ?]|]; try apply post_ret, sound_None.
  destruct k; apply post_ret.
  - apply (sound_kind_info n true).
  - apply (sound_kind_info n false).
Qed.

Lemma sound_parse_api_data n k formulas casks :
  sound (n, k) (OptimizedBrewAnalyzer.parse_api_data n k formulas casks).
Proof.
  unfold OptimizedBrewAnalyzer.parse_api_data. destruct k.
  - destruct (casks !! n); [apply (sound_kind_info n true)|apply sound_None].
  - destruct (formulas !! n); [apply (sound_kind_info n false)|apply sound_None].
Qed.

Lemma Forall2_replicate_None k (names : list string) :
  Forall2 (λ n r, sound (n, k) r) names (replicate (length names) None).
Proof. induction names; simpl; constructor; [apply sound_None|done]. Qed.

Lemma post_query_batch k names :
  post (OptimizedBrewAnalyzer.query_batch json_loads w (kind_flags k) (kind_key k)
          (kind_info k) names)
       (λ rs, Forall2 (λ n r, sound (n, k) r) names rs).
Proof.
  unfold OptimizedBrewAnalyzer.query_batch.
  destruct names as [|n0 names0]; [by apply post_ret|]. set (names := n0 :: names0).
  apply post_bind, post_run_brew_command. intros out.
  destruct (nonempty out); [|apply post_ret, Forall2_replicate_None].
  destruct (json_loads out) as [info_data|]; [|apply post_ret, Forall2_replicate_None].
  destruct (index_by _ _ _) as [data|]; [|apply post_ret, Forall2_replicate_None].
  apply post_ret. generalize names. intros ns.
  induction ns as [|n ns IH]; simpl; constructor; [|done].
  destruct (data !! n); [apply sound_kind_info|apply sound_None].
Qed.

(** The results of a batch: those of its formulas, then those of its
    casks, each list in request order. *)
Lemma post_parse_brew_info_batch batch :
  post (OptimizedBrewAnalyzer.parse_brew_info_batch json_loads w batch)
       (λ results, ∃ rf rc, results = rf ++ rc ∧
          Forall2 (λ n r, sound (n, false) r) (names_of false batch) rf ∧
          Forall2 (λ n r, sound (n, true) r) (names_of true batch) rc).
Proof.
  unfold OptimizedBrewAnalyzer.parse_brew_info_batch.
  destruct batch as [|pkg0 batch0].
  { apply post_ret. exists [], []. by repeat split; constructor. }
  set (batch := pkg0 :: batch0).
  apply post_bind. eapply post_mono; [apply (post_query_batch false)|].
  intros rf Hrf.
  apply post_bind. eapply post_mono; [apply (post_query_batch true)|].
  intros rc Hrc. apply post_ret. by exists rf, rc.
Qed.
End Posts.

Lemma Forall2_enumerate (R : string * bool → option PackageInfo → Prop) fs cs rf rc :
  Forall2 (λ n r, R (n, false) r) fs rf → Forall2 (λ n r, R (n, true) r) cs rc →
  Forall2 R (enumerate fs cs) (rf ++ rc).
Proof.
  intros Hf Hc. unfold enumerate. apply Forall2_app.
  - induction Hf; simpl; by constructor.
  - induction Hc; simpl; by constructor.
Qed.

Lemma post_parse_brew_info_batch_aligned json_loads w batch :
  formulas_first batch →
  post (OptimizedBrewAnalyzer.parse_brew_info_batch json_loads w batch)
       (λ results, Forall2 sound batch results).
Proof.
  intros Hff. eapply post_mono; [apply post_parse_brew_info_batch|].
  intros results (rf & rc & -> & Hf & Hc). unfold formulas_first in Hff.
  rewrite Hff.
  by apply Forall2_enumerate.
Qed.


Lemma catalog_ok_empty : catalog_ok ∅.
Proof. intros n info H. by rewrite lookup_empty in H. Qed.

Lemma catalog_ok_put m n k r :
  sound (n, k) r → catalog_ok m → catalog_ok (put m (n, r)).
Proof.
  intros [Hown Hbare] Hm. unfold put. simpl. destruct r as [info|]; [|done].
  intros n' info'. destruct (decide (n = n')) as [->|Hne].
  - rewrite lookup_insert_eq. intros [= <-]. split; [apply Hown|by apply Hbare].
  - rewrite lookup_insert_ne by done. apply Hm.
Qed.

Lemma formulas_first_slice fs cs i b : formulas_first (slice (enumerate fs cs) i b).
Proof.
  unfold slice. rewrite drop_enumerate, take_enumerate. apply formulas_first_enumerate.
Qed.

Section Invariants.
Variable json_loads : string → option (list pkg_json).
Variable w : World.

Lemma post_analyze_one self pkg :
  catalog_ok (BrewAnalyzer.packages self) →
  post (BrewAnalyzer.analyze_one json_loads w self pkg)
       (λ self', catalog_ok (BrewAnalyzer.packages self')).
Proof.
  intros Hok. destruct pkg as [n k]. unfold BrewAnalyzer.analyze_one.
  apply post_bind. eapply post_mono; [apply post_parse_brew_info|].
  intros r Hr. destruct r as [info|]; apply post_ret; [|done].
  apply (catalog_ok_put _ n k (Some info)); done.
Qed.

Lemma post_analyze_packages_single self :
  catalog_ok (BrewAnalyzer.packages self) →
  post (BrewAnalyzer.analyze_packages json_loads w self)
       (λ self', catalog_ok (BrewAnalyzer.packages self')).
Proof.
  intros Hok. unfold BrewAnalyzer.analyze_packages.
  apply post_bind. intros log l log' _.
  destruct l as [|pkg l]; [by apply post_ret|].
  apply post_bind. eapply post_mono.
  - apply (post_for_each _ (λ s, catalog_ok (BrewAnalyzer.packages s))); [|done].
    intros s x _ Hs. by apply post_analyze_one.
  - intros s Hs. by apply post_ret.
Qed.

Import OptimizedBrewAnalyzer.

Lemma catalog_ok_store self n k r :
  sound (n, k) r → catalog_ok (packages self) → catalog_ok (packages (store self n r)).
Proof.
  intros Hr Hok. unfold store. destruct r as [info|]; [|done].
  apply (catalog_ok_put _ n k (Some info)); done.
Qed.

Lemma post_fetch_api_data self (Q : state * (gmap string pkg_json * gmap string pkg_json) → Prop) :
  (∀ formulas casks, Q (self, (formulas, casks))) →
  (∀ formulas casks, Q (set_api_cache self (Some (formulas, casks)), (formulas, casks))) →
  post (fetch_api_data w self) Q.
Proof.
  intros H1 H2. unfold fetch_api_data.
  destruct (_api_cache self) as [[f c]|]; [by apply post_ret|].
  apply post_bind. intros log [] log' _.
  destruct (http_json w formula_url) as [fl|]; [|by apply post_ret].
  destruct (index_by j_name fl ∅) as [formulas|]; [|apply post_raise].
  apply post_bind. intros log1 [] log1' _.
  destruct (http_json w cask_url) as [cl|]; [|by apply post_ret].
  destruct (index_by j_token cl ∅) as [casks|]; [|apply post_raise].
  by apply post_ret.
Qed.

Lemma catalog_ok_foldl_api formulas casks l : ∀ self,
  catalog_ok (packages self) →
  catalog_ok (packages
    (foldl (λ self '(package_name, is_cask),
              store self package_name
                (parse_api_data package_name is_cask formulas casks)) self l)).
Proof.
  induction l as [|[n k] l IH]; intros self Hok; simpl; [done|].
  apply IH. apply (catalog_ok_store _ n k); [apply sound_parse_api_data|done].
Qed.

Lemma post_analyze_api l self :
  catalog_ok (packages self) →
  post (analyze_api w l self) (λ self', catalog_ok (packages self')).
Proof.
  intros Hok. unfold analyze_api. apply post_bind.
  apply post_fetch_api_data; intros formulas casks;
    (destruct (_ || _); apply post_ret; [by apply catalog_ok_foldl_api|done]).
Qed.

Lemma catalog_ok_foldl_zip (batch : list (string * bool)) results :
  Forall2 sound batch results → ∀ self,
  catalog_ok (packages self) →
  catalog_ok (packages
    (foldl (λ self '((package_name, _), pkg_info), store self package_name pkg_info)
           self (zip batch results))).
Proof.
  induction 1 as [|[n k] r batch results Hr _ IH]; intros self Hok; simpl; [done|].
  apply IH. by apply (catalog_ok_store _ n k).
Qed.

Lemma post_analyze_batch fs cs b self i :
  catalog_ok (packages self) →
  post (analyze_batch json_loads w (enumerate fs cs) b self i)
       (λ self', catalog_ok (packages self')).
Proof.
  intros Hok. unfold analyze_batch. apply post_bind.
  eapply post_mono;
    [apply post_parse_brew_info_batch_aligned, formulas_first_slice|].
  intros results Hres. apply post_ret. by apply catalog_ok_foldl_zip.
Qed.

Lemma post_analyze_cli fs cs self :
  catalog_ok (packages self) →
  post (analyze_cli json_loads w (enumerate fs cs) self)
       (λ self', catalog_ok (packages self')).
Proof.
  intros Hok. unfold analyze_cli.
  destruct (batch_size self); [apply post_raise| |by apply post_ret].
  apply (post_for_each _ (λ s, catalog_ok (packages s))); [|done].
  intros s i _ Hs. by apply post_analyze_batch.
Qed.

Lemma post_analyze_packages_optimized self :
  catalog_ok (packages self) →
  post (analyze_packages json_loads w self) (λ self', catalog_ok (packages self')).
Proof.
  intros Hok. unfold analyze_packages.
  apply post_bind. eapply post_mono; [apply post_get_installed_packages|].
  intros l (fs & cs & ->).
  destruct (enumerate fs cs) as [|pkg l] eqn:El; [by apply post_ret|]. rewrite <- El.
  apply post_bind.
  eapply (post_mono _ (λ s, catalog_ok (packages s))).
  { destruct (use_api _); [by apply post_analyze_api|by apply post_ret]. }
  intros s1 Hs1. apply post_bind.
  eapply (post_mono _ (λ s, catalog_ok (packages s))).
  { destruct (negb _); [by apply post_analyze_cli|by apply post_ret]. }
  intros s2 Hs2. by apply post_ret.
Qed.
End Invariants.


Lemma traced_ret {A} (a : A) : traced (ret a).
Proof. eexists _, _. apply runs_ret. Qed.

Lemma traced_raise {A} (e : exn) : traced (raise (A:=A) e).
Proof. eexists _, _. apply runs_raise. Qed.

Lemma traced_emit (c : call) : traced (emit c).
Proof. eexists _, _. apply runs_emit. Qed.

Lemma traced_bind {A B} (m : Run A) (k : A → Run B) :
  traced m → (∀ a, traced (k a)) → traced (bind m k).
Proof.
  intros ([a|e] & c1 & Hm) Hk.
  - destruct (Hk a) as (o & c2 & Ha). eexists _, _. by eapply runs_bind.
  - eexists _, _. by eapply runs_bind_raises.
Qed.

Lemma traced_for_each {A S} (body : S → A → Run S) (l : list A) :
  (∀ s x, traced (body s x)) → ∀ s, traced (for_each body s l).
Proof.
  intros Hbody. induction l as [|x l IH]; intros s; simpl.
  - apply traced_ret.
  - by apply traced_bind.
Qed.

Lemma traced_outcome {A} (m : Run A) log log' : traced m → (m log).1 = (m log').1.
Proof. intros (o & c & Hm). by rewrite (Hm log), (Hm log'). Qed.

Create HintDb traced.
#[export] Hint Resolve traced_ret traced_raise traced_emit : traced.

Section Traced.
Variable json_loads : string → option (list pkg_json).
Variable w : World.

Lemma traced_run_brew_command args : traced (run_brew_command w args).
Proof.
  unfold run_brew_command. apply traced_bind; [apply traced_emit|]. intros _.
  destruct (subprocess_run w args); auto with traced.
Qed.

Lemma traced_get_installed_packages : traced (get_installed_packages w).
Proof.
  unfold get_installed_packages.
  apply traced_bind; [apply traced_run_brew_command|]. intros out1.
  apply traced_bind; [apply traced_run_brew_command|]. intros out2.
  apply traced_ret.
Qed.

Lemma traced_parse_brew_info n k : traced (BrewAnalyzer.parse_brew_info json_loads w n k).
Proof.
  unfold BrewAnalyzer.parse_brew_info.
  apply traced_bind; [apply traced_run_brew_command|]. intros out.
  destruct (negb _); [apply traced_ret|].
  destruct (json_loads out) as [[|? ?]|]; try apply traced_ret.
  destruct k; apply traced_ret.
Qed.

Lemma traced_analyze_packages_single self :
  traced (BrewAnalyzer.analyze_packages json_loads w self).
Proof.
  unfold BrewAnalyzer.analyze_packages.
  apply traced_bind; [apply traced_get_installed_packages|]. intros l.
  destruct l as [|pkg l]; [apply traced_ret|].
  apply traced_bind; [|intros; apply traced_ret].
  apply traced_for_each. intros s [n k]. unfold BrewAnalyzer.analyze_one.
  apply traced_bind; [apply traced_parse_brew_info|].
  intros [info|]; apply traced_ret.
Qed.

Import OptimizedBrewAnalyzer.

Lemma traced_fetch_api_data self : traced (fetch_api_data w self).
Proof.
  unfold fetch_api_data. destruct (_api_cache self); [apply traced_ret|].
  apply traced_bind; [apply traced_emit|]. intros _.
  destruct (http_json w formula_url) as [fl|]; [|apply traced_ret].
  destruct (index_by j_name fl ∅); [|apply traced_raise].
  apply traced_bind; [apply traced_emit|]. intros _.
  destruct (http_json w cask_url) as [cl|]; [|apply traced_ret].
  destruct (index_by j_token cl ∅); auto with traced.
Qed.

Lemma traced_query_batch flags key info names :
  traced (query_batch json_loads w flags key info names).
Proof.
  unfold query_batch. destruct names; [apply traced_ret|].
  apply traced_bind; [apply traced_run_brew_command|]. intros out.
  destruct (nonempty out); [|apply traced_ret].
  destruct (json_loads out); [|apply traced_ret].
  destruct (index_by _ _ _); apply traced_ret.
Qed.

Lemma traced_parse_brew_info_batch batch :
  traced (parse_brew_info_batch json_loads w batch).
Proof.
  unfold parse_brew_info_batch. destruct batch; [apply traced_ret|].
  apply traced_bind; [apply traced_query_batch|]. intros rf.
  apply traced_bind; [apply traced_query_batch|]. intros rc. apply traced_ret.
Qed.

Lemma traced_analyze_api l self : traced (analyze_api w l self).
Proof.
  unfold analyze_api. apply traced_bind; [apply traced_fetch_api_data|].
  intros [s [formulas casks]]. destruct (_ || _); apply traced_ret.
Qed.

Lemma traced_analyze_cli l self : traced (analyze_cli json_loads w l self).
Proof.
  unfold analyze_cli. destruct (batch_size self); auto with traced.
  apply traced_for_each. intros s i. unfold analyze_batch.
  apply traced_bind; [apply traced_parse_brew_info_batch|]. intros. apply traced_ret.
Qed.

Lemma traced_analyze_packages_optimized self :
  traced (analyze_packages json_loads w self).
Proof.
  unfold analyze_packages.
  apply traced_bind; [apply traced_get_installed_packages|]. intros l.
  destruct l as [|pkg l]; [apply traced_ret|].
  apply traced_bind.
  { destruct (use_api _); [apply traced_analyze_api|apply traced_ret]. }
  intros s1. apply traced_bind; [|intros; apply traced_ret].
  destruct (negb _); [apply traced_analyze_cli|apply traced_ret].
Qed.

End Traced.

(** *** The queries of a batch run *)

Lemma names_of_app k l1 l2 : names_of k (l1 ++ l2) = names_of k l1 ++ names_of k l2.
Proof. unfold names_of. by rewrite filter_app, fmap_app. Qed.

Lemma elem_of_names_of k l n : n ∈ names_of k l ↔ (n, k) ∈ l.
Proof.
  unfold names_of. rewrite list_elem_of_fmap. split.
  - intros ([n' k'] & -> & [Hk Hin]%list_elem_of_filter). simpl in *. by subst.
  - intros Hin. exists (n, k). split; [done|]. by apply list_elem_of_filter.
Qed.

Lemma issued_queries_nil b : issued_queries b [] = [].
Proof. unfold issued_queries. by rewrite batches_nil. Qed.

Lemma issued_queries_cons b l :
  0 < b → l ≠ [] →
  issued_queries b l = batch_queries (take b l) ++ issued_queries b (drop b l).
Proof. intros Hb Hl. unfold issued_queries. by rewrite batches_cons. Qed.

Lemma asked_app k qs1 qs2 : asked k (qs1 ++ qs2) = asked k qs1 ++ asked k qs2.
Proof. unfold asked. by rewrite filter_app, fmap_app, concat_app. Qed.

Lemma asked_batch_queries k batch : asked k (batch_queries batch) = names_of k batch.
Proof.
  unfold batch_queries, query_of. rewrite asked_app. unfold asked.
  destruct k, (names_of false batch) as [|f fs], (names_of true batch) as [|c cs];
    rewrite ?filter_nil, ?filter_cons; simpl; repeat case_decide; try congruence;
    simpl; by rewrite ?app_nil_r.
Qed.

Lemma asked_issued_queries k b l : 0 < b → asked k (issued_queries b l) = names_of k l.
Proof.
  intros Hb. induction l as [|l Hl IH] using (batches_ind b Hb).
  - by rewrite issued_queries_nil.
  - rewrite issued_queries_cons, asked_app, asked_batch_queries, IH by done.
    by rewrite <- names_of_app, take_drop.
Qed.

Lemma issued_queries_nonempty b l : Forall (λ q, q.2 ≠ []) (issued_queries b l).
Proof.
  unfold issued_queries. apply Forall_concat, Forall_fmap, Forall_forall.
  intros batch _. unfold batch_queries, query_of. apply Forall_app. split.
  - destruct (names_of false batch); by repeat constructor.
  - destruct (names_of true batch); by repeat constructor.
Qed.

Lemma length_batch_queries fs cs :
  length (batch_queries (enumerate fs cs))
  = ((if length fs =? 0 then 0 else 1) + (if length cs =? 0 then 0 else 1))%nat.
Proof.
  unfold batch_queries, query_of. rewrite length_app, !names_of_enumerate.
  by destruct fs, cs.
Qed.


Lemma length_issued_queries b fs cs :
  0 < b →
  length (issued_queries b (enumerate fs cs))
  = ceil_div (length fs + length cs) b + straddles b (length fs) (length cs).
Proof.
  intros Hb. remember (enumerate fs cs) as l eqn:El. revert fs cs El.
  induction l as [|l Hl IH] using (batches_ind b Hb); intros fs cs El.
  - rewrite issued_queries_nil. destruct fs, cs; try discriminate. simpl.
    rewrite ceil_div_0. unfold straddles. by rewrite Nat.Div0.mod_0_l.
  - subst l. rewrite issued_queries_cons, length_app by done.
    rewrite take_enumerate, length_batch_queries.
    rewrite (IH _ _ (drop_enumerate b fs cs)).
    rewrite !length_take, !length_drop.
    assert (0 < length fs + length cs) as Hpos.
    { destruct fs, cs; simpl; try lia. done. }
    rewrite (ceil_div_step (length fs + length cs) b) by done.
    unfold straddles.
    destruct (le_lt_dec b (length fs)) as [Hge|Hlt].
    + replace (length fs mod b) with ((length fs - b) mod b).
      2:{ replace (length fs) with ((length fs - b) + 1 * b) at 2 by lia.
          by rewrite Nat.Div0.mod_add. }
      replace (b - length fs) with 0 by lia. rewrite Nat.sub_0_r.
      replace (length fs - b + length cs) with (length fs + length cs - b) by lia.
      replace (b `min` length fs) with b by lia. simpl (0 `min` _).
      destruct (b =? 0)%nat eqn:E; [apply Nat.eqb_eq in E; lia|]. simpl. lia.
    + replace (length fs - b) with 0 by lia. rewrite Nat.Div0.mod_0_l. simpl (0 <? 0)%nat.
      rewrite (Nat.mod_small (length fs) b) by done.
      replace (0 + (length cs - (b - length fs))) with (length fs + length cs - b) by lia.
      replace (b `min` length fs) with (length fs) by lia.
      destruct (length fs) as [|nf] eqn:Ef.
      * simpl. rewrite Nat.sub_0_r.
        destruct (b `min` length cs =? 0)%nat eqn:E; [apply Nat.eqb_eq in E; lia|].
        simpl. lia.
      * simpl (S nf =? 0)%nat. simpl (0 <? S nf)%nat.
        destruct (length cs) as [|nc] eqn:Ec.
        -- rewrite Nat.min_0_r. simpl. lia.
        -- destruct ((b - S nf) `min` S nc =? 0)%nat eqn:E; [apply Nat.eqb_eq in E; lia|].
           simpl. lia.
Qed.

Section BatchRun.
Variable json_loads : string → option (list pkg_json).
Variable w : World.
Hypothesis Hfound : brew_found w = true.

Import OptimizedBrewAnalyzer.


Lemma zip_map {A B} (f : A → B) (l : list A) : zip l (map f l) = map (λ x, (x, f x)) l.
Proof. induction l; simpl; [done|]. by f_equal. Qed.

Lemma batch_entries_enumerate fs cs :
  batch_entries json_loads w (enumerate fs cs)
  = entry_of json_loads w (enumerate fs cs) <$> enumerate fs cs.
Proof.
  unfold batch_entries, batch_results. rewrite !names_of_enumerate.
  unfold enumerate at 1 3. rewrite !fmap_app, <- !list_fmap_compose.
  assert (∀ (k : bool) (ns : list string), (fst ∘ (λ n : string, (n, k))) <$> ns = ns)
    as Hfst.
  { intros k ns. induction ns; simpl; [done|]. by f_equal. }
  rewrite !Hfst, zip_with_app by (by rewrite length_map).
  rewrite !zip_map. f_equal; apply list_fmap_ext; intros i n _;
    unfold entry_of; simpl; by rewrite names_of_enumerate.
Qed.

Lemma batch_entries_aligned batch :
  formulas_first batch → batch_entries json_loads w batch = entry_of json_loads w batch <$> batch.
Proof.
  intros Hff. unfold formulas_first in Hff. rewrite Hff.
  apply batch_entries_enumerate.
Qed.

Lemma fst_cli_entries b fs cs :
  0 < b → (cli_entries json_loads w b (enumerate fs cs)).*1 = (enumerate fs cs).*1.
Proof.
  intros Hb. unfold cli_entries.
  rewrite <- (concat_batches b (enumerate fs cs) Hb) at 2.
  assert (∀ bs, Forall formulas_first bs →
            (concat (batch_entries json_loads w <$> bs)).*1 = (concat bs).*1) as Hbs.
  { induction 1 as [|batch bs Hff _ IH]; [done|].
    rewrite fmap_cons, !concat_cons, !fmap_app, IH. f_equal. rewrite batch_entries_aligned by done.
    rewrite <- list_fmap_compose. by apply list_fmap_ext. }
  apply Hbs, Forall_forall. intros batch Hin. by eapply batches_enumerate.
Qed.

Lemma elem_of_concat {A} (x : A) (l : list A) (ls : list (list A)) :
  l ∈ ls → x ∈ l → x ∈ concat ls.
Proof.
  induction 1 as [l ls|l l' ls _ IH]; intros Hx; simpl; apply elem_of_app; auto.
Qed.

Lemma elem_of_cli_entries b fs cs batch k n :
  0 < b → batch ∈ batches b (enumerate fs cs) → n ∈ names_of k batch →
  (n, batch_result json_loads w k (names_of k batch) n)
    ∈ cli_entries json_loads w b (enumerate fs cs).
Proof.
  intros Hb Hbatch Hn. unfold cli_entries.
  apply (elem_of_concat _ (batch_entries json_loads w batch));
    [by apply list_elem_of_fmap_2|].
  rewrite batch_entries_aligned by (by eapply batches_enumerate).
  apply elem_of_names_of in Hn.
  by apply (list_elem_of_fmap_2 (entry_of json_loads w batch) _ (n, k)).
Qed.

(** The state a batch run returns. *)
Lemma analyze_packages_cli_found self p :
  use_api self = false → batch_size self = Zpos p →
  ∃ self' calls,
    runs (analyze_packages json_loads w self) (Returns self') calls ∧
    packages self'
    = foldl put (packages self) (cli_entries json_loads w (Pos.to_nat p) (installed_list w)).
Proof.
  intros Hapi Hb. unfold analyze_packages.
  destruct (installed_list w) as [|pkg l] eqn:El.
  - exists self. eexists. split.
    + eapply runs_bind; [by apply get_installed_packages_found|].
      rewrite El. apply runs_ret.
    + unfold cli_entries. by rewrite batches_nil.
  - eexists _, _. split.
    + eapply runs_bind; [by apply get_installed_packages_found|]. rewrite El.
      change (use_api (set_installed_packages self _)) with (use_api self).
      rewrite Hapi.
      eapply runs_bind; [apply runs_ret|].
      change (use_api (set_installed_packages self _)) with (use_api self).
      rewrite Hapi. simpl negb. cbv iota.
      eapply runs_bind; [by apply analyze_cli_found|]. apply runs_ret.
    + done.
Qed.
End BatchRun.

Section BatchProperties.
Variable json_loads : string → option (list pkg_json).
Variable w : World.
Import OptimizedBrewAnalyzer.



(** C2, amended.  For an installed list of the formulas [fs] followed by
    the casks [cs] and a batch size [p > 0], the batch strategy issues
    exactly [ceil((F+C)/p)] queries, and one more when a slice holds both
    kinds ([F mod p <> 0] and [C > 0]); the names asked for with the
    formula flag are, in order, exactly [fs], those asked for with the
    cask flag exactly [cs], and no query is empty. *)
Theorem batch_queries_issued (fs cs : list string) (p : positive) (self : state)
    (log : list call) :
  brew_found w = true →
  batch_size self = Zpos p →
  ∃ issued : list (bool * list string),
    (analyze_cli json_loads w (enumerate fs cs) self log).2
      = log ++ (query_call <$> issued) ∧
    length issued
      = ceil_div (length fs + length cs) (Pos.to_nat p)
        + straddles (Pos.to_nat p) (length fs) (length cs) ∧
    asked false issued = fs ∧
    asked true issued = cs ∧
    Forall (λ q, q.2 ≠ []) issued.
Proof.
  intros Hfound Hb. exists (issued_queries (Pos.to_nat p) (enumerate fs cs)).
  assert (0 < Pos.to_nat p) as Hp by lia.
  rewrite (analyze_cli_found json_loads w Hfound _ self p Hb log).
  split; [done|]. split; [by apply length_issued_queries|].
  rewrite !asked_issued_queries, !names_of_enumerate by done.
  split; [done|]. split; [done|]. apply issued_queries_nonempty.
Qed.
End BatchProperties.


Lemma length_names_of l : length (names_of false l) + length (names_of true l) = length l.
Proof.
  unfold names_of. rewrite !length_fmap.
  induction l as [|[n [|]] l IH]; simpl; [done|..];
    rewrite !filter_cons; simpl; repeat case_decide; try congruence; simpl; lia.
Qed.

Lemma kind_info_name k n o : name (kind_info k n o) = n.
Proof. by destruct k. Qed.

Lemma kind_info_is_cask k n o : is_cask (kind_info k n o) = k.
Proof. by destruct k. Qed.

Lemma Forall2_own_inv k (f : string → option PackageInfo) ns : ∀ b,
  (∀ n, n ∈ ns → ∃ o, f n = Some (kind_info k n o)) →
  Forall2 own b (map f ns) → b = map (λ n, (n, k)) ns.
Proof.
  induction ns as [|n ns IH]; intros b Hf Hb; simpl in *.
  - by apply Forall2_nil_inv_r in Hb.
  - apply Forall2_cons_inv_r in Hb as ([n' k'] & b' & Hown & Hb' & ->).
    destruct (Hf n) as [o Ho]; [left|]. rewrite Ho in Hown. simpl in Hown.
    rewrite kind_info_name, kind_info_is_cask in Hown. destruct Hown as [-> ->].
    f_equal. apply IH; [|done]. intros m Hm. apply Hf. by right.
Qed.

Lemma index_by_total key objs : ∀ acc,
  Forall (λ o, is_Some (key o)) objs →
  ∃ data, index_by key objs acc = Some data ∧
    (∀ n, is_Some (acc !! n) → is_Some (data !! n)) ∧
    (∀ o n, o ∈ objs → key o = Some n → is_Some (data !! n)).
Proof.
  induction objs as [|o objs IH]; intros acc Hall; simpl.
  - exists acc. split; [done|]. split; [done|]. by intros o n ?%elem_of_nil.
  - apply Forall_cons in Hall as [[n Hn] Hall]. rewrite Hn.
    destruct (IH (<[n := o]> acc) Hall) as (data & Hd & Hacc & Hobjs).
    exists data. split; [done|]. split.
    + intros m Hm. apply Hacc. destruct (decide (n = m)) as [->|Hne].
      * rewrite lookup_insert_eq. by eexists.
      * by rewrite lookup_insert_ne.
    + intros o' m [->|Hin]%elem_of_cons Hk; [|by eapply Hobjs].
      apply Hacc. rewrite Hn in Hk. injection Hk as ->.
      rewrite lookup_insert_eq. by eexists.
Qed.

Lemma echo_batch_result batch k names n :
  n ∈ batch.*1 →
  ∃ o, batch_result (echo_loads batch) echo_world k names n = Some (kind_info k n o).
Proof.
  intros Hn. unfold batch_result, batch_data.
  change (brew_output echo_world (info_args k names)) with (strip "x").
  replace (strip "x") with "x" by (by vm_compute). simpl nonempty. cbv iota.
  unfold echo_loads.
  destruct (index_by_total (kind_key k) (echo_object <$> batch) ∅)
    as (data & -> & _ & Hdata).
  { apply Forall_fmap, Forall_forall. intros pkg _. simpl. destruct k; by eexists. }
  apply list_elem_of_fmap in Hn as (pkg & -> & Hpkg).
  destruct (Hdata (echo_object pkg) pkg.1) as [o Ho].
  - by apply list_elem_of_fmap_2.
  - by destruct k.
  - rewrite Ho. by exists o.
Qed.

Lemma names_of_subseteq k batch n : n ∈ names_of k batch → n ∈ batch.*1.
Proof.
  intros Hn%elem_of_names_of. apply list_elem_of_fmap. by exists (n, k).
Qed.

Lemma post_raises {A} (m : Run A) e c (Q : A → Prop) : runs m (Raises e) c → post m Q.
Proof. intros Hm log a log'. by rewrite Hm. Qed.

Lemma post_and {A} (m : Run A) (Q1 Q2 : A → Prop) :
  post m Q1 → post m Q2 → post m (λ a, Q1 a ∧ Q2 a).
Proof. intros H1 H2 log a log' E. split; eauto. Qed.

Section Installed.
Variable json_loads : string → option (list pkg_json).
Variable w : World.

Lemma post_get_installed_packages_list :
  post (get_installed_packages w) (λ l, l = installed_list w).
Proof.
  destruct (brew_found w) eqn:Hf.
  - by eapply runs_post; [by apply get_installed_packages_found|].
  - eapply post_raises. by apply get_installed_packages_missing.
Qed.

Lemma post_analyze_packages_single_installed :
  post (BrewAnalyzer.analyze_packages json_loads w BrewAnalyzer.init)
       (λ self, BrewAnalyzer.installed_packages self
                = list_to_set (installed_list w).*1).
Proof.
  unfold BrewAnalyzer.analyze_packages. apply post_bind.
  eapply post_mono; [apply post_get_installed_packages_list|]. intros l ->.
  destruct (installed_list w) as [|pkg l]; [by apply post_ret|].
  apply post_bind. eapply post_mono.
  - apply (post_for_each _
      (λ s, BrewAnalyzer.installed_packages s = list_to_set (pkg :: l).*1));
      [|done].
    intros s [n k] _ Hs. unfold BrewAnalyzer.analyze_one.
    apply post_bind. intros log r log' _. by destruct r; apply post_ret.
  - intros s Hs. by apply post_ret.
Qed.

Import OptimizedBrewAnalyzer.

Lemma installed_packages_store self n r :
  installed_packages (store self n r) = installed_packages self.
Proof. by destruct r. Qed.

Lemma post_analyze_api_installed l self :
  post (analyze_api w l self)
       (λ self', installed_packages self' = installed_packages self).
Proof.
  unfold analyze_api. apply post_bind.
  apply post_fetch_api_data; intros formulas casks;
    (destruct (_ || _); apply post_ret; [|done]).
  - generalize self. induction l as [|[n k] l IH]; intros s; simpl; [done|].
    by rewrite IH, installed_packages_store.
  - change (installed_packages self)
      with (installed_packages (set_api_cache self (Some (formulas, casks)))).
    generalize (set_api_cache self (Some (formulas, casks))).
    induction l as [|[n k] l IH]; intros s; simpl; [done|].
    by rewrite IH, installed_packages_store.
Qed.

Lemma post_analyze_cli_installed l self :
  post (analyze_cli json_loads w l self)
       (λ self', installed_packages self' = installed_packages self).
Proof.
  unfold analyze_cli.
  destruct (batch_size self); [apply post_raise| |by apply post_ret].
  apply (post_for_each _ (λ s, installed_packages s = installed_packages self));
    [|done].
  intros s i _ Hs. unfold analyze_batch. apply post_bind.
  intros log results log' _. apply post_ret. rewrite <- Hs.
  generalize (zip (slice l i (Pos.to_nat p)) results). generalize s. clear.
  intros s entries. revert s.
  induction entries as [|[[n k] r] entries IH]; intros s; simpl; [done|].
  by rewrite IH, installed_packages_store.
Qed.

Lemma post_analyze_packages_optimized_installed use_api batch_size :
  post (analyze_packages json_loads w (init use_api batch_size))
       (λ self, installed_packages self = list_to_set (installed_list w).*1).
Proof.
  unfold analyze_packages. apply post_bind.
  eapply post_mono; [apply post_get_installed_packages_list|]. intros l ->.
  destruct (installed_list w) as [|pkg l]; [by apply post_ret|].
  set (S0 := list_to_set (pkg :: l).*1 : gset string).
  apply post_bind.
  eapply (post_mono _ (λ s, installed_packages s = S0)).
  { destruct (OptimizedBrewAnalyzer.use_api _);
      [apply post_analyze_api_installed|by apply post_ret]. }
  intros s1 Hs1. apply post_bind.
  eapply (post_mono _ (λ s, installed_packages s = S0)).
  { destruct (negb _); [|by apply post_ret].
    eapply post_mono; [apply post_analyze_cli_installed|]. intros s. by rewrite Hs1. }
  intros s2 Hs2. by apply post_ret.
Qed.
End Installed.

(** C7. [check_dependency_status] answers [Present] exactly for the members
    of [installed_packages] and [Missing] for every other name; replacing
    the catalog of an analyzer does not change the answer; and after a run
    the names that classify as [Present] are exactly the enumerated ones,
    whether or not they got a catalog entry. *)
Theorem dependency_status_is_membership (installed : gset string) (D : string) :
  (check_dependency_status installed D = Present ↔ D ∈ installed) ∧
  (check_dependency_status installed D = Missing ↔ D ∉ installed) ∧
  (∀ (self : BrewAnalyzer.state) catalog,
     check_dependency_status
       (BrewAnalyzer.installed_packages (BrewAnalyzer.set_packages self catalog)) D
     = check_dependency_status (BrewAnalyzer.installed_packages self) D) ∧
  (∀ (self : OptimizedBrewAnalyzer.state) catalog,
     check_dependency_status
       (OptimizedBrewAnalyzer.installed_packages
          (OptimizedBrewAnalyzer.set_packages self catalog)) D
     = check_dependency_status (OptimizedBrewAnalyzer.installed_packages self) D) ∧
  (∀ json_loads w,
     post (BrewAnalyzer.analyze_packages json_loads w BrewAnalyzer.init)
       (λ self, check_dependency_status (BrewAnalyzer.installed_packages self) D = Present
                ↔ D ∈ (installed_list w).*1)) ∧
  (∀ json_loads w use_api batch_size,
     post (OptimizedBrewAnalyzer.analyze_packages json_loads w
             (OptimizedBrewAnalyzer.init use_api batch_size))
       (λ self,
          check_dependency_status (OptimizedBrewAnalyzer.installed_packages self) D
          = Present ↔ D ∈ (installed_list w).*1)).
Proof.
  assert (∀ S : gset string, check_dependency_status S D = Present ↔ D ∈ S) as Hp.
  { intros S. unfold check_dependency_status. by case_decide. }
  split; [apply Hp|]. split.
  { unfold check_dependency_status. by case_decide. }
  split; [done|]. split; [done|]. split.
  - intros json_loads w.
    eapply post_mono; [apply post_analyze_packages_single_installed|].
    intros self ->. rewrite Hp. apply elem_of_list_to_set.
  - intros json_loads w use_api batch_size.
    eapply post_mono; [apply post_analyze_packages_optimized_installed|].
    intros self ->. rewrite Hp. apply elem_of_list_to_set.
Qed.

(** C9. A record made for a cask has no build and no runtime dependencies,
    whatever the response holds: the record of [parse_brew_info] for a
    cask, that of [parse_api_data] for a cask, the results
    [parse_brew_info_batch] gives for the casks of a batch, and every cask
    record in the catalog after a run of either analyzer under any
    strategy. *)
Theorem cask_records_have_no_dependencies
    (json_loads : string → option (list pkg_json)) (w : World) :
  (∀ n, post (BrewAnalyzer.parse_brew_info json_loads w n true)
          (λ r, ∀ info, r = Some info →
                  build_dependencies info = [] ∧ runtime_dependencies info = [])) ∧
  (∀ n formulas casks info,
     OptimizedBrewAnalyzer.parse_api_data n true formulas casks = Some info →
     build_dependencies info = [] ∧ runtime_dependencies info = []) ∧
  (∀ batch,
     post (OptimizedBrewAnalyzer.parse_brew_info_batch json_loads w batch)
       (λ results, ∃ rf rc, results = rf ++ rc ∧
          length rf = length (names_of false batch) ∧
          Forall2 (λ n r, ∀ info, r = Some info →
                     name info = n ∧ is_cask info = true ∧
                     build_dependencies info = [] ∧ runtime_dependencies info = [])
                  (names_of true batch) rc)) ∧
  post (BrewAnalyzer.analyze_packages json_loads w BrewAnalyzer.init)
    (λ self, ∀ n info, BrewAnalyzer.packages self !! n = Some info →
               is_cask info = true →
               build_dependencies info = [] ∧ runtime_dependencies info = []) ∧
  (∀ use_api batch_size,
     post (OptimizedBrewAnalyzer.analyze_packages json_loads w
             (OptimizedBrewAnalyzer.init use_api batch_size))
       (λ self, ∀ n info, OptimizedBrewAnalyzer.packages self !! n = Some info →
                  is_cask info = true →
                  build_dependencies info = [] ∧ runtime_dependencies info = [])).
Proof.
  assert (∀ n r info, sound (n, true) r → r = Some info →
            name info = n ∧ is_cask info = true ∧
            build_dependencies info = [] ∧ runtime_dependencies info = []) as Hsound.
  { intros n r info [Hown Hbare] ->. destruct Hown as [Hn Hk]. simpl in *.
    split; [done|]. split; [done|]. by apply (Hbare info eq_refl). }
  split; [|split; [|split; [|split]]].
  - intros n. eapply post_mono; [apply post_parse_brew_info|].
    intros r Hr info Hi. by destruct (Hsound n r info Hr Hi) as (_ & _ & ?).
  - intros n formulas casks info Hi.
    by destruct (Hsound n _ info (sound_parse_api_data n true formulas casks) Hi)
      as (_ & _ & ?).
  - intros batch. eapply post_mono; [apply post_parse_brew_info_batch|].
    intros results (rf & rc & -> & Hf & Hc). exists rf, rc. split; [done|]. split.
    + symmetry. by eapply Forall2_length.
    + eapply Forall2_impl; [exact Hc|]. intros n r Hr info Hi. exact (Hsound n r info Hr Hi).
  - eapply post_mono;
      [apply post_analyze_packages_single, catalog_ok_empty|].
    intros self Hok n info Hn Hk. by apply (Hok n info Hn).
  - intros use_api batch_size.
    eapply post_mono;
      [apply post_analyze_packages_optimized, catalog_ok_empty|].
    intros self Hok n info Hn Hk. by apply (Hok n info Hn).
Qed.


Lemma foldl_put_lookup_const entries n r0 : ∀ m : gmap string PackageInfo,
  (∀ r, (n, r) ∈ entries → r = r0) → n ∈ entries.*1 →
  foldl put m entries !! n = match r0 with Some info => Some info | None => m !! n end.
Proof.
  induction entries as [|[n' r'] entries IH]; intros m Hall Hin; simpl.
  - by apply elem_of_nil in Hin.
  - assert (put m (n', r') !! n
            = if decide (n' = n) then match r0 with Some i => Some i | None => m !! n end
              else m !! n) as Hput.
    { unfold put. simpl. case_decide as Hn.
      - subst n'. rewrite (Hall r') by left. destruct r0; [|done].
        by rewrite lookup_insert_eq.
      - destruct r'; [|done]. by rewrite lookup_insert_ne. }
    destruct (decide (n ∈ entries.*1)) as [Hrest|Hrest].
    + rewrite IH; [|intros r Hr; apply Hall; by right|done].
      destruct r0; [done|]. rewrite Hput. by case_decide.
    + rewrite foldl_put_lookup_notin by done. rewrite Hput.
      rewrite fmap_cons in Hin. apply elem_of_cons in Hin as [->|?]; [|done].
      simpl. by rewrite decide_True.
Qed.

Section SameName.
Variable json_loads : string → option (list pkg_json).
Variable w : World.

Lemma single_entries_of_kind k (ns : list string) n r :
  (n, r) ∈ single_entry json_loads w <$> map (λ pkg, (pkg, k)) ns →
  r = single_result json_loads w n k.
Proof.
  intros (pkg & Heq & Hpkg)%list_elem_of_fmap.
  apply list_elem_of_fmap in Hpkg as (m & -> & _).
  unfold single_entry in Heq. simpl in Heq. by injection Heq as -> ->.
Qed.

Lemma single_entries_names k (ns : list string) n :
  n ∈ ns → n ∈ (single_entry json_loads w <$> map (λ pkg, (pkg, k)) ns).*1.
Proof.
  intros Hn. apply list_elem_of_fmap. exists (n, single_result json_loads w n k).
  split; [done|]. apply list_elem_of_fmap. exists (n, k). split; [done|].
  by apply (list_elem_of_fmap_2 (λ pkg, (pkg, k))).
Qed.

(** C5, amended.  A name listed both as a formula and as a cask gives two
    identities, and brewinfo.py queries each under its own flag; but the
    catalog is keyed by the name alone: every record is stored under its
    own name, so at most one record of that name remains, the cask's when
    the cask resolves and the formula's result otherwise.  Records are
    stored under their own name by the optimized analyzer as well. *)
Theorem same_name_keeps_one_record (n : string) (log : list call) :
  brew_found w = true →
  n ∈ listed w "--formula" → n ∈ listed w "--cask" →
  (n, false) ∈ installed_list w ∧ (n, true) ∈ installed_list w ∧
  (∃ self calls,
     BrewAnalyzer.analyze_packages json_loads w BrewAnalyzer.init log
       = (Returns self, log ++ calls) ∧
     Brew (info_args false [n]) ∈ calls ∧ Brew (info_args true [n]) ∈ calls ∧
     (∀ k info, BrewAnalyzer.packages self !! k = Some info → name info = k) ∧
     BrewAnalyzer.packages self !! n
     = match single_result json_loads w n true with
       | Some cask => Some cask
       | None => single_result json_loads w n false
       end) ∧
  (∀ use_api batch_size,
     post (OptimizedBrewAnalyzer.analyze_packages json_loads w
             (OptimizedBrewAnalyzer.init use_api batch_size))
       (λ self, ∀ k info,
          OptimizedBrewAnalyzer.packages self !! k = Some info → name info = k)).
Proof.
  intros Hf Hfs Hcs.
  assert ((n, false) ∈ installed_list w) as Hnf.
  { apply elem_of_app. left. by apply (list_elem_of_fmap_2 (λ pkg, (pkg, false))). }
  assert ((n, true) ∈ installed_list w) as Hnc.
  { apply elem_of_app. right. by apply (list_elem_of_fmap_2 (λ pkg, (pkg, true))). }
  split; [done|]. split; [done|]. split.
  - pose proof (analyze_packages_found json_loads w Hf BrewAnalyzer.init) as Hrun.
    eexists _, _. split; [apply Hrun|].
    destruct (installed_list w) as [|pkg l] eqn:El; [by apply elem_of_nil in Hnf|].
    rewrite <- El in *. split; [|split; [|split]].
    + apply elem_of_app. right.
      by apply (list_elem_of_fmap_2 (λ pkg, Brew (info_args pkg.2 [pkg.1])) _ (n, false)).
    + apply elem_of_app. right.
      by apply (list_elem_of_fmap_2 (λ pkg, Brew (info_args pkg.2 [pkg.1])) _ (n, true)).
    + intros k info Hk.
      eapply (post_analyze_packages_single json_loads w BrewAnalyzer.init
                catalog_ok_empty); [apply (Hrun log)|done].
    + unfold analyzed. rewrite El. rewrite <- El. simpl.
      unfold installed_list, enumerate. rewrite fmap_app, foldl_app.
      rewrite (foldl_put_lookup_const _ n (single_result json_loads w n true));
        [|apply single_entries_of_kind|by apply single_entries_names].
      destruct (single_result json_loads w n true); [done|].
      rewrite (foldl_put_lookup_const _ n (single_result json_loads w n false));
        [|apply single_entries_of_kind|by apply single_entries_names].
      by destruct (single_result json_loads w n false).
  - intros use_api batch_size.
    eapply post_mono; [apply post_analyze_packages_optimized, catalog_ok_empty|].
    intros self Hok k info Hk. by apply (Hok k info Hk).
Qed.
End SameName.

(** In [twin_world] the formula [x] and the cask [x] both resolve, and
    the catalog of either analyzer holds no formula record named [x]. *)
Lemma same_name_not_both_represented :
  ("x", false) ∈ installed_list twin_world ∧
  ("x", true) ∈ installed_list twin_world ∧
  (∃ formula,
     (BrewAnalyzer.parse_brew_info example_loads twin_world "x" false []).1
     = Returns (Some formula)) ∧
  (∃ cask,
     (BrewAnalyzer.parse_brew_info example_loads twin_world "x" true []).1
     = Returns (Some cask)) ∧
  (∃ self,
     (BrewAnalyzer.analyze_packages example_loads twin_world BrewAnalyzer.init []).1
     = Returns self ∧
     ¬ ∃ n info, BrewAnalyzer.packages self !! n = Some info ∧
                 name info = "x" ∧ is_cask info = false) ∧
  (∃ self,
     (OptimizedBrewAnalyzer.analyze_packages example_loads twin_world
        (OptimizedBrewAnalyzer.init false 50) []).1 = Returns self ∧
     ¬ ∃ n info, OptimizedBrewAnalyzer.packages self !! n = Some info ∧
                 name info = "x" ∧ is_cask info = false).
Proof.
  split; [vm_compute; left|]. split; [vm_compute; right; left|].
  split; [eexists; by vm_compute|]. split; [eexists; by vm_compute|]. split.
  - pose proof (analyze_packages_found example_loads twin_world eq_refl
                  BrewAnalyzer.init []) as Hrun.
    eexists. split; [by rewrite Hrun|]. intros (n & info & Hn & Hname & Hk).
    assert (name info = n) as Hkey.
    { eapply (post_analyze_packages_single example_loads twin_world BrewAnalyzer.init
                catalog_ok_empty); [apply Hrun|done]. }
    rewrite Hname in Hkey. subst n. vm_compute in Hn. injection Hn as <-. done.
  - destruct (analyze_packages_cli_found example_loads twin_world eq_refl
                (OptimizedBrewAnalyzer.init false 50) 50 eq_refl eq_refl)
      as (self & calls & Hrun & Hpk).
    exists self. split; [by rewrite Hrun|]. intros (n & info & Hn & Hname & Hk).
    assert (name info = n) as Hkey.
    { eapply (post_analyze_packages_optimized example_loads twin_world
                (OptimizedBrewAnalyzer.init false 50) catalog_ok_empty);
        [apply (Hrun [])|done]. }
    rewrite Hname in Hkey. subst n. rewrite Hpk in Hn. vm_compute in Hn.
    injection Hn as <-. done.
Qed.

(** One formula and two casks with batch size 2: three queries are
    issued, where [ceil(1/2) + ceil(2/2)] is two. *)
Lemma batch_query_count_differs :
  let issued :=
    (OptimizedBrewAnalyzer.analyze_cli example_loads example_world
       (enumerate ["f1"] ["c1"; "c2"]) (OptimizedBrewAnalyzer.init false 2) []).2 in
  length issued = 3 ∧
  ceil_div (length ["f1"]) 2 + ceil_div (length ["c1"; "c2"]) 2 = 2 ∧
  length issued ≠ ceil_div (length ["f1"]) 2 + ceil_div (length ["c1"; "c2"]) 2.
Proof. vm_compute. split; [done|]. split; [done|]. discriminate. Qed.

Lemma batch_queries_issued_witness :
  ∃ issued : list (bool * list string),
    (OptimizedBrewAnalyzer.analyze_cli example_loads example_world
       (enumerate ["f1"] ["c1"; "c2"]) (OptimizedBrewAnalyzer.init false 2) []).2
    = [] ++ (query_call <$> issued) ∧
    length issued = ceil_div (length ["f1"] + length ["c1"; "c2"]) (Pos.to_nat 2)
                    + straddles (Pos.to_nat 2) (length ["f1"]) (length ["c1"; "c2"]) ∧
    asked false issued = ["f1"] ∧
    asked true issued = ["c1"; "c2"] ∧
    Forall (λ q, q.2 ≠ []) issued.
Proof.
  apply (batch_queries_issued example_loads example_world ["f1"] ["c1"; "c2"] 2
           (OptimizedBrewAnalyzer.init false 2) []); reflexivity.
Defined.

Lemma same_name_keeps_one_record_witness :
  ("x", false) ∈ installed_list twin_world ∧ ("x", true) ∈ installed_list twin_world ∧
  (∃ self calls,
     BrewAnalyzer.analyze_packages example_loads twin_world BrewAnalyzer.init []
       = (Returns self, [] ++ calls) ∧
     Brew (info_args false ["x"]) ∈ calls ∧ Brew (info_args true ["x"]) ∈ calls ∧
     (∀ k info, BrewAnalyzer.packages self !! k = Some info → name info = k) ∧
     BrewAnalyzer.packages self !! "x"
     = match single_result example_loads twin_world "x" true with
       | Some cask => Some cask
       | None => single_result example_loads twin_world "x" false
       end) ∧
  (∀ use_api batch_size,
     post (OptimizedBrewAnalyzer.analyze_packages example_loads twin_world
             (OptimizedBrewAnalyzer.init use_api batch_size))
       (λ self, ∀ k info,
          OptimizedBrewAnalyzer.packages self !! k = Some info → name info = k)).
Proof.
  apply (same_name_keeps_one_record example_loads twin_world "x" []).
  - reflexivity.
  - vm_compute. left.
  - vm_compute. left.
Defined.

(** * Further properties *)

(** ** The reverse index, from any starting index *)

Lemma rev_lookup_build_any (packages : gmap string PackageInfo) rd0 (D P : string) :
  P ∈ rev_lookup (build_reverse_dependencies packages rd0) D ↔
  P ∈ rev_lookup rd0 D ∨
  ∃ pkg_info, packages !! P = Some pkg_info ∧
    (D ∈ build_dependencies pkg_info ∨ D ∈ runtime_dependencies pkg_info).
Proof.
  unfold build_reverse_dependencies. revert D P.
  apply (map_fold_weak_ind
    (λ rd (m : gmap string PackageInfo), ∀ D P : string, P ∈ rev_lookup rd D ↔
       P ∈ rev_lookup rd0 D ∨
       ∃ pkg_info, m !! P = Some pkg_info ∧
         (D ∈ build_dependencies pkg_info ∨ D ∈ runtime_dependencies pkg_info))).
  - intros D P. split; [by left|]. intros [?|(i & Hi & _)]; [done|].
    by rewrite lookup_empty in Hi.
  - intros k info m rd Hk IH D P. rewrite rev_lookup_add_package, IH. split.
    + intros [[?|(i & Hi & HD)]|[-> HD]].
      * by left.
      * right. exists i. split; [|done]. rewrite lookup_insert_ne; [done|].
        intros ->. congruence.
      * right. exists info. by rewrite lookup_insert_eq.
    + intros [?|(i & Hi & HD)]; [by left; left|].
      destruct (decide (k = P)) as [->|Hne].
      * rewrite lookup_insert_eq in Hi. right. naive_solver.
      * rewrite lookup_insert_ne in Hi by done. left. right. eauto.
Qed.

Lemma no_empty_entry_rev_add pkg_name rd dep :
  no_empty_entry rd → no_empty_entry (rev_add pkg_name rd dep).
Proof.
  intros Hrd D S. unfold rev_add. destruct (decide (dep = D)) as [->|Hne].
  - rewrite lookup_insert_eq. intros [= <-]. set_solver.
  - rewrite lookup_insert_ne by done. apply Hrd.
Qed.

Lemma no_empty_entry_foldl pkg_name deps : ∀ rd,
  no_empty_entry rd → no_empty_entry (foldl (rev_add pkg_name) rd deps).
Proof.
  induction deps as [|dep deps IH]; intros rd Hrd; simpl; [done|].
  by apply IH, no_empty_entry_rev_add.
Qed.

Lemma no_empty_entry_build packages rd :
  no_empty_entry rd → no_empty_entry (build_reverse_dependencies packages rd).
Proof.
  intros Hrd. unfold build_reverse_dependencies.
  apply (map_fold_weak_ind (λ rd' (_ : gmap string PackageInfo), no_empty_entry rd'));
    [done|].
  intros k info m r _ Hr. unfold add_package. by do 2 apply no_empty_entry_foldl.
Qed.

Lemma rev_lookup_nonempty rd D :
  no_empty_entry rd → (is_Some (rd !! D) ↔ rev_lookup rd D ≠ ∅).
Proof.
  intros Hrd. unfold rev_lookup. destruct (rd !! D) as [S|] eqn:E; simpl.
  - split; [intros _; by eapply Hrd|by eexists].
  - split; [by intros [? ?]|done].
Qed.

(** X1. From any index it starts with, [build_reverse_dependencies] gives
    the old members of every entry together with the transpose of the
    catalog: it never removes a member, and building again over the same
    catalog changes no entry. *)
Theorem build_reverse_dependencies_accumulates
    (packages : gmap string PackageInfo) (rd : gmap string (gset string)) :
  (∀ D P, P ∈ rev_lookup (build_reverse_dependencies packages rd) D ↔
          P ∈ rev_lookup rd D ∨
          ∃ pkg_info, packages !! P = Some pkg_info ∧
            (D ∈ build_dependencies pkg_info ∨ D ∈ runtime_dependencies pkg_info)) ∧
  (∀ D, rev_lookup rd D ⊆ rev_lookup (build_reverse_dependencies packages rd) D) ∧
  (∀ D, rev_lookup
          (build_reverse_dependencies packages (build_reverse_dependencies packages rd)) D
        = rev_lookup (build_reverse_dependencies packages rd) D).
Proof.
  split; [intros D P; apply rev_lookup_build_any|]. split.
  - intros D P HP. apply rev_lookup_build_any. by left.
  - intros D. apply set_eq. intros P. rewrite !rev_lookup_build_any. naive_solver.
Qed.

(** X2. Built from the empty index, the reverse index has an entry for
    exactly the names that some record lists as a build or runtime
    dependency, and no entry is an empty set. *)
Theorem reverse_index_keys (packages : gmap string PackageInfo) (D : string) :
  let reverse_index := build_reverse_dependencies packages ∅ in
  (is_Some (reverse_index !! D) ↔
   ∃ P pkg_info, packages !! P = Some pkg_info ∧
     (D ∈ build_dependencies pkg_info ∨ D ∈ runtime_dependencies pkg_info)) ∧
  (∀ S, reverse_index !! D = Some S → S ≠ ∅).
Proof.
  simpl. assert (no_empty_entry (build_reverse_dependencies packages ∅)) as Hne.
  { apply no_empty_entry_build. intros D' S. by rewrite lookup_empty. }
  split; [|apply Hne].
  rewrite rev_lookup_nonempty by done. split.
  - intros [P HP]%set_choose_L. apply rev_lookup_build_reverse_dependencies in HP.
    by exists P.
  - intros (P & info & HP & HD).
    assert (P ∈ rev_lookup (build_reverse_dependencies packages ∅) D) as Hin.
    { apply rev_lookup_build_reverse_dependencies. by exists info. }
    set_solver.
Qed.

(** ** What a run keeps *)

Lemma catalog_from_empty l : catalog_from l ∅.
Proof. intros n info H. by rewrite lookup_empty in H. Qed.

Lemma catalog_from_insert l m n k info :
  (n, k) ∈ l → own (n, k) (Some info) → catalog_from l m →
  catalog_from l (<[n := info]> m).
Proof.
  intros Hin [Hn Hk] Hm n' info'. simpl in *. destruct (decide (n = n')) as [->|Hne].
  - rewrite lookup_insert_eq. intros [= <-]. by rewrite Hk.
  - rewrite lookup_insert_ne by done. apply Hm.
Qed.

Lemma build_reverse_dependencies_empty rd :
  build_reverse_dependencies ∅ rd = rd.
Proof. unfold build_reverse_dependencies. apply map_fold_empty. Qed.

Lemma slice_subseteq {A} (l : list A) i b : slice l i b ⊆ l.
Proof.
  unfold slice. etrans; [apply subseteq_take|apply subseteq_drop].
Qed.

Section Resolving.
Variable json_loads : string → option (list pkg_json).
Variable w : World.

Lemma post_analyze_one_resolving l self pkg :
  pkg ∈ l → resolving_basic l self →
  post (BrewAnalyzer.analyze_one json_loads w self pkg) (resolving_basic l).
Proof.
  intros Hin (Hc & Hr & Hi). destruct pkg as [n k]. unfold BrewAnalyzer.analyze_one.
  apply post_bind. eapply post_mono; [apply post_parse_brew_info|].
  intros r [Hown _]. destruct r as [info|]; apply post_ret; [|done].
  split; [|done]. by apply (catalog_from_insert l _ n k).
Qed.

Lemma post_analyze_packages_single_resolved :
  post (BrewAnalyzer.analyze_packages json_loads w BrewAnalyzer.init)
    (resolved_basic (installed_list w)).
Proof.
  unfold BrewAnalyzer.analyze_packages. apply post_bind.
  eapply post_mono; [apply post_get_installed_packages_list|]. intros l ->.
  destruct (installed_list w) as [|pkg l] eqn:El.
  { apply post_ret. split; [apply catalog_from_empty|]. split; [|by left].
    by rewrite build_reverse_dependencies_empty. }
  apply post_bind. eapply post_mono.
  - apply (post_for_each _ (resolving_basic (pkg :: l))).
    + intros s x Hx Hs. by apply post_analyze_one_resolving.
    + split; [apply catalog_from_empty|done].
  - intros s (Hc & Hr & Hi). apply post_ret. unfold resolved_basic. simpl.
    rewrite Hr. split; [done|]. split; [done|by right].
Qed.

Import OptimizedBrewAnalyzer.

Lemma resolving_store l self n k r :
  (n, k) ∈ l → own (n, k) r → resolving_optimized l self →
  resolving_optimized l (store self n r).
Proof.
  intros Hin Hown (Hc & Hr & Hi). destruct r as [info|]; [|done].
  split; [|done]. by apply (catalog_from_insert l _ n k).
Qed.

Lemma resolving_foldl_api l formulas casks l' : ∀ self,
  l' ⊆ l → resolving_optimized l self →
  resolving_optimized l
    (foldl (λ self '(package_name, is_cask),
              store self package_name
                (parse_api_data package_name is_cask formulas casks)) self l').
Proof.
  induction l' as [|[n k] l' IH]; intros self Hsub Hs; simpl; [done|].
  apply IH; [set_solver|].
  apply (resolving_store l _ n k); [set_solver| |done].
  apply sound_parse_api_data.
Qed.

Lemma post_analyze_api_resolving l self :
  resolving_optimized l self →
  post (analyze_api w l self) (resolving_optimized l).
Proof.
  intros Hs. unfold analyze_api. apply post_bind.
  apply post_fetch_api_data; intros formulas casks;
    (destruct (_ || _); apply post_ret; [by apply resolving_foldl_api|done]).
Qed.

Lemma resolving_foldl_zip l (batch : list (string * bool)) results :
  Forall2 sound batch results → batch ⊆ l → ∀ self,
  resolving_optimized l self →
  resolving_optimized l
    (foldl (λ self '((package_name, _), pkg_info), store self package_name pkg_info)
           self (zip batch results)).
Proof.
  induction 1 as [|[n k] r batch results [Hr _] _ IH]; intros Hsub self Hs; simpl;
    [done|].
  apply IH; [set_solver|]. apply (resolving_store l _ n k); [set_solver|done..].
Qed.

Lemma post_analyze_cli_resolving fs cs self :
  resolving_optimized (enumerate fs cs) self →
  post (analyze_cli json_loads w (enumerate fs cs) self)
    (resolving_optimized (enumerate fs cs)).
Proof.
  intros Hs. unfold analyze_cli.
  destruct (batch_size self); [apply post_raise| |by apply post_ret].
  apply (post_for_each _ (resolving_optimized (enumerate fs cs))); [|done].
  intros s i _ Hsi. unfold analyze_batch. apply post_bind.
  eapply post_mono;
    [apply post_parse_brew_info_batch_aligned, formulas_first_slice|].
  intros results Hres. apply post_ret.
  apply resolving_foldl_zip; [done|apply slice_subseteq|done].
Qed.

Lemma post_analyze_packages_optimized_resolved use_api batch_size :
  post (analyze_packages json_loads w (init use_api batch_size))
    (resolved_optimized (installed_list w)).
Proof.
  unfold analyze_packages. apply post_bind.
  eapply post_mono; [apply post_get_installed_packages_list|]. intros l ->.
  destruct (installed_list w) as [|pkg l] eqn:El.
  { apply post_ret. split; [apply catalog_from_empty|]. split; [|by left].
    by rewrite build_reverse_dependencies_empty. }
  rewrite <- El. unfold installed_list in *.
  set (fs := listed w "--formula") in *. set (cs := listed w "--cask") in *.
  apply post_bind. eapply (post_mono _ (resolving_optimized (enumerate fs cs))).
  { assert (resolving_optimized (enumerate fs cs)
              (set_installed_packages (init use_api batch_size)
                 (list_to_set (enumerate fs cs).*1))) as H0.
    { split; [apply catalog_from_empty|done]. }
    destruct (OptimizedBrewAnalyzer.use_api _);
      [by apply post_analyze_api_resolving|by apply post_ret]. }
  intros s1 Hs1. apply post_bind.
  eapply (post_mono _ (resolving_optimized (enumerate fs cs))).
  { destruct (negb _); [by apply post_analyze_cli_resolving|by apply post_ret]. }
  intros s2 (Hc & Hr & Hi). apply post_ret. unfold resolved_optimized. simpl.
  rewrite Hr. split; [done|]. split; [done|by right].
Qed.
End Resolving.

Lemma resolved_catalog l packages rd installed n info :
  resolved l packages rd installed → packages !! n = Some info →
  name info = n ∧ (n, is_cask info) ∈ l ∧ n ∈ installed.
Proof.
  intros (Hc & _ & Hi) Hn. destruct (Hc n info Hn) as [Hname Hin].
  split; [done|]. split; [done|]. destruct Hi as [->| ->].
  - by rewrite lookup_empty in Hn.
  - apply elem_of_list_to_set, list_elem_of_fmap. by exists (n, is_cask info).
Qed.

(** X3. After a run on a fresh analyzer (either analyzer, any strategy)
    every record of the catalog is stored under its own name, is of the
    kind of an enumerated identity of that name, and its name is in
    [installed_packages]. *)
Theorem catalog_records_are_installed_identities
    (json_loads : string → option (list pkg_json)) (w : World) :
  post (BrewAnalyzer.analyze_packages json_loads w BrewAnalyzer.init)
    (λ self, ∀ n info, BrewAnalyzer.packages self !! n = Some info →
       name info = n ∧ (n, is_cask info) ∈ installed_list w ∧
       n ∈ BrewAnalyzer.installed_packages self) ∧
  (∀ use_api batch_size,
     post (OptimizedBrewAnalyzer.analyze_packages json_loads w
             (OptimizedBrewAnalyzer.init use_api batch_size))
       (λ self, ∀ n info, OptimizedBrewAnalyzer.packages self !! n = Some info →
          name info = n ∧ (n, is_cask info) ∈ installed_list w ∧
          n ∈ OptimizedBrewAnalyzer.installed_packages self)).
Proof.
  split.
  - eapply post_mono; [apply post_analyze_packages_single_resolved|].
    intros self Hres n info Hn. by eapply resolved_catalog.
  - intros use_api batch_size.
    eapply post_mono; [apply post_analyze_packages_optimized_resolved|].
    intros self Hres n info Hn. by eapply resolved_catalog.
Qed.

Lemma resolved_index l packages rd installed D P :
  resolved l packages rd installed → catalog_ok packages →
  P ∈ rev_lookup rd D →
  ∃ info, packages !! P = Some info ∧ is_cask info = false ∧ P ∈ installed ∧
    (D ∈ build_dependencies info ∨ D ∈ runtime_dependencies info).
Proof.
  intros Hres Hok HP. pose proof Hres as (_ & -> & _).
  apply rev_lookup_build_reverse_dependencies in HP as (info & Hinfo & HD).
  exists info. split; [done|].
  destruct (resolved_catalog _ _ _ _ _ _ Hres Hinfo) as (_ & _ & Hin).
  split; [|done]. destruct (is_cask info) eqn:Hk; [|done].
  destruct (Hok P info Hinfo) as [_ Hbare]. destruct (Hbare Hk) as [Hb Hr].
  rewrite Hb, Hr in HD. destruct HD as [HD|HD]; by apply elem_of_nil in HD.
Qed.

(** X4. After a run on a fresh analyzer (either analyzer, any strategy)
    the reverse index is the one [build_reverse_dependencies] builds from
    the final catalog and the empty index; every member of an entry is the
    name of a formula record of the catalog, installed, that lists the
    entry's name as a dependency: a cask is never a dependent. *)
Theorem reverse_index_after_run
    (json_loads : string → option (list pkg_json)) (w : World) :
  post (BrewAnalyzer.analyze_packages json_loads w BrewAnalyzer.init)
    (λ self,
       BrewAnalyzer.reverse_dependencies self
       = build_reverse_dependencies (BrewAnalyzer.packages self) ∅ ∧
       ∀ D P, P ∈ rev_lookup (BrewAnalyzer.reverse_dependencies self) D →
         ∃ info, BrewAnalyzer.packages self !! P = Some info ∧
           is_cask info = false ∧ P ∈ BrewAnalyzer.installed_packages self ∧
           (D ∈ build_dependencies info ∨ D ∈ runtime_dependencies info)) ∧
  (∀ use_api batch_size,
     post (OptimizedBrewAnalyzer.analyze_packages json_loads w
             (OptimizedBrewAnalyzer.init use_api batch_size))
       (λ self,
          OptimizedBrewAnalyzer.reverse_dependencies self
          = build_reverse_dependencies (OptimizedBrewAnalyzer.packages self) ∅ ∧
          ∀ D P, P ∈ rev_lookup (OptimizedBrewAnalyzer.reverse_dependencies self) D →
            ∃ info, OptimizedBrewAnalyzer.packages self !! P = Some info ∧
              is_cask info = false ∧
              P ∈ OptimizedBrewAnalyzer.installed_packages self ∧
              (D ∈ build_dependencies info ∨ D ∈ runtime_dependencies info))).
Proof.
  split.
  - eapply post_mono.
    + apply post_and; [apply post_analyze_packages_single_resolved|].
      apply post_analyze_packages_single, catalog_ok_empty.
    + intros self [Hres Hok]. split; [apply Hres|].
      intros D P HP. by eapply resolved_index.
  - intros use_api batch_size. eapply post_mono.
    + apply post_and; [apply post_analyze_packages_optimized_resolved|].
      apply post_analyze_packages_optimized, catalog_ok_empty.
    + intros self [Hres Hok]. split; [apply Hres|].
      intros D P HP. by eapply resolved_index.
Qed.

(** ** The enumeration *)

Lemma split_newline_no_newline s :
  Forall (λ piece, newline ∉ chars piece) (split_newline s).
Proof.
  induction s as [|a s IH]; simpl.
  - repeat constructor. by intros ?%elem_of_nil.
  - destruct (Ascii.eqb a newline) eqn:Ea.
    + constructor; [by intros ?%elem_of_nil|done].
    + apply Ascii.eqb_neq in Ea. destruct (split_newline s) as [|x xs].
      * repeat constructor. simpl. intros [?|?%elem_of_nil]%elem_of_cons; congruence.
      * apply Forall_cons in IH as [Hx Hxs]. constructor; [|done].
        simpl. intros [?|?]%elem_of_cons; [congruence|done].
Qed.

Lemma listed_names w flag n :
  n ∈ listed w flag → n ≠ "" ∧ newline ∉ chars n.
Proof.
  unfold listed. intros [Hne Hin]%list_elem_of_filter. split.
  - by destruct n.
  - revert Hin. destruct (nonempty (brew_output w ["list"; flag])); intros Hin;
      [|by apply elem_of_nil in Hin].
    pose proof (split_newline_no_newline (brew_output w ["list"; flag])) as Hall.
    rewrite Forall_forall in Hall. by apply Hall.
Qed.

(** X5. The enumerated names are never empty and contain no newline; a
    listing command that fails contributes no name; with [brew] available
    [get_installed_packages] returns after exactly the two listing
    commands, without it the first command ends the process with
    [SystemExit 1]. *)
Theorem enumeration_names (w : World) :
  (∀ n k, (n, k) ∈ installed_list w → n ≠ "" ∧ newline ∉ chars n) ∧
  (∀ flag, brew_stdout w ["list"; flag] = None → listed w flag = []) ∧
  match brew_found w with
  | true =>
      runs (get_installed_packages w) (Returns (installed_list w))
           [Brew ["list"; "--formula"]; Brew ["list"; "--cask"]]
  | false =>
      runs (get_installed_packages w) (Raises (SystemExit 1)) [Brew ["list"; "--formula"]]
  end.
Proof.
  split; [|split].
  - intros n k [Hin|Hin]%elem_of_app;
      apply list_elem_of_fmap in Hin as (m & [= -> _] & Hm); by eapply listed_names.
  - intros flag Hnone. unfold listed, brew_output. by rewrite Hnone.
  - destruct (brew_found w) eqn:Hf.
    + by apply get_installed_packages_found.
    + by apply get_installed_packages_missing.
Qed.

(** X6. When [brew] is available and nothing is listed, [analyze_packages]
    of either analyzer returns the analyzer as it was and makes only the
    two listing commands: no metadata query and, even with the API
    selected, no request. *)
Theorem nothing_installed_is_a_no_op
    (json_loads : string → option (list pkg_json)) (w : World)
    (self : BrewAnalyzer.state) (self' : OptimizedBrewAnalyzer.state) :
  brew_found w = true → installed_list w = [] →
  runs (BrewAnalyzer.analyze_packages json_loads w self) (Returns self)
       [Brew ["list"; "--formula"]; Brew ["list"; "--cask"]] ∧
  runs (OptimizedBrewAnalyzer.analyze_packages json_loads w self') (Returns self')
       [Brew ["list"; "--formula"]; Brew ["list"; "--cask"]].
Proof.
  intros Hf Hl. split.
  - unfold BrewAnalyzer.analyze_packages.
    eapply runs_bind_eq; [by apply get_installed_packages_found| |by rewrite app_nil_r].
    rewrite Hl. apply runs_ret.
  - unfold OptimizedBrewAnalyzer.analyze_packages.
    eapply runs_bind_eq; [by apply get_installed_packages_found| |by rewrite app_nil_r].
    rewrite Hl. apply runs_ret.
Qed.

Lemma nothing_installed_is_a_no_op_witness :
  runs (BrewAnalyzer.analyze_packages example_loads bare_world BrewAnalyzer.init)
       (Returns BrewAnalyzer.init)
       [Brew ["list"; "--formula"]; Brew ["list"; "--cask"]] ∧
  runs (OptimizedBrewAnalyzer.analyze_packages example_loads bare_world
          (OptimizedBrewAnalyzer.init true 50))
       (Returns (OptimizedBrewAnalyzer.init true 50))
       [Brew ["list"; "--formula"]; Brew ["list"; "--cask"]].
Proof.
  apply (nothing_installed_is_a_no_op example_loads bare_world); reflexivity.
Defined.

(** ** The remote source *)

Section Remote.
Variable json_loads : string → option (list pkg_json).
Variable w : World.
Import OptimizedBrewAnalyzer.

(** X7. [fetch_api_data] makes at most the two requests, the formula
    manifest first, and none when the manifests are cached.  What it
    returns is either cached in the analyzer it returns, which is
    otherwise unchanged and from which a further call returns the same
    without any request, or it is the pair of empty manifests with the
    analyzer untouched and its cache still empty. *)
Theorem fetch_api_data_caches (self : state) :
  (∃ o calls, runs (fetch_api_data w self) o calls ∧
     calls `prefix_of` [HttpGet formula_url; HttpGet cask_url] ∧
     (is_Some (_api_cache self) → calls = [])) ∧
  post (fetch_api_data w self)
    (λ r,
       (_api_cache r.1 = Some r.2 ∧
        runs (fetch_api_data w r.1) (Returns r) [] ∧
        packages r.1 = packages self ∧
        reverse_dependencies r.1 = reverse_dependencies self ∧
        installed_packages r.1 = installed_packages self ∧
        use_api r.1 = use_api self ∧ batch_size r.1 = batch_size self)
       ∨ (r = (self, (∅, ∅)) ∧ _api_cache self = None)).
Proof.
  unfold fetch_api_data. destruct (_api_cache self) as [cached|] eqn:Hc.
  - split.
    + exists (Returns (self, cached)), []. split; [apply runs_ret|].
      split; [by eexists|done].
    + apply post_ret. left. simpl. rewrite Hc.
      split; [done|]. split; [apply runs_ret|done].
  - destruct (http_json w formula_url) as [fl|].
    2:{ split.
        - eexists _, _. split; [eapply runs_bind; [apply runs_emit|apply runs_ret]|].
          split; [by exists [HttpGet cask_url]|by intros [? ?]].
        - apply post_bind. intros ? [] ? _. apply post_ret. by right. }
    destruct (index_by j_name fl ∅) as [formulas|].
    2:{ split.
        - eexists _, _. split; [eapply runs_bind; [apply runs_emit|apply runs_raise]|].
          split; [by exists [HttpGet cask_url]|by intros [? ?]].
        - apply post_bind. intros ? [] ? _. apply post_raise. }
    destruct (http_json w cask_url) as [cl|].
    2:{ split.
        - eexists _, _. split.
          + eapply runs_bind; [apply runs_emit|].
            eapply runs_bind; [apply runs_emit|apply runs_ret].
          + split; [by exists []|by intros [? ?]].
        - apply post_bind. intros ? [] ? _. apply post_bind. intros ? [] ? _.
          apply post_ret. by right. }
    destruct (index_by j_token cl ∅) as [casks|].
    2:{ split.
        - eexists _, _. split.
          + eapply runs_bind; [apply runs_emit|].
            eapply runs_bind; [apply runs_emit|apply runs_raise].
          + split; [by exists []|by intros [? ?]].
        - apply post_bind. intros ? [] ? _. apply post_bind. intros ? [] ? _.
          apply post_raise. }
    split.
    + eexists _, _. split.
      * eapply runs_bind; [apply runs_emit|].
        eapply runs_bind; [apply runs_emit|apply runs_ret].
      * split; [by exists []|by intros [? ?]].
    + apply post_bind. intros ? [] ? _. apply post_bind. intros ? [] ? _.
      apply post_ret. left. simpl. split; [done|]. split; [apply runs_ret|done].
Qed.

Lemma foldl_store_api formulas casks l : ∀ self,
  foldl (λ self '(package_name, is_cask),
           store self package_name (parse_api_data package_name is_cask formulas casks))
        self l
  = set_packages self
      (foldl put (packages self)
         ((λ pkg, (pkg.1, parse_api_data pkg.1 pkg.2 formulas casks)) <$> l)).
Proof.
  induction l as [|[n k] l IH]; intros self; simpl.
  - by destruct self.
  - rewrite IH. unfold store, put. simpl.
    by destruct (parse_api_data n k formulas casks).
Qed.

(** X8. When both manifests arrive, every object carries its key and the
    manifests are not both empty, a run with the API selected makes the
    two listing commands and the two requests and nothing else, keeps the
    API selected and the manifests cached, and (for distinct installed
    names) the catalog entry of every identity is what [parse_api_data]
    finds for it in the manifest of its kind. *)
Theorem api_run_needs_no_metadata_query
    (batch_size : Z) (formula_list cask_list : list pkg_json)
    (formulas casks : gmap string pkg_json) :
  brew_found w = true →
  installed_list w ≠ [] →
  http_json w formula_url = Some formula_list →
  index_by j_name formula_list ∅ = Some formulas →
  http_json w cask_url = Some cask_list →
  index_by j_token cask_list ∅ = Some casks →
  formulas ≠ ∅ ∨ casks ≠ ∅ →
  ∃ self,
    runs (analyze_packages json_loads w (init true batch_size)) (Returns self)
         [Brew ["list"; "--formula"]; Brew ["list"; "--cask"];
          HttpGet formula_url; HttpGet cask_url] ∧
    use_api self = true ∧
    _api_cache self = Some (formulas, casks) ∧
    (NoDup (installed_list w).*1 →
     ∀ n k, (n, k) ∈ installed_list w →
       packages self !! n = parse_api_data n k formulas casks).
Proof.
  intros Hf Hl Hfl Hfi Hcl Hci Hne. eexists. split; [|split; [|split]].
  - unfold analyze_packages.
    eapply (runs_bind_eq _ _ _ _ [_; _] [_; _]);
      [by apply get_installed_packages_found| |done].
    destruct (installed_list w) as [|pkg l] eqn:El; [done|]. rewrite <- El.
    change (OptimizedBrewAnalyzer.use_api
              (set_installed_packages (init true batch_size) _)) with true.
    cbv iota.
    eapply (runs_bind_eq _ _ _ _ [_; _] []); [| |done].
    + unfold analyze_api.
      eapply (runs_bind_eq _ _ _ _ [_; _] []); [| |done].
      * unfold fetch_api_data. simpl _api_cache. cbv iota.
        eapply (runs_bind_eq _ _ _ _ [_] [_]); [apply runs_emit| |done].
        rewrite Hfl, Hfi.
        eapply (runs_bind_eq _ _ _ _ [_] []); [apply runs_emit| |done].
        rewrite Hcl, Hci. apply runs_ret.
      * simpl. assert (bool_decide (formulas ≠ ∅) || bool_decide (casks ≠ ∅) = true)
          as ->.
        { destruct Hne as [H|H]; rewrite (bool_decide_eq_true_2 _ H);
            [done|apply orb_true_r]. }
        rewrite foldl_store_api. apply runs_ret.
    + simpl. eapply (runs_bind_eq _ _ _ _ [] []); [apply runs_ret| |done].
      apply runs_ret.
  - done.
  - done.
  - intros Hnd n k Hin. simpl.
    apply foldl_put_lookup_NoDup; [| |apply lookup_empty].
    + rewrite <- list_fmap_compose.
      by rewrite (list_fmap_ext _ fst (installed_list w)) by (by intros).
    + by apply (list_elem_of_fmap_2
                  (λ pkg, (pkg.1, parse_api_data pkg.1 pkg.2 formulas casks)) _ (n, k)).
Qed.
End Remote.

Lemma api_run_needs_no_metadata_query_witness :
  ∃ self,
    runs (OptimizedBrewAnalyzer.analyze_packages example_loads api_world
            (OptimizedBrewAnalyzer.init true 50)) (Returns self)
         [Brew ["list"; "--formula"]; Brew ["list"; "--cask"];
          HttpGet OptimizedBrewAnalyzer.formula_url;
          HttpGet OptimizedBrewAnalyzer.cask_url] ∧
    OptimizedBrewAnalyzer.use_api self = true ∧
    OptimizedBrewAnalyzer._api_cache self
    = Some ({["a" := pkg_object "a" ["b"]]}, {["c" := pkg_object "c" ["z"]]}) ∧
    (NoDup (installed_list api_world).*1 →
     ∀ n k, (n, k) ∈ installed_list api_world →
       OptimizedBrewAnalyzer.packages self !! n
       = OptimizedBrewAnalyzer.parse_api_data n k
           {["a" := pkg_object "a" ["b"]]} {["c" := pkg_object "c" ["z"]]}).
Proof.
  apply (api_run_needs_no_metadata_query example_loads api_world 50
           [pkg_object "a" ["b"]] [pkg_object "c" ["z"]]).
  - reflexivity.
  - by vm_compute.
  - reflexivity.
  - reflexivity.
  - reflexivity.
  - reflexivity.
  - left. apply insert_non_empty.
Defined.

Section RemoteErrors.
Variable json_loads : string → option (list pkg_json).
Variable w : World.
Import OptimizedBrewAnalyzer.

(** X9. An object without [name] in the formula manifest, or without
    [token] in the cask manifest, makes a run with the API selected raise
    [KeyError]: the exception is not caught and there is no fall-back. *)
Theorem api_manifest_without_key_aborts (batch_size : Z)
    (formula_list : list pkg_json) :
  brew_found w = true →
  installed_list w ≠ [] →
  http_json w formula_url = Some formula_list →
  match index_by j_name formula_list ∅ with
  | None =>
      runs (analyze_packages json_loads w (init true batch_size)) (Raises KeyError)
           [Brew ["list"; "--formula"]; Brew ["list"; "--cask"]; HttpGet formula_url]
  | Some _ =>
      ∀ cask_list,
        http_json w cask_url = Some cask_list →
        index_by j_token cask_list ∅ = None →
        runs (analyze_packages json_loads w (init true batch_size)) (Raises KeyError)
             [Brew ["list"; "--formula"]; Brew ["list"; "--cask"];
              HttpGet formula_url; HttpGet cask_url]
  end.
Proof.
  intros Hf Hl Hfl.
  assert (∀ o calls,
    runs (fetch_api_data w (set_installed_packages (init true batch_size)
                              (list_to_set (installed_list w).*1)))
         (Raises o) calls →
    runs (analyze_packages json_loads w (init true batch_size)) (Raises o)
         ([Brew ["list"; "--formula"]; Brew ["list"; "--cask"]] ++ calls)) as Hrun.
  { intros o calls Hfetch. unfold analyze_packages.
    eapply runs_bind; [by apply get_installed_packages_found|].
    destruct (installed_list w) as [|pkg l] eqn:El; [done|].
    change (OptimizedBrewAnalyzer.use_api
              (set_installed_packages (init true batch_size) _)) with true.
    cbv iota. apply runs_bind_raises. unfold analyze_api.
    by apply runs_bind_raises. }
  destruct (index_by j_name formula_list ∅) as [formulas|] eqn:Hfi.
  - intros cask_list Hcl Hci.
    apply (Hrun KeyError [_; _]). unfold fetch_api_data. simpl _api_cache. cbv iota.
    eapply (runs_bind_eq _ _ _ _ [_] [_]); [apply runs_emit| |done].
    rewrite Hfl, Hfi.
    eapply (runs_bind_eq _ _ _ _ [_] []); [apply runs_emit| |done].
    rewrite Hcl, Hci. apply runs_raise.
  - apply (Hrun KeyError [_]). unfold fetch_api_data. simpl _api_cache. cbv iota.
    eapply (runs_bind_eq _ _ _ _ [_] []); [apply runs_emit| |done].
    rewrite Hfl, Hfi. apply runs_raise.
Qed.

(** X10. With something installed, a batch size of zero makes the batch
    run raise [ValueError] right after the enumeration, and a negative
    batch size makes it return without any metadata query, with an empty
    catalog and index and the installed names recorded. *)
Theorem batch_size_not_positive (p : positive) :
  brew_found w = true →
  installed_list w ≠ [] →
  runs (analyze_packages json_loads w (init false 0)) (Raises ValueError)
       [Brew ["list"; "--formula"]; Brew ["list"; "--cask"]] ∧
  runs (analyze_packages json_loads w (init false (Zneg p)))
       (Returns (mk ∅ ∅ (list_to_set (installed_list w).*1) false (Zneg p) None))
       [Brew ["list"; "--formula"]; Brew ["list"; "--cask"]].
Proof.
  intros Hf Hl. split.
  - unfold analyze_packages.
    eapply runs_bind_eq; [by apply get_installed_packages_found| |by rewrite app_nil_r].
    destruct (installed_list w) as [|pkg l] eqn:El; [done|].
    eapply (runs_bind_eq _ _ _ _ [] []); [apply runs_ret| |done].
    apply runs_bind_raises. apply runs_raise.
  - unfold analyze_packages.
    eapply runs_bind_eq; [by apply get_installed_packages_found| |by rewrite app_nil_r].
    destruct (installed_list w) as [|pkg l] eqn:El; [done|].
    eapply (runs_bind_eq _ _ _ _ [] []); [apply runs_ret| |done].
    eapply (runs_bind_eq _ _ _ _ [] []); [apply runs_ret| |done].
    eapply runs_eq; [apply runs_ret|reflexivity|done].
Qed.
End RemoteErrors.

Lemma api_manifest_without_key_aborts_witness :
  runs (OptimizedBrewAnalyzer.analyze_packages example_loads broken_api_world
          (OptimizedBrewAnalyzer.init true 50)) (Raises KeyError)
       [Brew ["list"; "--formula"]; Brew ["list"; "--cask"];
        HttpGet OptimizedBrewAnalyzer.formula_url].
Proof.
  apply (api_manifest_without_key_aborts example_loads broken_api_world 50
           [mkPkgJson None None None None None None]).
  - reflexivity.
  - by vm_compute.
  - reflexivity.
Defined.

Lemma batch_size_not_positive_witness :
  runs (OptimizedBrewAnalyzer.analyze_packages example_loads example_world
          (OptimizedBrewAnalyzer.init false 0)) (Raises ValueError)
       [Brew ["list"; "--formula"]; Brew ["list"; "--cask"]] ∧
  runs (OptimizedBrewAnalyzer.analyze_packages example_loads example_world
          (OptimizedBrewAnalyzer.init false (Zneg 3)))
       (Returns (OptimizedBrewAnalyzer.mk ∅ ∅
                   (list_to_set (installed_list example_world).*1) false (Zneg 3) None))
       [Brew ["list"; "--formula"]; Brew ["list"; "--cask"]].
Proof.
  apply (batch_size_not_positive example_loads example_world 3).
  - reflexivity.
  - by vm_compute.
Defined.

(** ** Responses and their objects *)

Lemma last_keyed_cons key n o l :
  last_keyed key n (o :: l)
  = match last_keyed key n l with
    | Some o' => Some o'
    | None => if decide (key o = Some n) then Some o else None
    end.
Proof.
  unfold last_keyed. rewrite filter_cons. case_decide.
  - rewrite last_cons. by destruct (last _).
  - by destruct (last _).
Qed.

Lemma index_by_lookup key l : ∀ acc data n,
  index_by key l acc = Some data →
  data !! n = match last_keyed key n l with
              | Some o => Some o
              | None => acc !! n
              end.
Proof.
  induction l as [|o l IH]; intros acc data n Hd; simpl in Hd.
  - by injection Hd as <-.
  - destruct (key o) as [k|] eqn:Hk; [|done].
    rewrite (IH _ _ n Hd), last_keyed_cons.
    destruct (last_keyed key n l); [done|]. case_decide as Hn.
    + rewrite Hk in Hn. simplify_eq. by rewrite lookup_insert_eq.
    + rewrite lookup_insert_ne; [done|]. congruence.
Qed.

Lemma index_by_None key l : ∀ acc,
  index_by key l acc = None ↔ Exists (λ o, key o = None) l.
Proof.
  induction l as [|o l IH]; intros acc; simpl.
  - split; [done|]. by intros ?%Exists_nil.
  - rewrite Exists_cons. destruct (key o) as [k|] eqn:Hk.
    + rewrite IH. naive_solver.
    + naive_solver.
Qed.

Lemma names_of_same k (names : list string) :
  names_of k (map (λ n, (n, k)) names) = names.
Proof.
  destruct k.
  - change (map (λ n, (n, true)) names) with (enumerate [] names).
    by rewrite names_of_enumerate.
  - rewrite <- (app_nil_r (map _ names)).
    change (map (λ n, (n, false)) names ++ []) with (enumerate names []).
    by rewrite names_of_enumerate.
Qed.

Lemma names_of_other k (names : list string) :
  names_of (negb k) (map (λ n, (n, k)) names) = [].
Proof.
  destruct k.
  - change (map (λ n, (n, true)) names) with (enumerate [] names).
    by rewrite names_of_enumerate.
  - rewrite <- (app_nil_r (map _ names)).
    change (map (λ n, (n, false)) names ++ []) with (enumerate names []).
    by rewrite names_of_enumerate.
Qed.

Section Demultiplex.
Variable json_loads : string → option (list pkg_json).
Variable w : World.
Import OptimizedBrewAnalyzer.

(** X12. A batch of one kind whose response decodes: if some object of
    the response lacks the key of the kind, every name of the batch gets
    [None]; otherwise each name gets the record of the last object keyed
    by that name, or [None] when no object is, whatever else the response
    holds. *)
Theorem batch_response_is_read_by_key (k : bool) (names : list string)
    (info_data : list pkg_json) :
  brew_found w = true →
  names ≠ [] →
  brew_output w (info_args k names) ≠ "" →
  json_loads (brew_output w (info_args k names)) = Some info_data →
  runs (parse_brew_info_batch json_loads w (map (λ n, (n, k)) names))
       (Returns
          (if decide (Exists (λ o, kind_key k o = None) info_data)
           then replicate (length names) None
           else map (λ n, kind_info k n <$> last_keyed (kind_key k) n info_data) names))
       [Brew (info_args k names)].
Proof.
  intros Hf Hnames Hout Hloads.
  eapply runs_eq; [by apply parse_brew_info_batch_found| |].
  - f_equal. unfold batch_results.
    assert (∀ k', names_of k' (map (λ n, (n, k)) names)
                  = if decide (k' = k) then names else []) as Hk.
    { intros k'. case_decide as E; [subst; apply names_of_same|].
      replace k' with (negb k) by (by destruct k, k'). apply names_of_other. }
    rewrite !Hk.
    assert (map (batch_result json_loads w k names) names
            = if decide (Exists (λ o, kind_key k o = None) info_data)
              then replicate (length names) None
              else map (λ n, kind_info k n <$> last_keyed (kind_key k) n info_data)
                     names) as Hres.
    { unfold batch_result, batch_data. rewrite Hloads.
      destruct (brew_output w (info_args k names)) eqn:Eo; [done|]. simpl nonempty.
      cbv iota.
      destruct (index_by (kind_key k) info_data ∅) as [data|] eqn:Hd.
      - rewrite decide_False.
        2:{ rewrite <- (index_by_None _ _ ∅). congruence. }
        apply map_ext. intros n. rewrite (index_by_lookup _ _ _ _ n Hd).
        rewrite lookup_empty. by destruct (last_keyed _ _ _).
      - rewrite decide_True by (by apply (index_by_None _ _ ∅)).
        by rewrite replicate_as_map. }
    destruct k; simpl; by rewrite ?app_nil_r, Hres.
  - unfold batch_queries, query_of.
    assert (∀ k', names_of k' (map (λ n, (n, k)) names)
                  = if decide (k' = k) then names else []) as Hk.
    { intros k'. case_decide as E; [subst; apply names_of_same|].
      replace k' with (negb k) by (by destruct k, k'). apply names_of_other. }
    rewrite !Hk. destruct names as [|n names']; [done|]. by destruct k.
Qed.
End Demultiplex.

Lemma batch_response_is_read_by_key_witness :
  runs (OptimizedBrewAnalyzer.parse_brew_info_batch table_loads table_world
          (map (λ n, (n, false)) ["a"; "b"]))
       (Returns
          (if decide (Exists (λ o, kind_key false o = None) [pkg_object "a" ["b"]])
           then replicate (length ["a"; "b"]) None
           else map (λ n, kind_info false n
                            <$> last_keyed (kind_key false) n [pkg_object "a" ["b"]])
                  ["a"; "b"]))
       [Brew (info_args false ["a"; "b"])].
Proof.
  apply (batch_response_is_read_by_key table_loads table_world false ["a"; "b"]
           [pkg_object "a" ["b"]]).
  - reflexivity.
  - done.
  - by vm_compute.
  - reflexivity.
Defined.

(** ** One query per identity *)



Section SingleQuery.
Variable json_loads : string → option (list pkg_json).
Variable w : World.


End SingleQuery.


(** ** Formatting *)

Lemma append_assoc (s1 s2 s3 : string) :
  String.append (String.append s1 s2) s3 = String.append s1 (String.append s2 s3).
Proof.
  induction s1 as [|a s1 IH]; [done|].
  change (String a (String.append (String.append s1 s2) s3)
          = String a (String.append s1 (String.append s2 s3))).
  congruence.
Qed.

Lemma append_empty_inv (s1 s2 : string) : String.append s1 s2 = "" → s1 = "".
Proof. by destruct s1. Qed.

Lemma join_app sep (l1 l2 : list string) :
  l1 ≠ [] → l2 ≠ [] →
  join sep (l1 ++ l2)
  = String.append (join sep l1) (String.append sep (join sep l2)).
Proof.
  intros H1 H2. induction l1 as [|x l1 IH]; [done|].
  destruct l1 as [|y l1].
  - simpl. by destruct l2.
  - change (join sep ((x :: y :: l1) ++ l2))
      with (String.append x (String.append sep (join sep ((y :: l1) ++ l2)))).
    rewrite IH by done.
    change (join sep (x :: y :: l1))
      with (String.append x (String.append sep (join sep (y :: l1)))).
    by rewrite !append_assoc.
Qed.

Lemma join_empty_inv sep (l : list string) :
  Forall (λ x, x ≠ "") l → join sep l = "" → l = [].
Proof.
  intros Hl Hj. destruct l as [|x l]; [done|].
  apply Forall_cons in Hl as [Hx _]. destruct l as [|y l].
  - simpl in Hj. congruence.
  - change (join sep (x :: y :: l))
      with (String.append x (String.append sep (join sep (y :: l)))) in Hj.
    by apply append_empty_inv in Hj.
Qed.

(** X15. [format_dependencies] gives the empty string only for the empty
    list; for one dependency it gives its status mark, a blank and the
    name; and for two non-empty lists the text of their concatenation is
    the two texts joined by a comma and a blank. *)
Theorem format_dependencies_composes (installed : gset string)
    (deps deps1 deps2 : list string) :
  (format_dependencies installed deps = "" ↔ deps = []) ∧
  (∀ dep, format_dependencies installed [dep]
          = String.append (if decide (dep ∈ installed) then Present else Missing)
              (String.append " " dep)) ∧
  (deps1 ≠ [] → deps2 ≠ [] →
   format_dependencies installed (deps1 ++ deps2)
   = String.append (format_dependencies installed deps1)
       (String.append ", " (format_dependencies installed deps2))).
Proof.
  split; [|split].
  - split; [|by intros ->]. destruct deps as [|d deps]; [done|].
    unfold format_dependencies. intros Hj. apply join_empty_inv in Hj; [done|].
    apply Forall_fmap, Forall_forall. intros dep _. simpl.
    unfold check_dependency_status. by case_decide.
  - intros dep. unfold format_dependencies, check_dependency_status. simpl.
    by case_decide.
  - intros H1 H2. unfold format_dependencies.
    destruct deps1 as [|a deps1]; [done|]. destruct deps2 as [|b deps2]; [done|].
    change ((a :: deps1) ++ b :: deps2) with (a :: (deps1 ++ b :: deps2)).
    cbv iota. change (a :: (deps1 ++ b :: deps2)) with ((a :: deps1) ++ b :: deps2).
    by rewrite map_app, join_app.
Qed.

(** ** The summary *)

Lemma sum_values_empty f : sum_values f ∅ = 0.
Proof. unfold sum_values. apply map_fold_empty. Qed.

Lemma sum_values_insert f (m : gmap string PackageInfo) n info :
  m !! n = None → sum_values f (<[n := info]> m) = f info + sum_values f m.
Proof.
  intros Hn. unfold sum_values. rewrite map_fold_insert_L; [done| |done].
  intros. lia.
Qed.

Lemma sum_values_le (f g : PackageInfo → nat) (m : gmap string PackageInfo) :
  (∀ n info, m !! n = Some info → (f info ≤ g info)%nat) →
  (sum_values f m ≤ sum_values g m)%nat.
Proof.
  induction m as [|n info m Hn IH] using map_ind; intros Hfg.
  - by rewrite !sum_values_empty.
  - rewrite !sum_values_insert by done.
    assert (f info ≤ g info)%nat by (apply (Hfg n); by rewrite lookup_insert_eq).
    assert (sum_values f m ≤ sum_values g m)%nat; [|lia].
    apply IH. intros n' info' Hn'. apply (Hfg n').
    rewrite lookup_insert_ne; [done|]. intros ->. congruence.
Qed.

Lemma sum_values_plus (f g : PackageInfo → nat) (m : gmap string PackageInfo) :
  sum_values (λ p, f p + g p) m = sum_values f m + sum_values g m.
Proof.
  induction m as [|n info m Hn IH] using map_ind.
  - by rewrite !sum_values_empty.
  - rewrite !sum_values_insert by done. lia.
Qed.

Lemma sum_values_ones (m : gmap string PackageInfo) : sum_values (λ _, 1) m = size m.
Proof.
  induction m as [|n info m Hn IH] using map_ind.
  - by rewrite sum_values_empty, map_size_empty.
  - rewrite sum_values_insert, map_size_insert_None by done. lia.
Qed.

Lemma sum_values_ext (f g : PackageInfo → nat) (m : gmap string PackageInfo) :
  (∀ n info, m !! n = Some info → f info = g info) →
  sum_values f m = sum_values g m.
Proof.
  intros Hfg. apply Nat.le_antisymm; apply sum_values_le; intros n info Hn;
    by rewrite (Hfg n info Hn).
Qed.

(** X16. In the summary the cask count never exceeds the total, and the
    formula count, computed by subtraction, is the number of formula
    records: it is never negative and adds up with the cask count to the
    total. *)
Theorem summary_counts (packages : gmap string PackageInfo) :
  let s := print_summary packages in
  (cask_count s ≤ total_packages s)%nat ∧
  formula_count s
  = Z.of_nat (sum_values (λ pkg, if is_cask pkg then 0 else 1) packages) ∧
  (formula_count s + Z.of_nat (cask_count s) = Z.of_nat (total_packages s))%Z.
Proof.
  simpl.
  assert (sum_values (λ pkg, if is_cask pkg then 1 else 0) packages
          + sum_values (λ pkg, if is_cask pkg then 0 else 1) packages
          = size packages) as Hsum.
  { rewrite <- sum_values_plus, <- sum_values_ones. apply sum_values_ext.
    intros n info _. by destruct (is_cask info). }
  split; [lia|]. split; lia.
Qed.

Lemma summary_of_catalog_ok (packages : gmap string PackageInfo) :
  catalog_ok packages →
  let s := print_summary packages in
  total_build_deps s
  = sum_values (λ pkg, if is_cask pkg then 0 else length (build_dependencies pkg))
      packages ∧
  total_runtime_deps s
  = sum_values (λ pkg, if is_cask pkg then 0 else length (runtime_dependencies pkg))
      packages.
Proof.
  intros Hok. split; apply sum_values_ext; intros n info Hn;
    destruct (Hok n info Hn) as [_ Hbare]; destruct (is_cask info) eqn:Hk; try done;
    destruct (Hbare Hk) as [Hb Hr]; by rewrite ?Hb, ?Hr.
Qed.

Lemma index_size_insert_None (rd : gmap string (gset string)) dep S :
  rd !! dep = None → index_size (<[dep := S]> rd) = size S + index_size rd.
Proof.
  intros Hd. unfold index_size. rewrite map_fold_insert_L; [done| |done].
  intros. lia.
Qed.

Lemma index_size_rev_add pkg_name rd dep :
  (index_size (rev_add pkg_name rd dep) ≤ index_size rd + 1)%nat.
Proof.
  unfold rev_add, rev_lookup. destruct (rd !! dep) as [S|] eqn:Hd; simpl.
  - rewrite <- (insert_delete_id rd dep S Hd) at 2.
    rewrite <- insert_delete_eq.
    rewrite !index_size_insert_None by apply lookup_delete_eq.
    assert (size (S ∪ {[pkg_name]}) ≤ size S + 1)%nat; [|lia].
    rewrite size_union_alt.
    assert (size (({[pkg_name]} : gset string) ∖ S) ≤ 1)%nat; [|lia].
    rewrite <- (size_singleton (C:=gset string) pkg_name).
    apply subseteq_size. set_solver.
  - rewrite index_size_insert_None by done.
    rewrite union_empty_l_L, size_singleton. lia.
Qed.

Lemma index_size_foldl pkg_name deps : ∀ rd,
  (index_size (foldl (rev_add pkg_name) rd deps) ≤ index_size rd + length deps)%nat.
Proof.
  induction deps as [|dep deps IH]; intros rd; simpl; [lia|].
  pose proof (IH (rev_add pkg_name rd dep)).
  pose proof (index_size_rev_add pkg_name rd dep). lia.
Qed.

Lemma index_size_build (packages : gmap string PackageInfo) :
  (index_size (build_reverse_dependencies packages ∅)
   ≤ sum_values (λ pkg, length (build_dependencies pkg)
                        + length (runtime_dependencies pkg)) packages)%nat.
Proof.
  unfold build_reverse_dependencies.
  apply (map_fold_weak_ind
    (λ rd (m : gmap string PackageInfo),
       (index_size rd
        ≤ sum_values (λ pkg, length (build_dependencies pkg)
                             + length (runtime_dependencies pkg)) m)%nat)).
  - by rewrite sum_values_empty.
  - intros n info m rd Hn IH. rewrite sum_values_insert by done.
    unfold add_package.
    pose proof (index_size_foldl n (runtime_dependencies info)
                  (foldl (rev_add n) rd (build_dependencies info))).
    pose proof (index_size_foldl n (build_dependencies info) rd). lia.
Qed.

Lemma resolved_size l packages rd installed :
  resolved l packages rd installed → (size packages ≤ size installed)%nat.
Proof.
  intros Hres. rewrite <- (size_dom (D:=gset string)). apply subseteq_size.
  intros n [info Hn]%elem_of_dom.
  by destruct (resolved_catalog _ _ _ _ _ _ Hres Hn) as (_ & _ & ?).
Qed.

Lemma summary_of_resolved l packages rd installed :
  resolved l packages rd installed →
  let s := print_summary packages in
  (total_packages s ≤ size installed)%nat ∧
  (index_size rd ≤ total_build_deps s + total_runtime_deps s)%nat.
Proof.
  intros Hres. simpl. split; [by eapply resolved_size|].
  destruct Hres as (_ & -> & _). rewrite <- sum_values_plus. apply index_size_build.
Qed.

(** X17. After a run on a fresh analyzer (either analyzer, any strategy)
    the summary counts no more packages than there are installed names,
    the reverse index holds no more (dependency, dependent) pairs than the
    two dependency totals together, and the totals count the dependencies
    of formula records only. *)
Theorem summary_after_run
    (json_loads : string → option (list pkg_json)) (w : World) :
  post (BrewAnalyzer.analyze_packages json_loads w BrewAnalyzer.init)
    (λ self,
       let s := print_summary (BrewAnalyzer.packages self) in
       (total_packages s ≤ size (BrewAnalyzer.installed_packages self))%nat ∧
       (index_size (BrewAnalyzer.reverse_dependencies self)
        ≤ total_build_deps s + total_runtime_deps s)%nat ∧
       total_build_deps s
       = sum_values (λ pkg, if is_cask pkg then 0 else length (build_dependencies pkg))
           (BrewAnalyzer.packages self) ∧
       total_runtime_deps s
       = sum_values (λ pkg, if is_cask pkg then 0 else length (runtime_dependencies pkg))
           (BrewAnalyzer.packages self)) ∧
  (∀ use_api batch_size,
     post (OptimizedBrewAnalyzer.analyze_packages json_loads w
             (OptimizedBrewAnalyzer.init use_api batch_size))
       (λ self,
          let s := print_summary (OptimizedBrewAnalyzer.packages self) in
          (total_packages s ≤ size (OptimizedBrewAnalyzer.installed_packages self))%nat ∧
          (index_size (OptimizedBrewAnalyzer.reverse_dependencies self)
           ≤ total_build_deps s + total_runtime_deps s)%nat ∧
          total_build_deps s
          = sum_values
              (λ pkg, if is_cask pkg then 0 else length (build_dependencies pkg))
              (OptimizedBrewAnalyzer.packages self) ∧
          total_runtime_deps s
          = sum_values
              (λ pkg, if is_cask pkg then 0 else length (runtime_dependencies pkg))
              (OptimizedBrewAnalyzer.packages self))).
Proof.
  split.
  - eapply post_mono.
    + apply post_and; [apply post_analyze_packages_single_resolved|].
      apply post_analyze_packages_single, catalog_ok_empty.
    + intros self [Hres Hok].
      destruct (summary_of_resolved _ _ _ _ Hres) as [H1 H2].
      destruct (summary_of_catalog_ok _ Hok) as [H3 H4]. done.
  - intros use_api batch_size. eapply post_mono.
    + apply post_and; [apply post_analyze_packages_optimized_resolved|].
      apply post_analyze_packages_optimized, catalog_ok_empty.
    + intros self [Hres Hok].
      destruct (summary_of_resolved _ _ _ _ Hres) as [H1 H2].
      destruct (summary_of_catalog_ok _ Hok) as [H3 H4]. done.
Qed.

(** ** Running again, and the two analyzers side by side *)

Lemma last_write_cons n e entries :
  last_write n (e :: entries)
  = match last_write n entries with
    | Some info => Some info
    | None => if decide (e.1 = n) then e.2 else None
    end.
Proof.
  unfold last_write. destruct e as [n' r]. simpl.
  destruct (decide (n' = n)), r; simpl; rewrite ?last_cons; by destruct (last _).
Qed.

Lemma foldl_put_lookup entries : ∀ (m : gmap string PackageInfo) n,
  foldl put m entries !! n
  = match last_write n entries with Some info => Some info | None => m !! n end.
Proof.
  induction entries as [|[n' r] entries IH]; intros m n; simpl; [done|].
  rewrite IH, last_write_cons. destruct (last_write n entries); [done|].
  unfold put. simpl. case_decide as Hn.
  - subst n'. destruct r; [|done]. by rewrite lookup_insert_eq.
  - destruct r; [|done]. by rewrite lookup_insert_ne.
Qed.

Lemma foldl_put_twice entries (m : gmap string PackageInfo) :
  foldl put (foldl put m entries) entries = foldl put m entries.
Proof.
  apply map_eq. intros n. rewrite !foldl_put_lookup.
  by destruct (last_write n entries).
Qed.

Lemma index_eq (rd1 rd2 : gmap string (gset string)) :
  no_empty_entry rd1 → no_empty_entry rd2 →
  (∀ D, rev_lookup rd1 D = rev_lookup rd2 D) → rd1 = rd2.
Proof.
  intros H1 H2 Heq. apply map_eq. intros D. specialize (Heq D).
  unfold rev_lookup in Heq.
  destruct (rd1 !! D) as [S1|] eqn:E1, (rd2 !! D) as [S2|] eqn:E2; simpl in Heq.
  - by subst.
  - subst. by destruct (H1 D ∅ E1).
  - subst. by destruct (H2 D ∅ E2).
  - done.
Qed.

Lemma build_reverse_dependencies_twice (packages : gmap string PackageInfo) :
  build_reverse_dependencies packages (build_reverse_dependencies packages ∅)
  = build_reverse_dependencies packages ∅.
Proof.
  assert (no_empty_entry (build_reverse_dependencies packages ∅)) as Hne.
  { apply no_empty_entry_build. intros D S. by rewrite lookup_empty. }
  apply index_eq; [by apply no_empty_entry_build|done|].
  intros D. apply set_eq. intros P. rewrite !rev_lookup_build_any. naive_solver.
Qed.

Section Again.
Variable json_loads : string → option (list pkg_json).
Variable w : World.

Lemma analyzed_twice :
  analyzed json_loads w (analyzed json_loads w BrewAnalyzer.init)
  = analyzed json_loads w BrewAnalyzer.init.
Proof.
  unfold analyzed. destruct (installed_list w) as [|pkg l]; [done|].
  remember (single_entry json_loads w <$> pkg :: l) as es. simpl.
  rewrite foldl_put_twice. f_equal. apply build_reverse_dependencies_twice.
Qed.

Import OptimizedBrewAnalyzer.

Lemma analyze_packages_cli_state self p :
  brew_found w = true → use_api self = false → batch_size self = Zpos p →
  runs (analyze_packages json_loads w self)
       (Returns (analyzed_cli json_loads w (Pos.to_nat p) self))
       ([Brew ["list"; "--formula"]; Brew ["list"; "--cask"]]
        ++ match installed_list w with
           | [] => []
           | l => query_call <$> issued_queries (Pos.to_nat p) l
           end).
Proof.
  intros Hf Hapi Hb. unfold analyze_packages, analyzed_cli.
  eapply runs_bind; [by apply get_installed_packages_found|].
  destruct (installed_list w) as [|pkg l] eqn:El; [apply runs_ret|].
  change (OptimizedBrewAnalyzer.use_api (set_installed_packages self _))
    with (OptimizedBrewAnalyzer.use_api self).
  rewrite Hapi.
  eapply (runs_bind_eq _ _ _ _ [] _); [apply runs_ret| |done].
  change (OptimizedBrewAnalyzer.use_api (set_installed_packages self _))
    with (OptimizedBrewAnalyzer.use_api self).
  rewrite Hapi. simpl negb. cbv iota.
  eapply runs_bind_eq; [by apply analyze_cli_found| |by rewrite app_nil_r].
  eapply runs_eq; [apply runs_ret| |done]. f_equal.
  unfold set_reverse_dependencies, set_packages, set_installed_packages. simpl.
  by rewrite Hapi, Hb.
Qed.

Lemma analyzed_cli_twice b batch_size :
  analyzed_cli json_loads w b (analyzed_cli json_loads w b (init false batch_size))
  = analyzed_cli json_loads w b (init false batch_size).
Proof.
  unfold analyzed_cli. destruct (installed_list w) as [|pkg l]; [done|].
  remember (cli_entries json_loads w b (pkg :: l)) as es. simpl.
  rewrite foldl_put_twice. f_equal. apply build_reverse_dependencies_twice.
Qed.

(** X18. With [brew] available, running [analyze_packages] again on the
    analyzer a run returned (brewinfo.py, and the batch strategy of the
    optimized analyzer) returns that same analyzer and makes the same
    calls: catalog, reverse index and installed names are unchanged. *)
Theorem rerun_changes_nothing (p : positive) :
  brew_found w = true →
  (∃ self calls,
     runs (BrewAnalyzer.analyze_packages json_loads w BrewAnalyzer.init)
          (Returns self) calls ∧
     runs (BrewAnalyzer.analyze_packages json_loads w self) (Returns self) calls) ∧
  (∃ self calls,
     runs (analyze_packages json_loads w (init false (Zpos p))) (Returns self) calls ∧
     runs (analyze_packages json_loads w self) (Returns self) calls).
Proof.
  intros Hf. split.
  - eexists _, _. split; [by apply analyze_packages_found|].
    eapply runs_eq; [by apply analyze_packages_found|by rewrite analyzed_twice|done].
  - eexists _, _. split; [by apply (analyze_packages_cli_state _ p)|].
    eapply runs_eq.
    + apply (analyze_packages_cli_state _ p); [done|..];
        unfold analyzed_cli; by destruct (installed_list w).
    + by rewrite analyzed_cli_twice.
    + done.
Qed.
End Again.

Lemma rerun_changes_nothing_witness :
  (∃ self calls,
     runs (BrewAnalyzer.analyze_packages example_loads example_world BrewAnalyzer.init)
          (Returns self) calls ∧
     runs (BrewAnalyzer.analyze_packages example_loads example_world self)
          (Returns self) calls) ∧
  (∃ self calls,
     runs (OptimizedBrewAnalyzer.analyze_packages example_loads example_world
             (OptimizedBrewAnalyzer.init false 2)) (Returns self) calls ∧
     runs (OptimizedBrewAnalyzer.analyze_packages example_loads example_world self)
          (Returns self) calls).
Proof.
  apply (rerun_changes_nothing example_loads example_world 2). reflexivity.
Defined.

Lemma names_of_sublist k (l1 l2 : list (string * bool)) :
  l1 `sublist_of` l2 → names_of k l1 `sublist_of` names_of k l2.
Proof.
  unfold names_of. induction 1 as [|x l1 l2 _ IH|x l1 l2 _ IH]; [done|..];
    rewrite !filter_cons; case_decide; simpl; try done.
  - by apply sublist_skip.
  - by apply sublist_cons.
Qed.

Lemma slice_sublist {A} (l : list A) i b : slice l i b `sublist_of` l.
Proof. unfold slice. etrans; [apply sublist_take|apply sublist_drop]. Qed.

Lemma elem_of_batches_slice {A} b (l batch : list A) :
  batch ∈ batches b l → ∃ i, batch = slice l i b.
Proof. unfold batches. intros (i & -> & _)%list_elem_of_fmap. by exists i. Qed.

Section Coherent.
Variable json_loads : string → option (list pkg_json).
Variable w : World.
Variable db : bool → string → option pkg_json.
Hypothesis Hcoherent : coherent json_loads w db.

Lemma last_keyed_omap k names n :
  n ∈ names → last_keyed (kind_key k) n (omap (db k) names) = db k n.
Proof.
  destruct Hcoherent as [Hkey _]. intros Hn. unfold last_keyed.
  assert (∀ o, o ∈ filter (λ o, kind_key k o = Some n) (omap (db k) names) →
               db k n = Some o) as Hall.
  { intros o [Ho Hin]%list_elem_of_filter.
    apply list_elem_of_omap in Hin as (n' & _ & Hn').
    rewrite (Hkey _ _ _ Hn') in Ho. by injection Ho as ->. }
  destruct (last _) as [o|] eqn:El.
  - symmetry. apply Hall. by apply last_Some_elem_of.
  - apply last_None in El. destruct (db k n) as [o|] eqn:Ho; [|done].
    assert (o ∈ filter (λ o, kind_key k o = Some n) (omap (db k) names)) as Hin.
    { apply list_elem_of_filter. split; [by eapply Hkey|].
      apply list_elem_of_omap. by exists n. }
    rewrite El in Hin. by apply elem_of_nil in Hin.
Qed.

Lemma coherent_batch_result k names n :
  names `sublist_of` names_of k (installed_list w) → n ∈ names →
  batch_result json_loads w k names n = kind_info k n <$> db k n.
Proof.
  intros Hsub Hn. destruct Hcoherent as [Hkey Hans].
  assert (names ≠ []) as Hne by (intros ->; by apply elem_of_nil in Hn).
  destruct (Hans k names Hne Hsub) as [Hout Hloads].
  unfold batch_result, batch_data. rewrite Hout, Hloads.
  destruct (index_by (kind_key k) (omap (db k) names) ∅) as [data|] eqn:Hd.
  - rewrite (index_by_lookup _ _ _ _ n Hd), last_keyed_omap, lookup_empty by done.
    by destruct (db k n).
  - apply index_by_None in Hd. apply Exists_exists in Hd as (o & Hin & Ho).
    apply list_elem_of_omap in Hin as (n' & _ & Hn').
    by rewrite (Hkey _ _ _ Hn') in Ho.
Qed.

Lemma coherent_single_result k n :
  (n, k) ∈ installed_list w →
  single_result json_loads w n k = kind_info k n <$> db k n.
Proof.
  intros Hin. destruct Hcoherent as [Hkey Hans].
  destruct (Hans k [n]) as [Hout Hloads]; [done| |].
  { apply singleton_sublist_l. by apply elem_of_names_of. }
  unfold single_result. rewrite Hout, Hloads. simpl. by destruct (db k n).
Qed.

Lemma coherent_cli_entries b :
  0 < b →
  cli_entries json_loads w b (installed_list w)
  = single_entry json_loads w <$> installed_list w.
Proof.
  intros Hb. unfold cli_entries.
  rewrite <- (concat_batches b (installed_list w) Hb) at 2.
  assert (∀ bs, Forall (λ batch, batch ∈ batches b (installed_list w)) bs →
            concat (batch_entries json_loads w <$> bs)
            = single_entry json_loads w <$> concat bs) as Hbs.
  { induction 1 as [|batch bs Hin _ IH]; [done|].
    rewrite fmap_cons, !concat_cons, fmap_app, IH. f_equal.
    rewrite batch_entries_aligned by (by eapply batches_enumerate).
    apply list_fmap_ext. intros j [n k] Hj. unfold entry_of, single_entry. simpl.
    f_equal. apply list_elem_of_lookup_2 in Hj.
    rewrite coherent_single_result.
    2:{ destruct (elem_of_batches_slice _ _ _ Hin) as [i ->].
        by eapply slice_subseteq. }
    apply coherent_batch_result; [|by apply elem_of_names_of].
    destruct (elem_of_batches_slice _ _ _ Hin) as [i ->].
    apply names_of_sublist, slice_sublist. }
  apply Hbs, Forall_forall. by intros batch Hin.
Qed.

(** X19. On a world that answers the metadata queries about its
    installed packages from one table, the batch run of the optimized
    analyzer, with any positive batch size, returns the same catalog,
    reverse index and installed names as the run of brewinfo.py; for
    distinct installed names the entry of an identity is the record of
    its table object. *)
Theorem batch_run_agrees_with_single_run (p : positive) :
  brew_found w = true →
  ∃ single batch calls calls',
    runs (BrewAnalyzer.analyze_packages json_loads w BrewAnalyzer.init)
         (Returns single) calls ∧
    runs (OptimizedBrewAnalyzer.analyze_packages json_loads w
            (OptimizedBrewAnalyzer.init false (Zpos p)))
         (Returns batch) calls' ∧
    OptimizedBrewAnalyzer.packages batch = BrewAnalyzer.packages single ∧
    OptimizedBrewAnalyzer.reverse_dependencies batch
    = BrewAnalyzer.reverse_dependencies single ∧
    OptimizedBrewAnalyzer.installed_packages batch
    = BrewAnalyzer.installed_packages single ∧
    (∀ n k, (n, k) ∈ installed_list w → NoDup (installed_list w).*1 →
       BrewAnalyzer.packages single !! n = kind_info k n <$> db k n).
Proof.
  intros Hf. eexists _, _, _, _.
  split; [by apply analyze_packages_found|].
  split; [by apply (analyze_packages_cli_state _ _ _ p)|].
  assert (0 < Pos.to_nat p) as Hb by lia.
  unfold analyzed, analyzed_cli.
  pose proof (coherent_cli_entries _ Hb) as Hent.
  destruct (installed_list w) as [|pkg l] eqn:El.
  { repeat split; try done. intros n k Hin. by apply elem_of_nil in Hin. }
  rewrite <- El in *. remember (installed_list w) as il. simpl.
  rewrite Hent. repeat split; try done.
  intros n k Hin Hnd. rewrite <- (coherent_single_result k n) by (by subst il).
  apply foldl_put_lookup_NoDup; [| |apply lookup_empty].
  - rewrite <- list_fmap_compose.
    by rewrite (list_fmap_ext _ fst il) by (by intros).
  - by apply (list_elem_of_fmap_2 (single_entry json_loads w) _ (n, k)).
Qed.
End Coherent.

Lemma table_world_coherent : coherent table_loads table_world table.
Proof.
  split.
  - intros k n o. unfold table. destruct k.
    + destruct (String.eqb n "c") eqn:E; [|done].
      apply String.eqb_eq in E as ->. by intros [= <-].
    + destruct (String.eqb n "a") eqn:E; [|done].
      apply String.eqb_eq in E as ->. by intros [= <-].
  - intros k names Hne Hsub.
    replace (names_of k (installed_list table_world))
      with (if k then ["c"] else ["a"; "b"]) in Hsub by (by destruct k; vm_compute).
    destruct k.
    + apply sublist_cons_r in Hsub as [Hsub|(l' & -> & Hsub)];
        apply sublist_nil_r in Hsub as ->; [done|]. by vm_compute.
    + apply sublist_cons_r in Hsub as [Hsub|(l' & -> & Hsub)];
        (apply sublist_cons_r in Hsub as [Hsub|(l'' & -> & Hsub)]);
        apply sublist_nil_r in Hsub as ->; try done; by vm_compute.
Qed.

Lemma batch_run_agrees_with_single_run_witness :
  ∃ single batch calls calls',
    runs (BrewAnalyzer.analyze_packages table_loads table_world BrewAnalyzer.init)
         (Returns single) calls ∧
    runs (OptimizedBrewAnalyzer.analyze_packages table_loads table_world
            (OptimizedBrewAnalyzer.init false 2))
         (Returns batch) calls' ∧
    OptimizedBrewAnalyzer.packages batch = BrewAnalyzer.packages single ∧
    OptimizedBrewAnalyzer.reverse_dependencies batch
    = BrewAnalyzer.reverse_dependencies single ∧
    OptimizedBrewAnalyzer.installed_packages batch
    = BrewAnalyzer.installed_packages single ∧
    (∀ n k, (n, k) ∈ installed_list table_world →
            NoDup (installed_list table_world).*1 →
       BrewAnalyzer.packages single !! n = kind_info k n <$> table k n).
Proof.
  apply (batch_run_agrees_with_single_run table_loads table_world table
           table_world_coherent 2).
  reflexivity.
Defined.

Section EmptyManifests.
Variable json_loads : string → option (list pkg_json).
Variable w : World.
Import OptimizedBrewAnalyzer.

(** X11. When both requests succeed with an empty array, a run with the
    API selected caches the empty manifests and falls back: it returns
    what the batch run returns, the cache apart, and makes the batch
    queries after the two requests. *)
Theorem empty_manifests_fall_back (p : positive) :
  brew_found w = true →
  installed_list w ≠ [] →
  http_json w formula_url = Some [] →
  http_json w cask_url = Some [] →
  runs (analyze_packages json_loads w (init true (Zpos p)))
       (Returns (set_api_cache
                   (analyzed_cli json_loads w (Pos.to_nat p) (init false (Zpos p)))
                   (Some (∅, ∅))))
       ([Brew ["list"; "--formula"]; Brew ["list"; "--cask"];
         HttpGet formula_url; HttpGet cask_url]
        ++ (query_call <$> issued_queries (Pos.to_nat p) (installed_list w))).
Proof.
  intros Hf Hl Hfl Hcl. unfold analyze_packages, analyzed_cli.
  eapply (runs_bind_eq _ _ _ _ [_; _] (_ :: _ :: _));
    [by apply get_installed_packages_found| |done].
  destruct (installed_list w) as [|pkg l] eqn:El; [done|].
  change (OptimizedBrewAnalyzer.use_api
            (set_installed_packages (init true (Zpos p)) _)) with true.
  cbv iota.
  eapply (runs_bind_eq _ _ _ _ [_; _] _); [| |done].
  - unfold analyze_api.
    eapply (runs_bind_eq _ _ _ _ [_; _] []); [| |done].
    + unfold fetch_api_data. simpl _api_cache. cbv iota.
      eapply (runs_bind_eq _ _ _ _ [_] [_]); [apply runs_emit| |done].
      rewrite Hfl. simpl index_by. cbv iota.
      eapply (runs_bind_eq _ _ _ _ [_] []); [apply runs_emit| |done].
      rewrite Hcl. simpl index_by. cbv iota. apply runs_ret.
    + simpl. rewrite bool_decide_eq_false_2 by (by intros []). simpl.
      apply runs_ret.
  - simpl negb. cbv iota.
    eapply runs_bind_eq; [by apply (analyze_cli_found _ _ Hf _ _ p)| |
                          by rewrite app_nil_r].
    eapply runs_eq; [apply runs_ret|reflexivity|done].
Qed.
End EmptyManifests.


Lemma empty_manifests_fall_back_witness :
  runs (OptimizedBrewAnalyzer.analyze_packages example_loads empty_api_world
          (OptimizedBrewAnalyzer.init true 2))
       (Returns (OptimizedBrewAnalyzer.set_api_cache
                   (analyzed_cli example_loads empty_api_world (Pos.to_nat 2)
                      (OptimizedBrewAnalyzer.init false 2))
                   (Some (∅, ∅))))
       ([Brew ["list"; "--formula"]; Brew ["list"; "--cask"];
         HttpGet OptimizedBrewAnalyzer.formula_url;
         HttpGet OptimizedBrewAnalyzer.cask_url]
        ++ (query_call <$> issued_queries (Pos.to_nat 2) (installed_list empty_api_world))).
Proof.
  apply (empty_manifests_fall_back example_loads empty_api_world 2).
  - reflexivity.
  - by vm_compute.
  - reflexivity.
  - reflexivity.
Defined.

(** * Isolation, fall-back, failures and order *)

(** ** The results of a batch and their pairing *)

Lemma formulas_first_names_by_kind l : formulas_first l → names_by_kind l.
Proof.
  unfold formulas_first, names_by_kind. intros Hff. rewrite Hff at 1.
  unfold enumerate. rewrite fmap_app, <- !list_fmap_compose.
  f_equal; by rewrite <- list_fmap_id; apply list_fmap_ext.
Qed.

Lemma Forall2_named_inv k (f : string → option PackageInfo) ns : ∀ b,
  (∀ n, n ∈ ns → ∃ o, f n = Some (kind_info k n o)) →
  Forall2 named b (map f ns) → b.*1 = ns.
Proof.
  induction ns as [|n ns IH]; intros b Hf Hb; simpl in *.
  - by apply Forall2_nil_inv_r in Hb as ->.
  - apply Forall2_cons_inv_r in Hb as ([n' k'] & b' & Hnamed & Hb' & ->).
    destruct (Hf n) as [o Ho]; [left|]. rewrite Ho in Hnamed.
    specialize (Hnamed _ eq_refl). rewrite kind_info_name in Hnamed. simpl in *.
    subst n'. f_equal. apply IH; [|done]. intros m Hm. apply Hf. by right.
Qed.

Lemma Forall2_named_names (ns : list string) k rs :
  Forall2 (λ n r, sound (n, k) r) ns rs →
  Forall2 (λ n r, ∀ info : PackageInfo, r = Some info → name info = n) ns rs.
Proof.
  intros H. eapply Forall2_impl; [exact H|]. intros n r [Hown _] info ->.
  apply Hown.
Qed.

(** C10, amended.  The results of [parse_brew_info_batch] are one per
    request: those of the formulas in request order, then those of the
    casks in request order, each a record of the requested name and kind
    or [None]; the resolver returns whenever [brew] can be started.
    Pairing requests and results by position gives every request a result
    of its own identity (name and kind), whatever the responses are,
    exactly when the formulas of the request list precede its casks.  It
    gives every request a result of its own name exactly when the names
    of the list are those of its formulas followed by those of its casks,
    which holds when the formulas come first, but not only then.  Every
    slice of the enumerated list has its formulas first. *)
Theorem batch_results_order (batch : list (string * bool)) :
  (∀ json_loads w,
     post (OptimizedBrewAnalyzer.parse_brew_info_batch json_loads w batch)
       (λ results,
          length results = length batch ∧
          ∃ rf rc, results = rf ++ rc ∧
            Forall2 (λ n r, own (n, false) r) (names_of false batch) rf ∧
            Forall2 (λ n r, own (n, true) r) (names_of true batch) rc)) ∧
  (∀ json_loads w,
     brew_found w = true →
     ∃ results calls,
       runs (OptimizedBrewAnalyzer.parse_brew_info_batch json_loads w batch)
            (Returns results) calls) ∧
  (formulas_first batch ↔
   ∀ json_loads w,
     post (OptimizedBrewAnalyzer.parse_brew_info_batch json_loads w batch)
       (λ results, Forall2 own batch results)) ∧
  (batch.*1 = names_of false batch ++ names_of true batch ↔
   ∀ json_loads w,
     post (OptimizedBrewAnalyzer.parse_brew_info_batch json_loads w batch)
       (λ results,
          Forall2 (λ pkg r, ∀ info, r = Some info → name info = pkg.1) batch results)) ∧
  (formulas_first batch → batch.*1 = names_of false batch ++ names_of true batch) ∧
  (∀ w, post (get_installed_packages w)
          (λ installed_list, ∀ i b, formulas_first (slice installed_list i b))).
Proof.
  split; [|split; [|split; [|split; [|split]]]].
  - intros json_loads w. eapply post_mono; [apply post_parse_brew_info_batch|].
    intros results (rf & rc & -> & Hf & Hc). split.
    + rewrite length_app, <- (Forall2_length _ _ _ Hf), <- (Forall2_length _ _ _ Hc).
      apply length_names_of.
    + exists rf, rc. split; [done|].
      split; (eapply Forall2_impl; [done|]); by intros n r [? _].
  - intros json_loads w Hf. eexists _, _.
    by apply parse_brew_info_batch_found.
  - split.
    + intros Hff json_loads w.
      eapply post_mono; [by apply post_parse_brew_info_batch_aligned|].
      intros results Hres. eapply Forall2_impl; [done|]. by intros pkg r [? _].
    + intros Hpost.
      assert (Forall2 own batch (batch_results (echo_loads batch) echo_world batch))
        as Hown.
      { eapply (Hpost (echo_loads batch) echo_world []).
        apply (parse_brew_info_batch_found (echo_loads batch) echo_world eq_refl). }
      unfold batch_results in Hown.
      apply Forall2_app_inv_r in Hown as (b1 & b2 & H1 & H2 & Hb).
      apply (Forall2_own_inv false) in H1;
        [|intros n Hn; by apply echo_batch_result, (names_of_subseteq false)].
      apply (Forall2_own_inv true) in H2;
        [|intros n Hn; by apply echo_batch_result, (names_of_subseteq true)].
      unfold formulas_first, enumerate. by rewrite <- H1, <- H2.
  - split.
    + intros Hnames json_loads w.
      eapply post_mono; [apply post_parse_brew_info_batch|].
      intros results (rf & rc & -> & Hf & Hc).
      apply Forall2_named_names in Hf, Hc.
      pose proof (Forall2_app Hf Hc) as Hall. rewrite <- Hnames in Hall.
      by apply Forall2_fmap_l in Hall.
    + intros Hpost.
      assert (Forall2 named batch (batch_results (echo_loads batch) echo_world batch))
        as Hnamed.
      { eapply (Hpost (echo_loads batch) echo_world []).
        apply (parse_brew_info_batch_found (echo_loads batch) echo_world eq_refl). }
      unfold batch_results in Hnamed.
      apply Forall2_app_inv_r in Hnamed as (b1 & b2 & H1 & H2 & ->).
      apply (Forall2_named_inv false) in H1;
        [|intros n Hn; by apply echo_batch_result, (names_of_subseteq false)].
      apply (Forall2_named_inv true) in H2;
        [|intros n Hn; by apply echo_batch_result, (names_of_subseteq true)].
      rewrite fmap_app. rewrite H1 at 1. by rewrite H2 at 1.
  - apply formulas_first_names_by_kind.
  - intros w. eapply post_mono; [apply post_get_installed_packages|].
    intros l (fs & cs & ->) i b. apply formulas_first_slice.
Qed.

(** The cask [x] before the formula [x]: the formulas do not come first,
    yet every result is paired with a request of its name. *)
Lemma names_paired_without_formulas_first :
  ¬ formulas_first [("x", true); ("x", false)] ∧
  ∀ json_loads w,
    post (OptimizedBrewAnalyzer.parse_brew_info_batch json_loads w
            [("x", true); ("x", false)])
      (λ results,
         Forall2 (λ pkg r, ∀ info, r = Some info → name info = pkg.1)
                 [("x", true); ("x", false)] results).
Proof.
  split; [by vm_compute|].
  intros json_loads w. eapply post_mono; [apply post_parse_brew_info_batch|].
  intros results (rf & rc & -> & Hf & Hc).
  apply Forall2_named_names in Hf, Hc.
  pose proof (Forall2_app Hf Hc) as Hall.
  change (names_of false [("x", true); ("x", false)] ++ names_of true [("x", true); ("x", false)])
    with ([("x", true); ("x", false)].*1) in Hall.
  by apply Forall2_fmap_l in Hall.
Qed.

(** ** A failed batch *)


Section Isolation.
Variable json_loads : string → option (list pkg_json).
Variable w : World.
Import OptimizedBrewAnalyzer.


End Isolation.


(** In [half_twin_world] the batch of the formula [x] fails and nothing
    is stored for it; the record under the name [x] is the one stored for
    the cask [x]. *)
Lemma failed_formula_batch_of_a_twin :
  response_failed example_loads half_twin_world false ["x"] ∧
  ∃ self,
    runs (OptimizedBrewAnalyzer.analyze_packages example_loads half_twin_world
            (OptimizedBrewAnalyzer.init false 50)) (Returns self)
         [Brew ["list"; "--formula"]; Brew ["list"; "--cask"];
          Brew ["info"; "--json"; "x"]; Brew ["info"; "--json"; "--cask"; "x"]] ∧
    OptimizedBrewAnalyzer.packages self !! "x"
    = Some (cask_info "x" (pkg_object "x" ["z"])).
Proof.
  split; [by left|]. eexists. split.
  - eapply runs_eq;
      [apply (analyze_packages_cli_state example_loads half_twin_world
                (OptimizedBrewAnalyzer.init false 50) 50); reflexivity
      |reflexivity|by vm_compute].
  - by vm_compute.
Qed.

(** ** The fall-back from the API *)

Section FallingBack.
Variable json_loads : string → option (list pkg_json).
Variable w : World.
Import OptimizedBrewAnalyzer.




End FallingBack.



(** ** Responses of another shape *)

Lemma runs_for_each_raises {A S} (body : S → A → Run S) (step : S → A → S)
    (calls : A → list call) (l1 : list A) (x : A) (l2 : list A) (e : exn) :
  (∀ s y, y ∈ l1 → runs (body s y) (Returns (step s y)) (calls y)) →
  (∀ s, runs (body s x) (Raises e) (calls x)) →
  ∀ s, runs (for_each body s (l1 ++ x :: l2)) (Raises e)
            (concat (map calls (l1 ++ [x]))).
Proof.
  intros Hl1 Hx. induction l1 as [|y l1 IH]; intros s; simpl.
  - rewrite app_nil_r. apply runs_bind_raises, Hx.
  - eapply runs_bind; [apply Hl1; left|].
    apply IH. intros s' z Hz. apply Hl1. by right.
Qed.

Section RawRun.
Variable json_loads : string → option Raw.json.
Variable w : Raw.World.
Variable index : Type.
Variable build_reverse_dependencies : Raw.state index → Run (Raw.state index).
Hypothesis Hfound : Raw.brew_found w = true.

Lemma raw_run_brew_command args :
  runs (Raw.run_brew_command w args)
       (match Raw.brew_output w args with
        | Some out => Returns out
        | None => Raises UnicodeDecodeError
        end) [Brew args].
Proof.
  intros log. unfold Raw.run_brew_command, Raw.brew_output, bind, emit.
  rewrite Hfound. by destruct (Raw.brew_run w args).
Qed.

Lemma raw_get_installed_packages l :
  Raw.installed_list w = Some l →
  runs (Raw.get_installed_packages w) (Returns l)
       [Brew ["list"; "--formula"]; Brew ["list"; "--cask"]].
Proof.
  unfold Raw.installed_list, Raw.listed, Raw.get_installed_packages.
  intros Hl.
  pose proof (raw_run_brew_command ["list"; "--formula"]) as H1.
  pose proof (raw_run_brew_command ["list"; "--cask"]) as H2.
  destruct (Raw.brew_output w ["list"; "--formula"]) as [out1|]; [|done].
  destruct (Raw.brew_output w ["list"; "--cask"]) as [out2|]; [|done].
  injection Hl as <-.
  eapply (runs_bind _ _ _ _ [_] [_]); [exact H1|].
  eapply (runs_bind _ _ _ _ [_] []); [exact H2|]. apply runs_ret.
Qed.

Lemma uncaught_exceptions info_data e :
  Raw.uncaught info_data = Some e → e = TypeError ∨ e = AttributeError.
Proof.
  destruct info_data as [| [|] | [|] | [|a s] | [|[] items] | members]; simpl;
    intros [= <-]; auto.
Qed.

(** What [parse_brew_info] does is decided by the response. *)
Lemma raw_parse_brew_info package_name is_cask :
  ∃ o, runs (Raw.parse_brew_info json_loads w package_name is_cask) o
            [Brew (info_args is_cask [package_name])] ∧
       ∀ e, o = Raises e ↔ Raw.query_fatal json_loads w package_name is_cask e.
Proof.
  unfold Raw.parse_brew_info, Raw.query_fatal.
  change (["info"; "--json"] ++ (if is_cask then ["--cask"] else []) ++ [package_name])
    with (info_args is_cask [package_name]).
  pose proof (raw_run_brew_command (info_args is_cask [package_name])) as Hcmd.
  destruct (Raw.brew_output w (info_args is_cask [package_name])) as [out|].
  2:{ eexists. split; [by apply runs_bind_raises|]. intros e. split; congruence. }
  destruct out as [|a out'].
  { eexists. split.
    - eapply (runs_bind_eq _ _ _ _ [_] []); [exact Hcmd|apply runs_ret|done].
    - intros e. split; [done|]. by intros [? _]. }
  set (out := String a out') in *.
  destruct (json_loads out) as [info_data|] eqn:El.
  2:{ eexists. split.
      - eapply (runs_bind_eq _ _ _ _ [_] []); [exact Hcmd| |done].
        simpl. rewrite El. apply runs_ret.
      - intros e. split; [done|]. by intros (_ & v & [=] & _). }
  assert (∀ o : outcome (option Raw.PackageInfo),
            (∀ e, o = Raises e ↔ Raw.uncaught info_data = Some e) →
            ∀ e, o = Raises e ↔
                 out ≠ "" ∧ ∃ v, Some info_data = Some v ∧ Raw.uncaught v = Some e)
    as Hcls.
  { intros o Ho e. rewrite Ho. split.
    - intros Hu. split; [done|]. by exists info_data.
    - by intros (_ & v & [= <-] & Hv). }
  destruct info_data as [| [|] | [|] | [|c s] | [|x items] | [|m members]];
    try (eexists; split;
         [eapply (runs_bind_eq _ _ _ _ [_] []); [exact Hcmd| |done];
          simpl; rewrite El; simpl; first [apply runs_ret|apply runs_raise]
         |apply Hcls; intros e; simpl; split; congruence]).
  destruct x as [| b | nz | s | its | pkg_data];
    try (eexists; split;
         [eapply (runs_bind_eq _ _ _ _ [_] []); [exact Hcmd| |done];
          simpl; rewrite El; simpl; apply runs_raise
         |apply Hcls; intros e; simpl; split; congruence]).
  destruct is_cask;
    (eexists; split;
     [eapply (runs_bind_eq _ _ _ _ [_] []); [exact Hcmd| |done];
      simpl; rewrite El; simpl; apply runs_ret
     |apply Hcls; intros e; simpl; split; congruence]).
Qed.

Lemma query_fatal_exceptions package_name is_cask e :
  Raw.query_fatal json_loads w package_name is_cask e →
  e = UnicodeDecodeError ∨ e = TypeError ∨ e = AttributeError.
Proof.
  unfold Raw.query_fatal. destruct (Raw.brew_output w _); [|by left].
  intros (_ & v & _ & [-> | ->]%uncaught_exceptions); auto.
Qed.

Lemma raw_analyze_one self pkg :
  ∃ o, runs (Raw.analyze_one json_loads w index self pkg) o
            [Brew (info_args pkg.2 [pkg.1])] ∧
       ∀ e, o = Raises e ↔ Raw.query_fatal json_loads w pkg.1 pkg.2 e.
Proof.
  destruct pkg as [n k]. unfold Raw.analyze_one. simpl.
  destruct (raw_parse_brew_info n k) as ([[info|]|e0] & Hrun & Hfatal).
  - eexists. split.
    + eapply (runs_bind_eq _ _ _ _ [_] []); [exact Hrun|apply runs_ret|done].
    + intros e. rewrite <- Hfatal. split; congruence.
  - eexists. split.
    + eapply (runs_bind_eq _ _ _ _ [_] []); [exact Hrun|apply runs_ret|done].
    + intros e. rewrite <- Hfatal. split; congruence.
  - eexists. split; [by apply runs_bind_raises|].
    intros e. rewrite <- Hfatal. split; congruence.
Qed.

Lemma raw_loop_raises (l1 : list (string * bool)) package_name is_cask l2 e :
  (∀ pkg e', pkg ∈ l1 → ¬ Raw.query_fatal json_loads w pkg.1 pkg.2 e') →
  Raw.query_fatal json_loads w package_name is_cask e →
  ∀ s, runs (for_each (Raw.analyze_one json_loads w index) s
               (l1 ++ (package_name, is_cask) :: l2))
            (Raises e)
            (map (λ pkg, Brew (info_args pkg.2 [pkg.1])) (l1 ++ [(package_name, is_cask)])).
Proof.
  intros Hl1 Hfatal. induction l1 as [|pkg l1 IH]; intros s; simpl.
  - apply runs_bind_raises.
    destruct (raw_analyze_one s (package_name, is_cask)) as (o & Hrun & Ho).
    apply Ho in Hfatal as ->. exact Hrun.
  - destruct (raw_analyze_one s pkg) as ([s'|e'] & Hrun & Ho).
    + eapply (runs_bind _ _ _ _ [_]); [exact Hrun|].
      apply IH. intros pkg' e' Hin. apply Hl1. by right.
    + exfalso. apply (Hl1 pkg e'); [left|]. by apply Ho.
Qed.

(** C6. brewinfo.py, on any decoded document.  The enumeration succeeds
    and gives the identities [l1], then [package_name], then [l2]; no
    query for an identity of [l1] is fatal; the query for [package_name]
    prints what cannot be decoded as text, or a document that is a
    non-zero number or [true], a non-empty string, or an array whose
    first element is no object.  Then [analyze_packages] ends right after
    that query with [UnicodeDecodeError], [TypeError] or
    [AttributeError]: the failure of one metadata query ends the run,
    whatever [build_reverse_dependencies] would have done. *)
Theorem metadata_failure_ends_run (self : Raw.state index)
    (l1 : list (string * bool)) (package_name : string) (is_cask : bool)
    (l2 : list (string * bool)) (e : exn) :
  Raw.installed_list w = Some (l1 ++ (package_name, is_cask) :: l2) →
  (∀ pkg e', pkg ∈ l1 → ¬ Raw.query_fatal json_loads w pkg.1 pkg.2 e') →
  Raw.query_fatal json_loads w package_name is_cask e →
  runs (Raw.get_installed_packages w)
       (Returns (l1 ++ (package_name, is_cask) :: l2))
       [Brew ["list"; "--formula"]; Brew ["list"; "--cask"]] ∧
  runs (Raw.analyze_packages json_loads w index build_reverse_dependencies self)
       (Raises e)
       ([Brew ["list"; "--formula"]; Brew ["list"; "--cask"]]
        ++ map (λ pkg, Brew (info_args pkg.2 [pkg.1])) (l1 ++ [(package_name, is_cask)])) ∧
  (e = UnicodeDecodeError ∨ e = TypeError ∨ e = AttributeError).
Proof.
  intros Hl Hl1 Hfatal.
  pose proof (raw_get_installed_packages _ Hl) as Henum.
  split; [done|]. split; [|by eapply query_fatal_exceptions].
  unfold Raw.analyze_packages. eapply runs_bind; [exact Henum|].
  pose proof (raw_loop_raises l1 package_name is_cask l2 e Hl1 Hfatal) as Hloop.
  destruct l1 as [|pkg l1]; simpl app in *; cbv iota; apply runs_bind_raises, Hloop.
Qed.
End RawRun.

Lemma metadata_failure_ends_run_witness :
  (runs (Raw.get_installed_packages (Raw.failing_world (Raw.Output "5")))
        (Returns ([] ++ ("a", false) :: []))
        [Brew ["list"; "--formula"]; Brew ["list"; "--cask"]] ∧
   runs (Raw.analyze_packages Raw.failing_loads (Raw.failing_world (Raw.Output "5"))
           unit ret (Raw.mk ∅ tt ∅))
        (Raises TypeError)
        ([Brew ["list"; "--formula"]; Brew ["list"; "--cask"]]
         ++ map (λ pkg, Brew (info_args pkg.2 [pkg.1])) ([] ++ [("a", false)])) ∧
   (TypeError = UnicodeDecodeError ∨ TypeError = TypeError ∨ TypeError = AttributeError)) ∧
  (runs (Raw.get_installed_packages (Raw.failing_world (Raw.Output "[5]")))
        (Returns ([] ++ ("a", false) :: []))
        [Brew ["list"; "--formula"]; Brew ["list"; "--cask"]] ∧
   runs (Raw.analyze_packages Raw.failing_loads (Raw.failing_world (Raw.Output "[5]"))
           unit ret (Raw.mk ∅ tt ∅))
        (Raises AttributeError)
        ([Brew ["list"; "--formula"]; Brew ["list"; "--cask"]]
         ++ map (λ pkg, Brew (info_args pkg.2 [pkg.1])) ([] ++ [("a", false)])) ∧
   (AttributeError = UnicodeDecodeError ∨ AttributeError = TypeError
    ∨ AttributeError = AttributeError)) ∧
  (runs (Raw.get_installed_packages (Raw.failing_world Raw.Undecodable))
        (Returns ([] ++ ("a", false) :: []))
        [Brew ["list"; "--formula"]; Brew ["list"; "--cask"]] ∧
   runs (Raw.analyze_packages Raw.failing_loads (Raw.failing_world Raw.Undecodable)
           unit ret (Raw.mk ∅ tt ∅))
        (Raises UnicodeDecodeError)
        ([Brew ["list"; "--formula"]; Brew ["list"; "--cask"]]
         ++ map (λ pkg, Brew (info_args pkg.2 [pkg.1])) ([] ++ [("a", false)])) ∧
   (UnicodeDecodeError = UnicodeDecodeError ∨ UnicodeDecodeError = TypeError
    ∨ UnicodeDecodeError = AttributeError)).
Proof.
  split; [|split].
  - apply (metadata_failure_ends_run Raw.failing_loads
             (Raw.failing_world (Raw.Output "5")) unit ret eq_refl
             (Raw.mk ∅ tt ∅) [] "a" false [] TypeError).
    + reflexivity.
    + intros pkg e' Hin. by apply elem_of_nil in Hin.
    + split; [done|]. by exists (Raw.JNumber true).
  - apply (metadata_failure_ends_run Raw.failing_loads
             (Raw.failing_world (Raw.Output "[5]")) unit ret eq_refl
             (Raw.mk ∅ tt ∅) [] "a" false [] AttributeError).
    + reflexivity.
    + intros pkg e' Hin. by apply elem_of_nil in Hin.
    + split; [done|]. by exists (Raw.JArray [Raw.JNumber true]).
  - apply (metadata_failure_ends_run Raw.failing_loads
             (Raw.failing_world Raw.Undecodable) unit ret eq_refl
             (Raw.mk ∅ tt ∅) [] "a" false [] UnicodeDecodeError).
    + reflexivity.
    + intros pkg e' Hin. by apply elem_of_nil in Hin.
    + reflexivity.
Defined.

(** On the responses of brew's JSON interface the two embeddings agree. *)
Lemma raw_get_installed_packages_typed (w : World) :
  Raw.get_installed_packages (of_world w) = get_installed_packages w.
Proof.
  assert (∀ args, Raw.run_brew_command (of_world w) args = run_brew_command w args) as Hcmd.
  { intros args. unfold Raw.run_brew_command, run_brew_command, subprocess_run. simpl.
    destruct (brew_found w); [|done]. by destruct (brew_stdout w args). }
  unfold Raw.get_installed_packages, get_installed_packages. by rewrite !Hcmd.
Qed.

Lemma dict_get_of_object (o : pkg_json) :
  Raw.dict_get (match of_object o with Raw.JObject members => members | _ => [] end) "desc"
  = Raw.JString <$> j_desc o ∧
  Raw.dict_get (match of_object o with Raw.JObject members => members | _ => [] end)
    "homepage" = Raw.JString <$> j_homepage o ∧
  Raw.dict_get (match of_object o with Raw.JObject members => members | _ => [] end)
    "build_dependencies" = (λ l, Raw.JArray (Raw.JString <$> l)) <$> j_build_dependencies o ∧
  Raw.dict_get (match of_object o with Raw.JObject members => members | _ => [] end)
    "dependencies" = (λ l, Raw.JArray (Raw.JString <$> l)) <$> j_dependencies o.
Proof.
  destruct o as [[n|] [t|] [d|] [h|] [b|] [r|]]; by repeat split.
Qed.

Lemma raw_parse_brew_info_typed (json_loads : string → option (list pkg_json))
    (w : World) package_name is_cask log :
  Raw.parse_brew_info (of_loads json_loads) (of_world w) package_name is_cask log
  = let r := BrewAnalyzer.parse_brew_info json_loads w package_name is_cask log in
    (outcome_map (fmap of_info) r.1, r.2).
Proof.
  unfold Raw.parse_brew_info, BrewAnalyzer.parse_brew_info, bind.
  unfold Raw.run_brew_command, run_brew_command, subprocess_run, bind, emit. simpl.
  destruct (brew_found w); [|done].
  destruct (brew_stdout w _) as [out|]; simpl; [|done].
  destruct (nonempty (strip out)); simpl; [|done].
  unfold of_loads. destruct (json_loads (strip out)) as [[|pkg_data rest]|]; simpl; try done.
  destruct (dict_get_of_object pkg_data) as (Hd & Hh & Hb & Hr).
  unfold of_object in *. simpl in Hd, Hh, Hb, Hr. rewrite Hd, Hh.
  destruct is_cask; unfold ret, of_info, cask_info, formula_info, get; simpl.
  - by destruct (j_desc pkg_data), (j_homepage pkg_data).
  - rewrite Hb, Hr.
    by destruct (j_desc pkg_data), (j_homepage pkg_data), (j_build_dependencies pkg_data),
      (j_dependencies pkg_data).
Qed.

(** ** The order of dicts and sets *)

(** *** Dicts in insertion order *)

Lemma getitem_lookup {V} (d : Ordered.dict V) key :
  Ordered.getitem d key = (list_to_map d : gmap string V) !! key.
Proof.
  induction d as [|[k v] d IH]; simpl; [by rewrite lookup_empty|].
  destruct (String.eqb k key) eqn:E.
  - apply String.eqb_eq in E as ->. by rewrite lookup_insert_eq.
  - apply String.eqb_neq in E. by rewrite lookup_insert_ne.
Qed.

Lemma list_to_map_setitem {V} (d : Ordered.dict V) key v :
  (list_to_map (Ordered.setitem d key v) : gmap string V) = <[key := v]> (list_to_map d).
Proof.
  induction d as [|[k v'] d IH]; simpl; [done|].
  destruct (String.eqb k key) eqn:E.
  - apply String.eqb_eq in E as ->. simpl. by rewrite insert_insert_eq.
  - apply String.eqb_neq in E. simpl. rewrite IH. by apply insert_insert_ne.
Qed.

Lemma setitem_keys {V} (d : Ordered.dict V) key v :
  (Ordered.setitem d key v).*1 = if bool_decide (key ∈ d.*1) then d.*1 else d.*1 ++ [key].
Proof.
  induction d as [|[k v'] d IH]; [done|]. cbn [Ordered.setitem].
  destruct (String.eqb k key) eqn:E.
  - apply String.eqb_eq in E as ->. rewrite !fmap_cons. simpl fst.
    rewrite bool_decide_eq_true_2; [done|left].
  - apply String.eqb_neq in E. rewrite !fmap_cons, IH. simpl fst.
    destruct (bool_decide (key ∈ d.*1)) eqn:Hd.
    + apply bool_decide_eq_true in Hd. rewrite bool_decide_eq_true_2; [done|by right].
    + apply bool_decide_eq_false in Hd. rewrite bool_decide_eq_false_2; [done|].
      intros [?|?]%elem_of_cons; congruence.
Qed.

Lemma NoDup_setitem {V} (d : Ordered.dict V) key v :
  NoDup d.*1 → NoDup (Ordered.setitem d key v).*1.
Proof.
  intros Hd. rewrite setitem_keys. case_bool_decide as Hk; [done|].
  apply NoDup_app. split; [done|]. split; [|apply NoDup_singleton].
  intros x Hx ->%list_elem_of_singleton. done.
Qed.

(** *** Sets in any order *)

Section Layout.
Variable layout : list string → string → list string.
Hypothesis Harr : Ordered.arranges layout.

Lemma list_to_set_set_add s x :
  (list_to_set (Ordered.set_add layout s x) : gset string) = list_to_set s ∪ {[x]}.
Proof.
  unfold Ordered.set_add. case_bool_decide as Hx.
  - apply set_eq. intros y. rewrite elem_of_union, elem_of_list_to_set, elem_of_singleton.
    naive_solver.
  - rewrite (list_to_set_perm_L _ _ (Harr s x)). simpl. set_solver.
Qed.

Lemma list_to_set_set_of names :
  (list_to_set (Ordered.set_of layout names) : gset string) = list_to_set names.
Proof.
  unfold Ordered.set_of.
  assert (∀ s, (list_to_set (foldl (Ordered.set_add layout) s names) : gset string)
               = list_to_set s ∪ list_to_set names) as H.
  { induction names as [|x names IH]; intros s; simpl; [set_solver|].
    rewrite IH, list_to_set_set_add. set_solver. }
  rewrite H. set_solver.
Qed.

Lemma view_index_rev_add pkg_name rd dep :
  view_index (Ordered.rev_add layout pkg_name rd dep)
  = rev_add pkg_name (view_index rd) dep.
Proof.
  unfold Ordered.rev_add, rev_add, view_index, rev_lookup.
  rewrite list_to_map_setitem, fmap_insert, list_to_set_set_add, getitem_lookup.
  rewrite lookup_fmap. by destruct (list_to_map rd !! dep).
Qed.

Lemma view_index_foldl_rev_add pkg_name deps : ∀ rd,
  view_index (foldl (Ordered.rev_add layout pkg_name) rd deps)
  = foldl (rev_add pkg_name) (view_index rd) deps.
Proof.
  induction deps as [|dep deps IH]; intros rd; simpl; [done|].
  by rewrite IH, view_index_rev_add.
Qed.

Lemma view_index_add_package pkg_name pkg_info rd :
  view_index (Ordered.add_package layout pkg_name pkg_info rd)
  = add_package pkg_name pkg_info (view_index rd).
Proof.
  unfold Ordered.add_package, add_package. by rewrite !view_index_foldl_rev_add.
Qed.
End Layout.

(** *** The order of the items does not matter to the index *)

Lemma rev_add_comm p1 p2 d1 d2 (rd : gmap string (gset string)) :
  rev_add p1 (rev_add p2 rd d2) d1 = rev_add p2 (rev_add p1 rd d1) d2.
Proof.
  unfold rev_add, rev_lookup. destruct (decide (d1 = d2)) as [->|Hne].
  - rewrite !lookup_insert_eq, !insert_insert_eq. simpl. f_equal. set_solver.
  - rewrite !lookup_insert_ne by done. by apply insert_insert_ne.
Qed.

Lemma foldl_rev_add_comm p1 p2 d (deps : list string) : ∀ rd,
  rev_add p2 (foldl (rev_add p1) rd deps) d = foldl (rev_add p1) (rev_add p2 rd d) deps.
Proof.
  induction deps as [|dep deps IH]; intros rd; simpl; [done|].
  by rewrite IH, rev_add_comm.
Qed.

Lemma foldl_foldl_rev_add_comm p1 p2 (deps1 deps2 : list string) : ∀ rd,
  foldl (rev_add p2) (foldl (rev_add p1) rd deps1) deps2
  = foldl (rev_add p1) (foldl (rev_add p2) rd deps2) deps1.
Proof.
  induction deps2 as [|dep deps2 IH]; intros rd; simpl; [done|].
  by rewrite <- IH, foldl_rev_add_comm.
Qed.

Lemma add_package_comm n1 i1 n2 i2 (rd : gmap string (gset string)) :
  add_package n1 i1 (add_package n2 i2 rd) = add_package n2 i2 (add_package n1 i1 rd).
Proof.
  unfold add_package. rewrite <- !foldl_app. apply foldl_foldl_rev_add_comm.
Qed.

Lemma foldl_add_package_comm n info (items : list (string * PackageInfo)) : ∀ rd,
  add_package n info (foldl (λ rd '(n', i'), add_package n' i' rd) rd items)
  = foldl (λ rd '(n', i'), add_package n' i' rd) (add_package n info rd) items.
Proof.
  induction items as [|[n' i'] items IH]; intros rd; simpl; [done|].
  by rewrite IH, add_package_comm.
Qed.

(** Going through the items in insertion order builds the index that
    [build_reverse_dependencies] builds from the map. *)
Lemma foldl_add_package_build (items : list (string * PackageInfo)) rd :
  NoDup items.*1 →
  foldl (λ rd '(n, i), add_package n i rd) rd items
  = build_reverse_dependencies (list_to_map items) rd.
Proof.
  unfold build_reverse_dependencies. revert rd.
  induction items as [|[n info] items IH]; intros rd Hnd; simpl.
  - by rewrite map_fold_empty.
  - rewrite fmap_cons, NoDup_cons in Hnd. destruct Hnd as [Hn Hnd]. simpl in Hn.
    rewrite map_fold_insert_L.
    + rewrite <- IH by done. symmetry. apply foldl_add_package_comm.
    + intros. apply add_package_comm.
    + by apply not_elem_of_list_to_map_1.
Qed.

Lemma view_index_build layout packages rd :
  Ordered.arranges layout → NoDup packages.*1 →
  view_index (Ordered.build_reverse_dependencies layout packages rd)
  = build_reverse_dependencies (list_to_map packages) (view_index rd).
Proof.
  intros Harr Hnd. rewrite <- foldl_add_package_build by done.
  unfold Ordered.build_reverse_dependencies. clear Hnd. revert rd.
  induction packages as [|[n info] packages IH]; intros rd; simpl; [done|].
  by rewrite IH, view_index_add_package.
Qed.

(** *** Simulation *)

Lemma simulates_ret {A B} (R : A → B → Prop) a b : R a b → simulates R (ret a) (ret b).
Proof. by intros HR log. Qed.

Lemma simulates_raise {A B} (R : A → B → Prop) e : simulates R (raise e) (raise e).
Proof. by intros log. Qed.

Lemma simulates_refl {A} (m : Run A) : simulates eq m m.
Proof. intros log. by destruct (m log) as [[a|e] log']. Qed.

Lemma simulates_bind {A B C D} (R1 : A → B → Prop) (R2 : C → D → Prop)
    (mo : Run A) (m : Run B) (ko : A → Run C) (k : B → Run D) :
  simulates R1 mo m → (∀ a b, R1 a b → simulates R2 (ko a) (k b)) →
  simulates R2 (bind mo ko) (bind m k).
Proof.
  intros Hm Hk log. unfold bind. specialize (Hm log).
  destruct (mo log) as [[a|e1] log1], (m log) as [[b|e2] log2]; try done.
  destruct Hm as [HR <-]. apply (Hk a b HR).
Qed.

Lemma simulates_for_each {X S T} (R : S → T → Prop)
    (bodyo : S → X → Run S) (body : T → X → Run T) (l : list X) :
  (∀ so s x, R so s → simulates R (bodyo so x) (body s x)) →
  ∀ so s, R so s → simulates R (for_each bodyo so l) (for_each body s l).
Proof.
  intros Hbody. induction l as [|x l IH]; intros so s HR; simpl.
  - by apply simulates_ret.
  - eapply simulates_bind; [by apply Hbody|]. intros so' s'. apply IH.
Qed.

Lemma simulates_outcome {A B} (R : A → B → Prop) (f : A → B) mo m log :
  (∀ a b, R a b → f a = b) → simulates R mo m →
  outcome_map f (mo log).1 = (m log).1.
Proof.
  intros Hf Hsim. specialize (Hsim log).
  destruct (mo log) as [[a|e1] log1], (m log) as [[b|e2] log2]; try done; simpl.
  - destruct Hsim as [HR _]. by rewrite (Hf a b HR).
  - by destruct Hsim as [-> _].
Qed.

Section Simulations.
Variable layout : list string → string → list string.
Hypothesis Harr : Ordered.arranges layout.
Variable json_loads : string → option (list pkg_json).
Variable w : World.

Lemma simulates_analyze_one so s pkg :
  shows_basic so s →
  simulates shows_basic (Ordered.Basic.analyze_one json_loads w so pkg)
            (BrewAnalyzer.analyze_one json_loads w s pkg).
Proof.
  intros [Hnd <-]. destruct pkg as [n k].
  unfold Ordered.Basic.analyze_one, BrewAnalyzer.analyze_one.
  eapply simulates_bind; [apply simulates_refl|]. intros r ? <-.
  destruct r as [info|]; apply simulates_ret; [|done]. split; simpl.
  - by apply NoDup_setitem.
  - unfold view_basic, BrewAnalyzer.set_packages. simpl.
    by rewrite list_to_map_setitem.
Qed.

Lemma simulates_analyze_packages_basic so s :
  shows_basic so s →
  simulates shows_basic (Ordered.Basic.analyze_packages layout json_loads w so)
            (BrewAnalyzer.analyze_packages json_loads w s).
Proof.
  intros [Hnd <-].
  unfold Ordered.Basic.analyze_packages, BrewAnalyzer.analyze_packages.
  eapply simulates_bind; [apply simulates_refl|]. intros l ? <-.
  destruct l as [|pkg l]; [by apply simulates_ret|].
  eapply simulates_bind.
  - apply simulates_for_each.
    + intros so' s' x. apply simulates_analyze_one.
    + split; [done|]. unfold view_basic, BrewAnalyzer.set_installed_packages. simpl.
      by rewrite list_to_set_set_of.
  - intros so' s' [Hnd' <-]. apply simulates_ret. split; [done|].
    unfold view_basic, BrewAnalyzer.set_reverse_dependencies. simpl.
    by rewrite view_index_build.
Qed.

Lemma shows_store so s n r :
  shows_optimized so s →
  shows_optimized (Ordered.Optimized.store so n r) (OptimizedBrewAnalyzer.store s n r).
Proof.
  intros [Hnd <-]. destruct r as [info|]; [|done]. split; simpl.
  - by apply NoDup_setitem.
  - unfold view_optimized, OptimizedBrewAnalyzer.set_packages. simpl.
    by rewrite list_to_map_setitem.
Qed.

Lemma simulates_fetch_api_data so s :
  shows_optimized so s →
  simulates (λ ro r, shows_optimized ro.1 r.1 ∧ ro.2 = r.2)
            (Ordered.Optimized.fetch_api_data w so)
            (OptimizedBrewAnalyzer.fetch_api_data w s).
Proof.
  intros [Hnd <-].
  unfold Ordered.Optimized.fetch_api_data, OptimizedBrewAnalyzer.fetch_api_data.
  simpl. destruct (Ordered.Optimized._api_cache so) as [cached|].
  { by apply simulates_ret. }
  eapply simulates_bind; [apply simulates_refl|]. intros _ _ _.
  destruct (http_json w _) as [fl|]; [|by apply simulates_ret].
  destruct (index_by j_name fl ∅) as [formulas|]; [|apply simulates_raise].
  eapply simulates_bind; [apply simulates_refl|]. intros _ _ _.
  destruct (http_json w _) as [cl|]; [|by apply simulates_ret].
  destruct (index_by j_token cl ∅) as [casks|]; [|apply simulates_raise].
  by apply simulates_ret.
Qed.

Lemma simulates_analyze_api l so s :
  shows_optimized so s →
  simulates shows_optimized (Ordered.Optimized.analyze_api w l so)
            (OptimizedBrewAnalyzer.analyze_api w l s).
Proof.
  intros Hs. unfold Ordered.Optimized.analyze_api, OptimizedBrewAnalyzer.analyze_api.
  eapply simulates_bind; [by apply simulates_fetch_api_data|].
  intros [so' [formulas casks]] [s' [formulas' casks']] [Hs' [= <- <-]]. simpl in Hs'.
  destruct (_ || _); apply simulates_ret.
  - revert so' s' Hs'. induction l as [|[n k] l IH]; intros so' s' Hs'; simpl; [done|].
    by apply IH, shows_store.
  - destruct Hs' as [Hnd <-]. by split.
Qed.

Lemma simulates_analyze_batch l b so s i :
  shows_optimized so s →
  simulates shows_optimized (Ordered.Optimized.analyze_batch json_loads w l b so i)
            (OptimizedBrewAnalyzer.analyze_batch json_loads w l b s i).
Proof.
  intros Hs. unfold Ordered.Optimized.analyze_batch, OptimizedBrewAnalyzer.analyze_batch.
  eapply simulates_bind; [apply simulates_refl|]. intros results ? <-.
  apply simulates_ret. generalize (zip (slice l i b) results). intros entries.
  revert so s Hs. induction entries as [|[[n k] r] entries IH]; intros so s Hs; simpl;
    [done|].
  by apply IH, shows_store.
Qed.

Lemma simulates_analyze_cli l so s :
  shows_optimized so s →
  simulates shows_optimized (Ordered.Optimized.analyze_cli json_loads w l so)
            (OptimizedBrewAnalyzer.analyze_cli json_loads w l s).
Proof.
  intros Hs. unfold Ordered.Optimized.analyze_cli, OptimizedBrewAnalyzer.analyze_cli.
  assert (OptimizedBrewAnalyzer.batch_size s = Ordered.Optimized.batch_size so) as ->.
  { by destruct Hs as [_ <-]. }
  destruct (Ordered.Optimized.batch_size so);
    [apply simulates_raise| |by apply simulates_ret].
  apply simulates_for_each; [|done]. intros so' s' i. apply simulates_analyze_batch.
Qed.

Lemma simulates_analyze_packages_optimized so s :
  shows_optimized so s →
  simulates shows_optimized (Ordered.Optimized.analyze_packages layout json_loads w so)
            (OptimizedBrewAnalyzer.analyze_packages json_loads w s).
Proof.
  intros [Hnd <-].
  unfold Ordered.Optimized.analyze_packages, OptimizedBrewAnalyzer.analyze_packages.
  eapply simulates_bind; [apply simulates_refl|]. intros l ? <-.
  destruct l as [|pkg l]; [by apply simulates_ret|].
  eapply (simulates_bind shows_optimized).
  { simpl. destruct (Ordered.Optimized.use_api so) eqn:Hu.
    - apply simulates_analyze_api. split; [done|].
      unfold view_optimized, OptimizedBrewAnalyzer.set_installed_packages. simpl.
      by rewrite list_to_set_set_of, Hu.
    - apply simulates_ret. split; [done|].
      unfold view_optimized, OptimizedBrewAnalyzer.set_installed_packages. simpl.
      by rewrite list_to_set_set_of, Hu. }
  intros so1 s1 Hs1. eapply (simulates_bind shows_optimized).
  { assert (OptimizedBrewAnalyzer.use_api s1 = Ordered.Optimized.use_api so1) as ->.
    { by destruct Hs1 as [_ <-]. }
    destruct (negb _); [by apply simulates_analyze_cli|by apply simulates_ret]. }
  intros so2 s2 [Hnd2 <-]. apply simulates_ret. split; [done|].
  unfold view_optimized, OptimizedBrewAnalyzer.set_reverse_dependencies. simpl.
  by rewrite view_index_build.
Qed.
End Simulations.

(** *** The order of the dicts *)

Lemma simulates_related {A B} (R : A → B → Prop) (mo : Run A) (m : Run B) log1 log2 :
  simulates R mo m → traced m → related R (mo log1).1 (m log2).1.
Proof.
  intros Hsim Htr. rewrite (traced_outcome m log2 log1 Htr). specialize (Hsim log1).
  unfold related. destruct (mo log1) as [[a|e1] l1], (m log1) as [[b|e2] l2]; try done;
    by destruct Hsim.
Qed.

Lemma rev_add_keys layout pkg_name rd dep :
  (Ordered.rev_add layout pkg_name rd dep).*1
  = if bool_decide (dep ∈ rd.*1) then rd.*1 else rd.*1 ++ [dep].
Proof. unfold Ordered.rev_add. apply setitem_keys. Qed.

Lemma foldl_rev_add_keys layout1 layout2 pkg_name deps : ∀ rd1 rd2,
  rd1.*1 = rd2.*1 →
  (foldl (Ordered.rev_add layout1 pkg_name) rd1 deps).*1
  = (foldl (Ordered.rev_add layout2 pkg_name) rd2 deps).*1.
Proof.
  induction deps as [|dep deps IH]; intros rd1 rd2 Hrd; simpl; [done|].
  apply IH. by rewrite !rev_add_keys, Hrd.
Qed.

Lemma build_keys layout1 layout2 packages : ∀ rd1 rd2,
  rd1.*1 = rd2.*1 →
  (Ordered.build_reverse_dependencies layout1 packages rd1).*1
  = (Ordered.build_reverse_dependencies layout2 packages rd2).*1.
Proof.
  unfold Ordered.build_reverse_dependencies.
  induction packages as [|[n info] packages IH]; intros rd1 rd2 Hrd; simpl; [done|].
  apply IH. unfold Ordered.add_package. by do 2 apply foldl_rev_add_keys.
Qed.

Section Orders.
Variables layout1 layout2 : list string → string → list string.
Variable json_loads : string → option (list pkg_json).
Variable w : World.

Lemma same_order_analyze_packages_basic s1 s2 :
  same_order_basic s1 s2 →
  simulates same_order_basic
    (Ordered.Basic.analyze_packages layout1 json_loads w s1)
    (Ordered.Basic.analyze_packages layout2 json_loads w s2).
Proof.
  intros Hs. unfold Ordered.Basic.analyze_packages.
  eapply simulates_bind; [apply simulates_refl|]. intros l ? <-.
  destruct l as [|pkg l]; [by apply simulates_ret|].
  eapply (simulates_bind same_order_basic).
  - apply simulates_for_each; [|by destruct Hs].
    intros s1' s2' [n k] [Hp Hr]. unfold Ordered.Basic.analyze_one.
    eapply simulates_bind; [apply simulates_refl|]. intros r ? <-.
    destruct r as [info|]; apply simulates_ret; [|done]. split; simpl; [|done].
    by rewrite Hp.
  - intros s1' s2' [Hp Hr]. apply simulates_ret. split; simpl; [done|].
    rewrite Hp. by apply build_keys.
Qed.

Lemma same_order_store s1 s2 n r :
  same_order_optimized s1 s2 →
  same_order_optimized (Ordered.Optimized.store s1 n r) (Ordered.Optimized.store s2 n r).
Proof.
  intros (Hp & Hr & Hu & Hb & Hc). destruct r as [info|]; [|done].
  unfold same_order_optimized. simpl. by rewrite Hp.
Qed.

Lemma same_order_analyze_packages_optimized s1 s2 :
  same_order_optimized s1 s2 →
  simulates same_order_optimized
    (Ordered.Optimized.analyze_packages layout1 json_loads w s1)
    (Ordered.Optimized.analyze_packages layout2 json_loads w s2).
Proof.
  intros (Hp & Hr & Hu & Hb & Hc). unfold Ordered.Optimized.analyze_packages.
  eapply simulates_bind; [apply simulates_refl|]. intros l ? <-.
  destruct l as [|pkg l]; [by apply simulates_ret|].
  eapply (simulates_bind same_order_optimized).
  { simpl. rewrite Hu. destruct (Ordered.Optimized.use_api s2); [|by apply simulates_ret].
    unfold Ordered.Optimized.analyze_api.
    eapply (simulates_bind (λ r1 r2, same_order_optimized r1.1 r2.1 ∧ r1.2 = r2.2)).
    - unfold Ordered.Optimized.fetch_api_data. simpl. rewrite Hc.
      destruct (Ordered.Optimized._api_cache s2) as [cached|].
      { by apply simulates_ret. }
      eapply simulates_bind; [apply simulates_refl|]. intros _ _ _.
      destruct (http_json w _) as [fl|]; [|by apply simulates_ret].
      destruct (index_by j_name fl ∅) as [formulas|]; [|apply simulates_raise].
      eapply simulates_bind; [apply simulates_refl|]. intros _ _ _.
      destruct (http_json w _) as [cl|]; [|by apply simulates_ret].
      destruct (index_by j_token cl ∅) as [casks|]; [|apply simulates_raise].
      by apply simulates_ret.
    - intros [s1' [formulas casks]] [s2' [formulas' casks']] [Hs' [= <- <-]].
      simpl in Hs'. destruct (_ || _); apply simulates_ret.
      + revert s1' s2' Hs'. induction (pkg :: l) as [|[n k] l' IH]; intros s1' s2' Hs';
          simpl; [done|]. by apply IH, same_order_store.
      + destruct Hs' as (? & ? & ? & ? & ?). by repeat split. }
  intros s1' s2' Hs'. eapply (simulates_bind same_order_optimized).
  { pose proof Hs' as (Hp' & Hr' & Hu' & Hb' & Hc'). rewrite Hu'.
    destruct (negb _); [|by apply simulates_ret].
    unfold Ordered.Optimized.analyze_cli. rewrite Hb'.
    destruct (Ordered.Optimized.batch_size s2');
      [apply simulates_raise| |by apply simulates_ret].
    apply simulates_for_each; [|done]. intros t1 t2 i Ht.
    unfold Ordered.Optimized.analyze_batch.
    eapply simulates_bind; [apply simulates_refl|]. intros results ? <-.
    apply simulates_ret. generalize (zip (slice (pkg :: l) i (Pos.to_nat p)) results).
    intros entries. revert t1 t2 Ht.
    induction entries as [|[[n k] r] entries IH]; intros t1 t2 Ht; simpl; [done|].
    by apply IH, same_order_store. }
  intros t1 t2 (Hp' & Hr' & Hu' & Hb' & Hc'). apply simulates_ret.
  unfold same_order_optimized. simpl. rewrite Hp'. repeat split; try done.
  by apply build_keys.
Qed.

Lemma traced_analyze_packages_ordered_basic s :
  traced (Ordered.Basic.analyze_packages layout2 json_loads w s).
Proof.
  unfold Ordered.Basic.analyze_packages.
  apply traced_bind; [apply traced_get_installed_packages|]. intros l.
  destruct l as [|pkg l]; [apply traced_ret|].
  apply traced_bind; [|intros; apply traced_ret].
  apply traced_for_each. intros s' [n k]. unfold Ordered.Basic.analyze_one.
  apply traced_bind; [apply traced_parse_brew_info|].
  intros [info|]; apply traced_ret.
Qed.

Lemma traced_analyze_packages_ordered_optimized s :
  traced (Ordered.Optimized.analyze_packages layout2 json_loads w s).
Proof.
  unfold Ordered.Optimized.analyze_packages.
  apply traced_bind; [apply traced_get_installed_packages|]. intros l.
  destruct l as [|pkg l]; [apply traced_ret|].
  apply traced_bind.
  { destruct (Ordered.Optimized.use_api _); [|apply traced_ret].
    unfold Ordered.Optimized.analyze_api. apply traced_bind.
    - unfold Ordered.Optimized.fetch_api_data.
      destruct (Ordered.Optimized._api_cache _); [apply traced_ret|].
      apply traced_bind; [apply traced_emit|]. intros _.
      destruct (http_json w _) as [fl|]; [|apply traced_ret].
      destruct (index_by j_name fl ∅); [|apply traced_raise].
      apply traced_bind; [apply traced_emit|]. intros _.
      destruct (http_json w _) as [cl|]; [|apply traced_ret].
      destruct (index_by j_token cl ∅); auto with traced.
    - intros [s' [formulas casks]]. destruct (_ || _); apply traced_ret. }
  intros s1. apply traced_bind; [|intros; apply traced_ret].
  destruct (negb _); [|apply traced_ret].
  unfold Ordered.Optimized.analyze_cli.
  destruct (Ordered.Optimized.batch_size s1); auto with traced.
  apply traced_for_each. intros s' i. unfold Ordered.Optimized.analyze_batch.
  apply traced_bind; [apply traced_parse_brew_info_batch|]. intros. apply traced_ret.
Qed.
End Orders.

(** C8. Two runs on fresh analyzers in the same world, in processes
    that lay out their sets differently, from any call logs.  Both end
    the same way, and what they return is equal for Python's [==]: the
    catalogs as dicts, the indexes as dicts of sets, the installed names
    as sets; it is what the embedding on maps and sets returns.  The two
    catalogs hold the same items in the same order and the two indexes
    the same keys in the same order: the runs can differ only in the
    order within their sets.  Both analyzers, every strategy. *)
Theorem resolution_is_deterministic
    (layout1 layout2 : list string → string → list string)
    (json_loads : string → option (list pkg_json)) (w : World)
    (use_api : bool) (batch_size : Z) (log1 log2 : list call) :
  Ordered.arranges layout1 → Ordered.arranges layout2 →
  let first :=
    (Ordered.Basic.analyze_packages layout1 json_loads w Ordered.Basic.init log1).1 in
  let second :=
    (Ordered.Basic.analyze_packages layout2 json_loads w Ordered.Basic.init log2).1 in
  let first' :=
    (Ordered.Optimized.analyze_packages layout1 json_loads w
       (Ordered.Optimized.init use_api batch_size) log1).1 in
  let second' :=
    (Ordered.Optimized.analyze_packages layout2 json_loads w
       (Ordered.Optimized.init use_api batch_size) log2).1 in
  (outcome_map view_basic first = outcome_map view_basic second ∧
   outcome_map view_basic first
   = (BrewAnalyzer.analyze_packages json_loads w BrewAnalyzer.init log1).1 ∧
   related same_order_basic first second) ∧
  (outcome_map view_optimized first' = outcome_map view_optimized second' ∧
   outcome_map view_optimized first'
   = (OptimizedBrewAnalyzer.analyze_packages json_loads w
        (OptimizedBrewAnalyzer.init use_api batch_size) log1).1 ∧
   related same_order_optimized first' second').
Proof.
  intros H1 H2. simpl.
  assert (shows_basic Ordered.Basic.init BrewAnalyzer.init) as Hb.
  { split; [constructor|done]. }
  assert (shows_optimized (Ordered.Optimized.init use_api batch_size)
            (OptimizedBrewAnalyzer.init use_api batch_size)) as Ho.
  { split; [constructor|done]. }
  assert (∀ so s, shows_basic so s → view_basic so = s) as Hvb by (by intros so s [_ ?]).
  assert (∀ so s, shows_optimized so s → view_optimized so = s) as Hvo
    by (by intros so s [_ ?]).
  split; (split; [|split]).
  - rewrite (simulates_outcome _ _ _ _ log1 Hvb
               (simulates_analyze_packages_basic layout1 H1 json_loads w _ _ Hb)).
    rewrite (simulates_outcome _ _ _ _ log2 Hvb
               (simulates_analyze_packages_basic layout2 H2 json_loads w _ _ Hb)).
    apply traced_outcome, traced_analyze_packages_single.
  - apply (simulates_outcome _ _ _ _ log1 Hvb
             (simulates_analyze_packages_basic layout1 H1 json_loads w _ _ Hb)).
  - apply simulates_related.
    + by apply same_order_analyze_packages_basic.
    + apply traced_analyze_packages_ordered_basic.
  - rewrite (simulates_outcome _ _ _ _ log1 Hvo
               (simulates_analyze_packages_optimized layout1 H1 json_loads w _ _ Ho)).
    rewrite (simulates_outcome _ _ _ _ log2 Hvo
               (simulates_analyze_packages_optimized layout2 H2 json_loads w _ _ Ho)).
    apply traced_outcome, traced_analyze_packages_optimized.
  - apply (simulates_outcome _ _ _ _ log1 Hvo
             (simulates_analyze_packages_optimized layout1 H1 json_loads w _ _ Ho)).
  - apply simulates_related.
    + by apply same_order_analyze_packages_optimized.
    + apply traced_analyze_packages_ordered_optimized.
Qed.

Lemma resolution_is_deterministic_witness :
  (outcome_map view_basic
     (Ordered.Basic.analyze_packages Ordered.in_front example_loads example_world
        Ordered.Basic.init []).1
   = outcome_map view_basic
       (Ordered.Basic.analyze_packages Ordered.at_the_end example_loads example_world
          Ordered.Basic.init []).1 ∧
   outcome_map view_basic
     (Ordered.Basic.analyze_packages Ordered.in_front example_loads example_world
        Ordered.Basic.init []).1
   = (BrewAnalyzer.analyze_packages example_loads example_world BrewAnalyzer.init []).1 ∧
   related same_order_basic
     (Ordered.Basic.analyze_packages Ordered.in_front example_loads example_world
        Ordered.Basic.init []).1
     (Ordered.Basic.analyze_packages Ordered.at_the_end example_loads example_world
        Ordered.Basic.init []).1) ∧
  (outcome_map view_optimized
     (Ordered.Optimized.analyze_packages Ordered.in_front example_loads example_world
        (Ordered.Optimized.init false 2) []).1
   = outcome_map view_optimized
       (Ordered.Optimized.analyze_packages Ordered.at_the_end example_loads example_world
          (Ordered.Optimized.init false 2) []).1 ∧
   outcome_map view_optimized
     (Ordered.Optimized.analyze_packages Ordered.in_front example_loads example_world
        (Ordered.Optimized.init false 2) []).1
   = (OptimizedBrewAnalyzer.analyze_packages example_loads example_world
        (OptimizedBrewAnalyzer.init false 2) []).1 ∧
   related same_order_optimized
     (Ordered.Optimized.analyze_packages Ordered.in_front example_loads example_world
        (Ordered.Optimized.init false 2) []).1
     (Ordered.Optimized.analyze_packages Ordered.at_the_end example_loads example_world
        (Ordered.Optimized.init false 2) []).1).
Proof.
  apply (resolution_is_deterministic Ordered.in_front Ordered.at_the_end example_loads
           example_world false 2 [] []).
  - intros s x. reflexivity.
  - intros s x. symmetry. apply Permutation_cons_append.
Defined.

(** The two layouts of the examples do show in the ordered state: the
    installed names are held in opposite orders. *)
Lemma layouts_show_in_the_state :
  ∃ s1 s2,
    (Ordered.Basic.analyze_packages Ordered.in_front example_loads example_world
       Ordered.Basic.init []).1 = Returns s1 ∧
    (Ordered.Basic.analyze_packages Ordered.at_the_end example_loads example_world
       Ordered.Basic.init []).1 = Returns s2 ∧
    Ordered.Basic.installed_packages s1 = ["c"; "b"; "a"] ∧
    Ordered.Basic.installed_packages s2 = ["a"; "b"; "c"] ∧
    Ordered.Basic.packages s1 = Ordered.Basic.packages s2 ∧
    (Ordered.Basic.packages s1).*1 = ["a"; "c"] ∧
    Ordered.Basic.reverse_dependencies s1 = [("b", ["a"])] ∧
    Ordered.Basic.reverse_dependencies s2 = [("b", ["a"])].
Proof. eexists _, _. by vm_compute. Qed.
